(** * OAuth credential broker: token stores, token exchange and proactive refresh

    A shallow embedding of the storage layer ([MemoryTokenStore],
    [KvTokenStore]), of the token endpoint ([handleToken]) and of the
    proactive refresh controller ([ensureFreshToken]) of the calendar MCP
    server, together with the properties its specification states about them.

    Conventions of the embedding.
    - A JavaScript string is the string of its UTF-8 bytes; the text of an
      error response, which the code cuts with [substring], is the list of
      its UTF-16 code units.
    - Timestamps, TTLs and other numbers that the code only adds, subtracts
      and compares are integers ([Z]); every [Date.now()] of one top-level
      call reads the same instant [now].
    - A JavaScript [Map] is an insertion-ordered association list ([JsMap]).
    - An optional field or parameter ([x?: T]) is an [option]; where the code
      tests such a value for truthiness the test is written out
      ([truthy], [truthyZ]).
    - The record objects that the two token indices of the in-memory store
      share live in an explicit object heap and the indices hold references
      into it, so that a mutation made through one index is seen through the
      other exactly as in the source. *)

From Stdlib Require Import ZArith Lia String Ascii List Bool.
From stdpp Require Import base decidable option list strings pretty gmap.

Import ListNotations.
Open Scope string_scope.
Open Scope Z_scope.

(** ** SHA-256 and base64url

    [sha256B64UrlAsync] hashes the UTF-8 bytes of its argument with the
    platform's SHA-256 ([createHash('sha256')] or [crypto.subtle.digest]) and
    encodes the 32 digest bytes with [base64UrlEncode].  The hash is the one
    of FIPS 180-4, written on 32-bit words held in [Z]. *)

Module Sha256.

Definition w32 (x : Z) : Z := x mod 2 ^ 32.

Definition add32 (x y : Z) : Z := w32 (x + y).

Definition rotr (n x : Z) : Z :=
  Z.lor (Z.shiftr x n) (w32 (Z.shiftl x (32 - n))).

Definition not32 (x : Z) : Z := w32 (Z.lnot x).

Definition Ch (x y z : Z) : Z := Z.lxor (Z.land x y) (Z.land (not32 x) z).

Definition Maj (x y z : Z) : Z :=
  Z.lxor (Z.lxor (Z.land x y) (Z.land x z)) (Z.land y z).

Definition bigSigma0 (x : Z) : Z :=
  Z.lxor (Z.lxor (rotr 2 x) (rotr 13 x)) (rotr 22 x).

Definition bigSigma1 (x : Z) : Z :=
  Z.lxor (Z.lxor (rotr 6 x) (rotr 11 x)) (rotr 25 x).

Definition smallSigma0 (x : Z) : Z :=
  Z.lxor (Z.lxor (rotr 7 x) (rotr 18 x)) (Z.shiftr x 3).

Definition smallSigma1 (x : Z) : Z :=
  Z.lxor (Z.lxor (rotr 17 x) (rotr 19 x)) (Z.shiftr x 10).

(** The first primes, by trial division. *)
Definition isPrime (n : Z) : bool :=
  (1 <? n)
  && forallb (fun d => negb (n mod Z.of_nat d =? 0)) (seq 2 (Z.to_nat n - 2)).

Definition primes (count : nat) : list Z :=
  firstn count (List.filter isPrime (List.map Z.of_nat (seq 2 310))).

(** The integer cube root of a number below [2 ^ 108], bit by bit. *)
Definition icbrt (n : Z) : Z :=
  fold_left
    (fun r b => let r' := r + 2 ^ Z.of_nat b in if r' * r' * r' <=? n then r' else r)
    (rev (seq 0 36)) 0.

(** The round constants: the first 32 bits of the fractional parts of the
    cube roots of the first 64 primes. *)
Definition K : list Z :=
  Eval vm_compute in List.map (fun p => w32 (icbrt (p * 2 ^ 96))) (primes 64).

(** The initial hash value: the first 32 bits of the fractional parts of the
    square roots of the first 8 primes. *)
Definition H0 : list Z :=
  Eval vm_compute in List.map (fun p => w32 (Z.sqrt (p * 2 ^ 64))) (primes 8).

(** Big-endian bytes of a number, [n] of them. *)
Fixpoint beBytes (n : nat) (x : Z) : list Z :=
  match n with
  | O => []
  | S n' => Z.shiftr x (8 * Z.of_nat n') mod 256 :: beBytes n' x
  end.

Definition beWord (bs : list Z) : Z :=
  fold_left (fun acc b => acc * 256 + b) bs 0.

(** Message padding: a one bit, zeros up to 56 mod 64 bytes, then the bit
    length on 64 bits. *)
Definition pad (msg : list Z) : list Z :=
  let len := Z.of_nat (length msg) in
  let zeros := Z.to_nat ((55 - len) mod 64) in
  msg ++ [0x80] ++ repeat 0 zeros ++ beBytes 8 (8 * len).

Fixpoint chunks (fuel : nat) (n : nat) (l : list Z) : list (list Z) :=
  match fuel, l with
  | _, [] => []
  | O, _ => []
  | S fuel', _ => firstn n l :: chunks fuel' n (skipn n l)
  end.

(** The message schedule, newest word first while it is being built. *)
Fixpoint extend (k : nat) (rev_w : list Z) : list Z :=
  match k with
  | O => rev_w
  | S k' =>
      let w := add32 (add32 (smallSigma1 (nth 1 rev_w 0)) (nth 6 rev_w 0))
                     (add32 (smallSigma0 (nth 14 rev_w 0)) (nth 15 rev_w 0)) in
      extend k' (w :: rev_w)
  end.

Definition schedule (block : list Z) : list Z :=
  rev (extend 48 (rev (map beWord (chunks 16 4 block)))).

Definition round (s : list Z) (kw : Z * Z) : list Z :=
  match s with
  | [a; b; c; d; e; f; g; h] =>
      let t1 := add32 (add32 (add32 h (bigSigma1 e)) (add32 (Ch e f g) (fst kw))) (snd kw) in
      let t2 := add32 (bigSigma0 a) (Maj a b c) in
      [add32 t1 t2; a; b; c; add32 d t1; e; f; g]
  | _ => s
  end.

Definition compress (h : list Z) (block : list Z) : list Z :=
  let s := fold_left round (combine K (schedule block)) h in
  map (fun p => add32 (fst p) (snd p)) (combine h s).

Definition digest (msg : list Z) : list Z :=
  let p := pad msg in
  let blocks := chunks (length p) 64 p in
  flat_map (beBytes 4) (fold_left compress blocks H0).

End Sha256.

Definition utf8Bytes (s : string) : list Z :=
  map (fun c => Z.of_N (N_of_ascii c)) (list_ascii_of_string s).

(** [base64UrlEncode]: RFC 4648 section 5, without padding (what
    [Buffer.toString('base64url')] produces, and what the Web fallback
    produces after stripping [=]). *)

Definition b64urlAlphabet : string :=
  "ABCDEFGHIJKLMNOPQRSTUVWXYZabcdefghijklmnopqrstuvwxyz0123456789-_".

Definition b64urlChar (i : Z) : string :=
  match String.get (Z.to_nat i) b64urlAlphabet with
  | Some c => String c EmptyString
  | None => EmptyString
  end.

Fixpoint base64UrlEncode (bytes : list Z) : string :=
  match bytes with
  | [] => ""
  | [a] =>
      b64urlChar (Z.shiftr a 2) ++ b64urlChar (Z.shiftl (Z.land a 3) 4)
  | [a; b] =>
      b64urlChar (Z.shiftr a 2)
      ++ b64urlChar (Z.lor (Z.shiftl (Z.land a 3) 4) (Z.shiftr b 4))
      ++ b64urlChar (Z.shiftl (Z.land b 15) 2)
  | a :: b :: c :: rest =>
      b64urlChar (Z.shiftr a 2)
      ++ b64urlChar (Z.lor (Z.shiftl (Z.land a 3) 4) (Z.shiftr b 4))
      ++ b64urlChar (Z.lor (Z.shiftl (Z.land b 15) 2) (Z.shiftr c 6))
      ++ b64urlChar (Z.land c 63)
      ++ base64UrlEncode rest
  end.

Definition sha256B64UrlAsync (input : string) : string :=
  base64UrlEncode (Sha256.digest (utf8Bytes input)).

(** ** JavaScript values used by the code *)

(** Truthiness of an optional string: [undefined] and the empty string are
    falsy. *)
Definition truthy (o : option string) : bool :=
  match o with
  | Some s => negb (String.eqb s "")
  | None => false
  end.

(** Truthiness of an optional number: [undefined] and [0] are falsy. *)
Definition truthyZ (o : option Z) : bool :=
  match o with
  | Some n => negb (n =? 0)
  | None => false
  end.

(** [a ?? b]. *)
Definition nullish {A : Type} (o : option A) (d : A) : A :=
  match o with
  | Some a => a
  | None => d
  end.

(** [xs.join(' ')]. *)
Definition joinSpace (xs : list string) : string := String.concat " " xs.

(** ** A JavaScript [Map] with string keys

    Entries are kept in insertion order; [set] on a present key replaces the
    value where the key already stands, on an absent key it appends. *)

Module JsMap.

Definition t (V : Type) : Type := list (string * V).

Section Ops.
Context {V : Type}.

Fixpoint get (k : string) (m : t V) : option V :=
  match m with
  | [] => None
  | (k', v) :: m' => if String.eqb k' k then Some v else get k m'
  end.

Fixpoint set (k : string) (v : V) (m : t V) : t V :=
  match m with
  | [] => [(k, v)]
  | (k', v') :: m' =>
      if String.eqb k' k then (k, v) :: m' else (k', v') :: set k v m'
  end.

Fixpoint delete (k : string) (m : t V) : t V :=
  match m with
  | [] => []
  | (k', v') :: m' =>
      if String.eqb k' k then delete k m' else (k', v') :: delete k m'
  end.

Definition size (m : t V) : Z := Z.of_nat (length m).

(** Deleting a list of keys, one after the other. *)
Definition deleteAll (ks : list string) (m : t V) : t V :=
  fold_left (fun acc k => delete k acc) ks m.

(** Keeping the entries whose value passes a test ([for (..of map)] with
    [map.delete] on the others). *)
Definition retain (keep : V -> bool) (m : t V) : t V :=
  List.filter (fun e => keep (snd e)) m.

End Ops.

End JsMap.

(** ** Data model ([storage/interface.ts], as the stores and flows use it) *)

Record ProviderTokens := {
  access_token : string;
  refresh_token : option string;
  expires_at : option Z;
  scopes : option (list string);
}.

Record RsRecord := {
  rs_access_token : string;
  rs_refresh_token : string;
  provider : ProviderTokens;
  created_at : Z;
}.

Module Transaction.
Record t := {
  codeChallenge : string;
  state : option string;
  scope : option string;
  createdAt : Z;
  sid : option string;
  provider : option ProviderTokens;
}.
End Transaction.

(** [TimedEntry<T>]. *)
Module TimedEntry.
Record t (T : Type) := {
  value : T;
  expiresAt : Z;
  createdAt : Z;
}.
Arguments value {T} _.
Arguments expiresAt {T} _.
Arguments createdAt {T} _.
End TimedEntry.

(** [RsRecord & { expiresAt: number }]: the objects of the in-memory token
    indices. *)
Record RsEntry := {
  rsRecord : RsRecord;
  expiresAt : Z;
}.

Definition DEFAULT_TXN_TTL_MS : Z := 10 * 60 * 1000.
Definition DEFAULT_CODE_TTL_MS : Z := 10 * 60 * 1000.
Definition DEFAULT_RS_TOKEN_TTL_MS : Z := 7 * 24 * 60 * 60 * 1000.
Definition MAX_RS_RECORDS : Z := 10000.
Definition MAX_TRANSACTIONS : Z := 1000.

(** ** [evictOldest]

    The entries are sorted by creation time with the (stable) array sort and
    the first [countToRemove] of them are deleted from the map. *)

Section Evict.
Context {V : Type} (createdOf : V -> Z).

Fixpoint insertByTime (x : string * V) (sorted : list (string * V))
  : list (string * V) :=
  match sorted with
  | [] => [x]
  | y :: rest =>
      if createdOf (snd x) <=? createdOf (snd y)
      then x :: y :: rest
      else y :: insertByTime x rest
  end.

Definition sortByCreated (entries : list (string * V)) : list (string * V) :=
  fold_right insertByTime [] entries.

(** Ascending creation times: the order the comparator [aTime - bTime]
    asks for. *)
Inductive ascending : list (string * V) -> Prop :=
| asc_nil : ascending []
| asc_cons x l :
    Forall (fun y => createdOf (snd x) <= createdOf (snd y)) l ->
    ascending l -> ascending (x :: l).

(** The keys [evictOldest] deletes when the map is at capacity. *)
Definition victims (map : JsMap.t V) (countToRemove : nat) : list string :=
  List.map fst (firstn countToRemove (sortByCreated map)).

Definition evictOldest (map : JsMap.t V) (maxSize : Z) (countToRemove : nat)
  : JsMap.t V :=
  if JsMap.size map <? maxSize then map
  else JsMap.deleteAll (victims map countToRemove) map.

End Evict.

(** ** [MemoryTokenStore] *)

Record MemoryTokenStore := {
  heap : list RsEntry;
  rsAccessMap : JsMap.t nat;
  rsRefreshMap : JsMap.t nat;
  transactions : JsMap.t (TimedEntry.t Transaction.t);
  codes : JsMap.t (TimedEntry.t string);
}.

Module Memory.

Definition empty : MemoryTokenStore :=
  {| heap := []; rsAccessMap := []; rsRefreshMap := [];
     transactions := []; codes := [] |}.

Definition withHeap (h : list RsEntry) (s : MemoryTokenStore) :=
  {| heap := h; rsAccessMap := rsAccessMap s; rsRefreshMap := rsRefreshMap s;
     transactions := transactions s; codes := codes s |}.

Definition withAccess (m : JsMap.t nat) (s : MemoryTokenStore) :=
  {| heap := heap s; rsAccessMap := m; rsRefreshMap := rsRefreshMap s;
     transactions := transactions s; codes := codes s |}.

Definition withRefresh (m : JsMap.t nat) (s : MemoryTokenStore) :=
  {| heap := heap s; rsAccessMap := rsAccessMap s; rsRefreshMap := m;
     transactions := transactions s; codes := codes s |}.

Definition withTransactions (m : JsMap.t (TimedEntry.t Transaction.t))
    (s : MemoryTokenStore) :=
  {| heap := heap s; rsAccessMap := rsAccessMap s; rsRefreshMap := rsRefreshMap s;
     transactions := m; codes := codes s |}.

Definition withCodes (m : JsMap.t (TimedEntry.t string)) (s : MemoryTokenStore) :=
  {| heap := heap s; rsAccessMap := rsAccessMap s; rsRefreshMap := rsRefreshMap s;
     transactions := transactions s; codes := m |}.

(** An object reference together with the object's fields as read when the
    reference is handed out. *)
Definition Obj : Type := nat * RsEntry.

(** [map.get(key)] for an index of record objects.  The indices only ever
    hold allocated references; a reference outside the heap would read as
    an absent entry. *)
Definition lookupObj (m : JsMap.t nat) (k : string) (s : MemoryTokenStore)
  : option Obj :=
  match JsMap.get k m with
  | Some l =>
      match heap s !! l with
      | Some e => Some (l, e)
      | None => None
      end
  | None => None
  end.

(** [a[1].created_at ?? a[1].createdAt ?? 0] on a record object. *)
Definition createdOfObj (h : list RsEntry) (l : nat) : Z :=
  match h !! l with
  | Some e => created_at (rsRecord e)
  | None => 0
  end.

Definition expiredObj (now : Z) (h : list RsEntry) (l : nat) : bool :=
  match h !! l with
  | Some e => now >=? expiresAt e
  | None => false
  end.

(** [cleanup()]: the periodic sweep.  It returns how many entries it removed
    from the access-token index, the transactions and the codes. *)
Definition cleanup (now : Z) (s : MemoryTokenStore)
  : (Z * Z * Z) * MemoryTokenStore :=
  let live (l : nat) := negb (expiredObj now (heap s) l) in
  let liveTimed {T} (e : TimedEntry.t T) := negb (now >=? TimedEntry.expiresAt e) in
  let s' :=
    {| heap := heap s;
       rsAccessMap := JsMap.retain live (rsAccessMap s);
       rsRefreshMap := JsMap.retain live (rsRefreshMap s);
       transactions := JsMap.retain liveTimed (transactions s);
       codes := JsMap.retain liveTimed (codes s) |} in
  ((JsMap.size (rsAccessMap s) - JsMap.size (rsAccessMap s'),
    JsMap.size (transactions s) - JsMap.size (transactions s'),
    JsMap.size (codes s) - JsMap.size (codes s')),
   s').

(** [storeRsMapping]; [uuid] is what [crypto.randomUUID()] returns. *)
Definition storeRsMapping (now : Z) (uuid : string)
    (rsAccess : string) (prov : ProviderTokens) (rsRefresh : option string)
    (ttlMs : Z) (s : MemoryTokenStore) : Obj * MemoryTokenStore :=
  let expires := now + ttlMs in
  let s1 := withAccess
              (evictOldest (createdOfObj (heap s)) (rsAccessMap s) MAX_RS_RECORDS 10)
              s in
  let existing :=
    if truthy rsRefresh
    then lookupObj (rsRefreshMap s1) (nullish rsRefresh "") s1
    else None in
  match existing with
  | Some (l, e) =>
      let e' :=
        {| rsRecord :=
             {| rs_access_token := rsAccess;
                rs_refresh_token := rs_refresh_token (rsRecord e);
                provider := prov;
                created_at := created_at (rsRecord e) |};
           expiresAt := expires |} in
      ((l, e'),
       withAccess
         (JsMap.set rsAccess l
            (JsMap.delete (rs_access_token (rsRecord e)) (rsAccessMap s1)))
         (withHeap (<[l := e']> (heap s1)) s1))
  | None =>
      let record :=
        {| rsRecord :=
             {| rs_access_token := rsAccess;
                rs_refresh_token := nullish rsRefresh uuid;
                provider := prov;
                created_at := now |};
           expiresAt := expires |} in
      let l := length (heap s1) in
      ((l, record),
       withRefresh
         (JsMap.set (rs_refresh_token (rsRecord record)) l (rsRefreshMap s1))
         (withAccess
            (JsMap.set rsAccess l (rsAccessMap s1))
            (withHeap (heap s1 ++ [record]) s1)))
  end.

Definition getByRsAccess (now : Z) (rsAccess : string) (s : MemoryTokenStore)
  : option Obj * MemoryTokenStore :=
  match lookupObj (rsAccessMap s) rsAccess s with
  | None => (None, s)
  | Some (l, entry) =>
      if now >=? expiresAt entry
      then (None,
            withRefresh
              (JsMap.delete (rs_refresh_token (rsRecord entry)) (rsRefreshMap s))
              (withAccess (JsMap.delete rsAccess (rsAccessMap s)) s))
      else (Some (l, entry), s)
  end.

Definition getByRsRefresh (now : Z) (rsRefresh : string) (s : MemoryTokenStore)
  : option Obj * MemoryTokenStore :=
  match lookupObj (rsRefreshMap s) rsRefresh s with
  | None => (None, s)
  | Some (l, entry) =>
      if now >=? expiresAt entry
      then (None,
            withRefresh
              (JsMap.delete rsRefresh (rsRefreshMap s))
              (withAccess
                 (JsMap.delete (rs_access_token (rsRecord entry)) (rsAccessMap s)) s))
      else (Some (l, entry), s)
  end.

Definition updateByRsRefresh (now : Z) (rsRefresh : string)
    (prov : ProviderTokens) (maybeNewRsAccess : option string) (ttlMs : Z)
    (s : MemoryTokenStore) : option Obj * MemoryTokenStore :=
  match lookupObj (rsRefreshMap s) rsRefresh s with
  | None => (None, s)
  | Some (l, rec) =>
      let rotate := truthy maybeNewRsAccess in
      let access1 :=
        if rotate
        then JsMap.delete (rs_access_token (rsRecord rec)) (rsAccessMap s)
        else rsAccessMap s in
      let rec' :=
        {| rsRecord :=
             {| rs_access_token :=
                  if rotate then nullish maybeNewRsAccess ""
                  else rs_access_token (rsRecord rec);
                rs_refresh_token := rs_refresh_token (rsRecord rec);
                provider := prov;
                created_at :=
                  if rotate then now else created_at (rsRecord rec) |};
           expiresAt := now + ttlMs |} in
      (Some (l, rec'),
       {| heap := <[l := rec']> (heap s);
          rsAccessMap := JsMap.set (rs_access_token (rsRecord rec')) l access1;
          rsRefreshMap := JsMap.set rsRefresh l (rsRefreshMap s);
          transactions := transactions s;
          codes := codes s |})
  end.

Definition saveTransaction (now : Z) (txnId : string) (txn : Transaction.t)
    (ttlSeconds : option Z) (s : MemoryTokenStore) : MemoryTokenStore :=
  let ttlMs :=
    if truthyZ ttlSeconds then nullish ttlSeconds 0 * 1000
    else DEFAULT_TXN_TTL_MS in
  let evicted :=
    evictOldest TimedEntry.createdAt (transactions s) MAX_TRANSACTIONS 10 in
  withTransactions
    (JsMap.set txnId
       {| TimedEntry.value := txn;
          TimedEntry.expiresAt := now + ttlMs;
          TimedEntry.createdAt := now |}
       evicted)
    s.

Definition getTransaction (now : Z) (txnId : string) (s : MemoryTokenStore)
  : option Transaction.t * MemoryTokenStore :=
  match JsMap.get txnId (transactions s) with
  | None => (None, s)
  | Some entry =>
      if now >=? TimedEntry.expiresAt entry
      then (None, withTransactions (JsMap.delete txnId (transactions s)) s)
      else (Some (TimedEntry.value entry), s)
  end.

Definition deleteTransaction (txnId : string) (s : MemoryTokenStore)
  : MemoryTokenStore :=
  withTransactions (JsMap.delete txnId (transactions s)) s.

Definition saveCode (now : Z) (code : string) (txnId : string)
    (ttlSeconds : option Z) (s : MemoryTokenStore) : MemoryTokenStore :=
  let ttlMs :=
    if truthyZ ttlSeconds then nullish ttlSeconds 0 * 1000
    else DEFAULT_CODE_TTL_MS in
  withCodes
    (JsMap.set code
       {| TimedEntry.value := txnId;
          TimedEntry.expiresAt := now + ttlMs;
          TimedEntry.createdAt := now |}
       (codes s))
    s.

Definition getTxnIdByCode (now : Z) (code : string) (s : MemoryTokenStore)
  : option string * MemoryTokenStore :=
  match JsMap.get code (codes s) with
  | None => (None, s)
  | Some entry =>
      if now >=? TimedEntry.expiresAt entry
      then (None, withCodes (JsMap.delete code (codes s)) s)
      else (Some (TimedEntry.value entry), s)
  end.

Definition deleteCode (code : string) (s : MemoryTokenStore) : MemoryTokenStore :=
  withCodes (JsMap.delete code (codes s)) s.

End Memory.

(** ** Effects: clock, randomness, the provider's token endpoint, exceptions

    An asynchronous function of the source is a computation that reads its
    surroundings ([Env]), transforms the state of the process ([World]) and
    either returns a value or throws an [Error] with a message.  State
    changes made before a throw persist. *)

Inductive KvOp := KvGet | KvPut | KvDelete.

(** The JSON body of a token-endpoint response, as the code reads it. *)
Record TokenData := {
  data_access_token : option string;
  data_refresh_token : option string;
  data_expires_in : option Z;
  data_scope : option string;
}.

(** What [fetch] of the provider's token endpoint does: the promise rejects
    (no connection, or a URL that [fetch] does not take; also standing for a
    body that [resp.json()] cannot parse), or a response arrives with a
    non-2xx status, or with a JSON body.  The text of an error
    response ([await resp.text().catch(() => '')]) is kept as the list of its
    UTF-16 code units, which is what [substring] counts. *)
Inductive FetchReply :=
| FetchRejects (message : string)
| HttpError (status : Z) (text : list Z)
| HttpOk (data : TokenData).

Record Env := {
  now : Z;
  (** the bytes of the k-th draw from [randomBytes(n)] *)
  randomBytes : nat -> nat -> list Z;
  (** the result of the k-th draw when it is [crypto.randomUUID()] *)
  randomUUID : nat -> string;
  (** the provider's answer to a [refresh_token] POST carrying this token *)
  tokenEndpoint : string -> FetchReply;
  (** the error with which a KV operation on a key fails, if it does *)
  kvFault : KvOp -> string -> option string;
}.

Record World (S : Type) := {
  store : S;
  (** the module-level throttle map of the refresh controller *)
  recentlyRefreshed : JsMap.t Z;
  (** number of draws made from the random source *)
  drawn : nat;
  (** the refresh tokens of the [fetch] calls made for the provider's token
      endpoint, newest first *)
  fetches : list string;
}.
Arguments store {S} _.
Arguments recentlyRefreshed {S} _.
Arguments drawn {S} _.
Arguments fetches {S} _.

Definition withStore {S T : Type} (t : T) (w : World S) : World T :=
  {| store := t; recentlyRefreshed := recentlyRefreshed w;
     drawn := drawn w; fetches := fetches w |}.

Inductive Res (W A : Type) : Type :=
| Ok (a : A) (w : W)
| Throw (err : string) (w : W).
Arguments Ok {W A} _ _.
Arguments Throw {W A} _ _.

Definition M (W A : Type) : Type := Env -> W -> Res W A.

Definition ret {W A} (a : A) : M W A := fun _ w => Ok a w.

Definition bind {W A B} (m : M W A) (k : A -> M W B) : M W B :=
  fun e w =>
    match m e w with
    | Ok a w' => k a e w'
    | Throw err w' => Throw err w'
    end.

Notation "'let*' x := m 'in' k" := (bind m (fun x => k))
  (at level 10, x name, m at level 100, k at level 200).

Definition throw {W A} (err : string) : M W A := fun _ w => Throw err w.

(** [try { m } catch (error) { h(error.message) }]. *)
Definition tryCatch {W A} (m : M W A) (h : string -> M W A) : M W A :=
  fun e w =>
    match m e w with
    | Ok a w' => Ok a w'
    | Throw err w' => h err e w'
    end.

(** [await Promise.all([m1, m2])] for two writes: both are carried out, and
    the whole rejects with the first error if one of them fails. *)
Definition promiseAll2 {W} (m1 m2 : M W unit) : M W unit :=
  fun e w =>
    match m1 e w with
    | Ok _ w1 => m2 e w1
    | Throw err w1 =>
        match m2 e w1 with
        | Ok _ w2 => Throw err w2
        | Throw _ w2 => Throw err w2
        end
    end.

Definition dateNow {W} : M W Z := fun e w => Ok (now e) w.

(** Running a computation on a store of type [S] inside a world whose store
    has type [T] and holds the [S] as a component. *)
Definition zoom {S T A} (proj : T -> S) (inj : S -> T -> T)
    (m : M (World S) A) : M (World T) A :=
  fun e w =>
    match m e (withStore (proj (store w)) w) with
    | Ok a w' => Ok a (withStore (inj (store w') (store w)) w')
    | Throw err w' => Throw err (withStore (inj (store w') (store w)) w')
    end.

(** A store operation that reads the clock and cannot fail. *)
Definition storeOp {S A} (f : Z -> S -> A * S) : M (World S) A :=
  fun e w => let '(a, s') := f (now e) (store w) in Ok a (withStore s' w).

Definition storeDo {S} (f : Z -> S -> S) : M (World S) unit :=
  storeOp (fun n s => (tt, f n s)).

Definition drawUUID {S} : M (World S) string :=
  fun e w =>
    Ok (randomUUID e (drawn w))
       {| store := store w; recentlyRefreshed := recentlyRefreshed w;
          drawn := Nat.succ (drawn w); fetches := fetches w |}.

(** [generateOpaqueToken(bytes)]. *)
Definition generateOpaqueToken {S} (bytes : nat) : M (World S) string :=
  fun e w =>
    Ok (base64UrlEncode (randomBytes e (drawn w) bytes))
       {| store := store w; recentlyRefreshed := recentlyRefreshed w;
          drawn := Nat.succ (drawn w); fetches := fetches w |}.

(** [fetch(tokenUrl, { method: 'POST', body: grant_type=refresh_token&... })]. *)
Definition fetchToken {S} (refreshToken : string) : M (World S) FetchReply :=
  fun e w =>
    Ok (tokenEndpoint e refreshToken)
       {| store := store w; recentlyRefreshed := recentlyRefreshed w;
          drawn := drawn w; fetches := refreshToken :: fetches w |}.

(** ** The platform: [new URL] and [base64Encode]

    Before they call [fetch], the two refresh helpers build the token URL
    with [new URL(input)] or [new URL(input, base)], which throws a
    [TypeError] when the text does not parse, and the credentials with
    [base64Encode] ([Buffer] where there is one, else [btoa], which throws
    on text outside Latin-1).  Both are functions of their arguments alone,
    the same at every call of one process; what they compute is the
    platform's and is left open here. *)

Inductive Attempt (A : Type) : Type :=
| Done (a : A)
| Raised (message : string).
Arguments Done {A} _.
Arguments Raised {A} _.

Class Platform := {
  (** [new URL(input, base).toString()] *)
  newURL : string -> option string -> Attempt string;
  base64Encode : string -> Attempt string;
}.

(** Running a step that returns or throws. *)
Definition attempt {W A} (a : Attempt A) : M W A :=
  fun _ w =>
    match a with
    | Done x => Ok x w
    | Raised message => Throw message w
    end.

(** [`${x}`] for an optional string. *)
Definition template (o : option string) : string := nullish o "undefined".

(** ** The [TokenStore] interface *)

Class TokenStore (S : Type) := {
  storeRsMapping :
    string -> ProviderTokens -> option string -> M (World S) RsRecord;
  getByRsAccess : string -> M (World S) (option RsRecord);
  getByRsRefresh : string -> M (World S) (option RsRecord);
  updateByRsRefresh :
    string -> ProviderTokens -> option string -> M (World S) (option RsRecord);
  saveTransaction : string -> Transaction.t -> option Z -> M (World S) unit;
  getTransaction : string -> M (World S) (option Transaction.t);
  deleteTransaction : string -> M (World S) unit;
  saveCode : string -> string -> option Z -> M (World S) unit;
  getTxnIdByCode : string -> M (World S) (option string);
  deleteCode : string -> M (World S) unit;
}.

(** What a caller holds after a lookup in the in-memory store: the record
    object's fields (the caller reads them before it next touches the
    store). *)
Definition objRecord (o : Memory.Obj) : RsRecord := rsRecord (snd o).

Definition onFst {A B C} (f : A -> B) (p : A * C) : B * C := (f (fst p), snd p).

#[export] Instance MemoryTokenStore_TokenStore : TokenStore MemoryTokenStore := {
  storeRsMapping rsAccess prov rsRefresh :=
    let* uuid := match rsRefresh with
                 | Some _ => ret ""
                 | None => drawUUID
                 end in
    storeOp (fun n s =>
      onFst objRecord
        (Memory.storeRsMapping n uuid rsAccess prov rsRefresh
           DEFAULT_RS_TOKEN_TTL_MS s));
  getByRsAccess rsAccess :=
    storeOp (fun n s => onFst (option_map objRecord) (Memory.getByRsAccess n rsAccess s));
  getByRsRefresh rsRefresh :=
    storeOp (fun n s => onFst (option_map objRecord) (Memory.getByRsRefresh n rsRefresh s));
  updateByRsRefresh rsRefresh prov maybeNewRsAccess :=
    storeOp (fun n s =>
      onFst (option_map objRecord)
        (Memory.updateByRsRefresh n rsRefresh prov maybeNewRsAccess
           DEFAULT_RS_TOKEN_TTL_MS s));
  saveTransaction txnId txn ttlSeconds :=
    storeDo (fun n s => Memory.saveTransaction n txnId txn ttlSeconds s);
  getTransaction txnId := storeOp (fun n s => Memory.getTransaction n txnId s);
  deleteTransaction txnId := storeDo (fun _ s => Memory.deleteTransaction txnId s);
  saveCode code txnId ttlSeconds :=
    storeDo (fun n s => Memory.saveCode n code txnId ttlSeconds s);
  getTxnIdByCode code := storeOp (fun n s => Memory.getTxnIdByCode n code s);
  deleteCode code := storeDo (fun _ s => Memory.deleteCode code s);
}.

(** ** [KvTokenStore]

    The KV namespace holds strings: the (optionally encrypted) JSON text of a
    value.  The embedding keeps the decoded value under each key, that is, it
    takes [decrypt (encrypt x) = x] and [JSON.parse (JSON.stringify x) = x]
    for the three shapes the store writes.  A KV operation may fail
    ([kvFault]); an entry written with an [expiration] (seconds since the
    epoch) is no longer returned once that second is reached. *)

Inductive KvValue :=
| KvRs (r : RsRecord)
| KvTxn (t : Transaction.t)
| KvCode (v : string).

Record KvEntry := {
  kvValue : KvValue;
  kvExpiration : option Z;
}.

Record KvTokenStore := {
  kv : gmap string KvEntry;
  fallback : MemoryTokenStore;
}.

Module Kv.

Definition withKv (d : gmap string KvEntry) (s : KvTokenStore) : KvTokenStore :=
  {| kv := d; fallback := fallback s |}.

Definition withFallback (m : MemoryTokenStore) (s : KvTokenStore) : KvTokenStore :=
  {| kv := kv s; fallback := m |}.

Definition onFallback {A} (m : M (World MemoryTokenStore) A)
  : M (World KvTokenStore) A :=
  zoom fallback withFallback m.

(** [ttl(seconds)]: [Math.floor(Date.now() / 1000) + seconds]. *)
Definition ttl (nowMs seconds : Z) : Z := nowMs / 1000 + seconds.

Definition liveAt (nowMs : Z) (entry : KvEntry) : bool :=
  match kvExpiration entry with
  | Some t => nowMs / 1000 <? t
  | None => true
  end.

Definition kvGet (key : string) : M (World KvTokenStore) (option KvValue) :=
  fun e w =>
    match kvFault e KvGet key with
    | Some msg => Throw msg w
    | None =>
        Ok (match kv (store w) !! key with
            | Some entry =>
                if liveAt (now e) entry then Some (kvValue entry) else None
            | None => None
            end) w
    end.

Definition kvPut (key : string) (value : KvValue) (expiration : option Z)
  : M (World KvTokenStore) unit :=
  fun e w =>
    match kvFault e KvPut key with
    | Some msg => Throw msg w
    | None =>
        Ok tt (withStore
                 (withKv (<[key := {| kvValue := value; kvExpiration := expiration |}]>
                            (kv (store w)))
                         (store w))
                 w)
    end.

Definition kvDelete (key : string) : M (World KvTokenStore) unit :=
  fun e w =>
    match kvFault e KvDelete key with
    | Some msg => Throw msg w
    | None => Ok tt (withStore (withKv (delete key (kv (store w))) (store w)) w)
    end.

(** [putJson]: the failure is reported on the console and thrown again. *)
Definition putJson (key : string) (value : KvValue) (expiration : option Z)
  : M (World KvTokenStore) unit :=
  tryCatch (kvPut key value expiration) (fun err => throw err).

Definition getJson (key : string) : M (World KvTokenStore) (option KvValue) :=
  kvGet key.

(** [getJson<T>]: the value under a key, read at the type the caller expects.
    The key prefixes keep the three shapes apart, so a value of another shape
    under a key is not met; it reads as absent. *)
Definition asRs (v : option KvValue) : option RsRecord :=
  match v with Some (KvRs r) => Some r | _ => None end.

Definition asTxn (v : option KvValue) : option Transaction.t :=
  match v with Some (KvTxn t) => Some t | _ => None end.

Definition asCode (v : option KvValue) : option string :=
  match v with Some (KvCode c) => Some c | _ => None end.

Definition storeRsMapping (rsAccess : string) (prov : ProviderTokens)
    (rsRefresh : option string) : M (World KvTokenStore) RsRecord :=
  let* uuid := match rsRefresh with
               | Some _ => ret ""
               | None => drawUUID
               end in
  let* n := dateNow in
  let rec :=
    {| rs_access_token := rsAccess;
       rs_refresh_token := nullish rsRefresh uuid;
       provider := prov;
       created_at := n |} in
  let* _ := onFallback (storeRsMapping rsAccess prov rsRefresh) in
  let* _ :=
    tryCatch
      (promiseAll2
         (putJson ("rs:access:" ++ rs_access_token rec) (KvRs rec) None)
         (putJson ("rs:refresh:" ++ rs_refresh_token rec) (KvRs rec) None))
      (fun _ => ret tt) in
  ret rec.

Definition getByRsAccess (rsAccess : string)
  : M (World KvTokenStore) (option RsRecord) :=
  let* rec := getJson ("rs:access:" ++ rsAccess) in
  match asRs rec with
  | Some r => ret (Some r)
  | None => onFallback (getByRsAccess rsAccess)
  end.

Definition getByRsRefresh (rsRefresh : string)
  : M (World KvTokenStore) (option RsRecord) :=
  let* rec := getJson ("rs:refresh:" ++ rsRefresh) in
  match asRs rec with
  | Some r => ret (Some r)
  | None => onFallback (getByRsRefresh rsRefresh)
  end.

Definition updateByRsRefresh (rsRefresh : string) (prov : ProviderTokens)
    (maybeNewRsAccess : option string)
  : M (World KvTokenStore) (option RsRecord) :=
  let* existing := getJson ("rs:refresh:" ++ rsRefresh) in
  match asRs existing with
  | None => onFallback (updateByRsRefresh rsRefresh prov maybeNewRsAccess)
  | Some existing =>
      let* n := dateNow in
      let next :=
        {| rs_access_token :=
             if truthy maybeNewRsAccess then nullish maybeNewRsAccess ""
             else rs_access_token existing;
           rs_refresh_token := rsRefresh;
           provider := prov;
           created_at := n |} in
      let* _ := onFallback (updateByRsRefresh rsRefresh prov maybeNewRsAccess) in
      let* _ :=
        tryCatch
          (promiseAll2
             (kvDelete ("rs:access:" ++ rs_access_token existing))
             (promiseAll2
                (putJson ("rs:access:" ++ rs_access_token next) (KvRs next) None)
                (putJson ("rs:refresh:" ++ rsRefresh) (KvRs next) None)))
          (fun _ => ret tt) in
      ret (Some next)
  end.

Definition saveTransaction (txnId : string) (txn : Transaction.t)
    (ttlSeconds : option Z) : M (World KvTokenStore) unit :=
  let* _ := onFallback (saveTransaction txnId txn None) in
  let* n := dateNow in
  tryCatch
    (putJson ("txn:" ++ txnId) (KvTxn txn) (Some (ttl n (nullish ttlSeconds 600))))
    (fun _ => ret tt).

Definition getTransaction (txnId : string)
  : M (World KvTokenStore) (option Transaction.t) :=
  let* txn := getJson ("txn:" ++ txnId) in
  match asTxn txn with
  | Some t => ret (Some t)
  | None => onFallback (getTransaction txnId)
  end.

Definition deleteTransaction (txnId : string) : M (World KvTokenStore) unit :=
  let* _ := kvDelete ("txn:" ++ txnId) in
  onFallback (deleteTransaction txnId).

Definition saveCode (code : string) (txnId : string) (ttlSeconds : option Z)
  : M (World KvTokenStore) unit :=
  let* _ := onFallback (saveCode code txnId None) in
  let* n := dateNow in
  tryCatch
    (putJson ("code:" ++ code) (KvCode txnId) (Some (ttl n (nullish ttlSeconds 600))))
    (fun _ => ret tt).

Definition getTxnIdByCode (code : string) : M (World KvTokenStore) (option string) :=
  let* obj := getJson ("code:" ++ code) in
  match asCode obj with
  | Some v => ret (Some v)
  | None => onFallback (getTxnIdByCode code)
  end.

Definition deleteCode (code : string) : M (World KvTokenStore) unit :=
  let* _ := kvDelete ("code:" ++ code) in
  onFallback (deleteCode code).

End Kv.

#[export] Instance KvTokenStore_TokenStore : TokenStore KvTokenStore := {
  storeRsMapping := Kv.storeRsMapping;
  getByRsAccess := Kv.getByRsAccess;
  getByRsRefresh := Kv.getByRsRefresh;
  updateByRsRefresh := Kv.updateByRsRefresh;
  saveTransaction := Kv.saveTransaction;
  getTransaction := Kv.getTransaction;
  deleteTransaction := Kv.deleteTransaction;
  saveCode := Kv.saveCode;
  getTxnIdByCode := Kv.getTxnIdByCode;
  deleteCode := Kv.deleteCode;
}.

(** ** Reading the provider's token response *)

Definition isSpace (c : ascii) : bool :=
  match N_of_ascii c with
  | 9%N | 10%N | 11%N | 12%N | 13%N | 32%N => true
  | _ => false
  end.

(** [s.split(/\s+/).filter(Boolean)] for ASCII white space. *)
Fixpoint splitWords (cur : string) (s : string) : list string :=
  match s with
  | EmptyString => if String.eqb cur "" then [] else [cur]
  | String c s' =>
      if isSpace c
      then (if String.eqb cur "" then splitWords "" s'
            else cur :: splitWords "" s')
      else splitWords (cur ++ String c EmptyString) s'
  end.

(** [x || ''] on an optional string. *)
Definition orEmpty (o : option string) : string :=
  if truthy o then nullish o "" else "".

(** The [ProviderTokens] both refresh helpers build from a response body
    whose access token is [accessToken]. *)
Definition tokensOfResponse (nowMs : Z) (accessToken : string)
    (sentRefreshToken : string) (data : TokenData) : ProviderTokens :=
  {| access_token := accessToken;
     refresh_token := Some (nullish (data_refresh_token data) sentRefreshToken);
     expires_at := Some (nowMs + nullish (data_expires_in data) 3600 * 1000);
     scopes := Some (splitWords "" (orEmpty (data_scope data))) |}.

(** ** The token endpoint ([handleToken]) *)

Inductive TokenInput :=
| AuthorizationCode (code : string) (codeVerifier : string)
| RefreshToken (refreshToken : string).

Module TokenResult.
Record t := {
  access_token : string;
  refresh_token : string;
  token_type : string;
  expires_in : Z;
  scope : string;
}.
End TokenResult.

(** [!!txn.provider?.access_token]. *)
Definition hasProviderToken (txn : Transaction.t) : bool :=
  match Transaction.provider txn with
  | Some p => negb (String.eqb (access_token p) "")
  | None => false
  end.

Module Flow.

Record ProviderConfig := {
  clientId : option string;
  clientSecret : option string;
  accountsUrl : string;
  tokenUrl : option string;
}.

Section WithStore.
Context {S : Type} `{TokenStore S} {platform : Platform}.

(** What [refreshProviderToken] of the flow module prepares before it calls
    [fetch]: the token URL and the [Basic] credentials.  The result is the
    URL, or the error thrown on the way. *)
Definition tokenRequest (providerConfig : ProviderConfig) : Attempt string :=
  match (if truthy (tokenUrl providerConfig)
         then newURL (nullish (tokenUrl providerConfig) "") None
         else newURL "/api/token" (Some (accountsUrl providerConfig))) with
  | Raised message => Raised message
  | Done url =>
      match base64Encode (template (clientId providerConfig) ++ ":"
                          ++ template (clientSecret providerConfig)) with
      | Raised message => Raised message
      | Done _ => Done url
      end
  end.

(** [refreshProviderToken] of the flow module: failures are thrown. *)
Definition refreshProviderToken (providerRefreshToken : string)
    (providerConfig : ProviderConfig) : M (World S) ProviderTokens :=
  let* _ := attempt (tokenRequest providerConfig) in
  let* resp := fetchToken providerRefreshToken in
  match resp with
  | FetchRejects message => throw message
  | HttpError _ _ => throw "provider_refresh_failed"
  | HttpOk data =>
      let accessToken := orEmpty (data_access_token data) in
      if String.eqb accessToken "" then throw "provider_no_token"
      else
        let* n := dateNow in
        ret (tokensOfResponse n accessToken providerRefreshToken data)
  end.

(** [now >= (rec.provider.expires_at ?? 0) - 60_000]. *)
Definition isExpiringSoon (nowMs : Z) (rec : RsRecord) : bool :=
  let providerExpiresAt := nullish (expires_at (provider rec)) 0 in
  nowMs >=? providerExpiresAt - 60000.

Definition handleToken (input : TokenInput)
    (providerConfig : option ProviderConfig) : M (World S) TokenResult.t :=
  match input with
  | RefreshToken refreshToken =>
      let* rec := getByRsRefresh refreshToken in
      match rec with
      | None => throw "invalid_grant"
      | Some rec =>
          let* n := dateNow in
          let* prov :=
            match isExpiringSoon n rec, providerConfig with
            | true, Some cfg =>
                if negb (truthy (refresh_token (provider rec)))
                then throw "provider_token_expired"
                else
                  tryCatch
                    (refreshProviderToken
                       (nullish (refresh_token (provider rec)) "") cfg)
                    (fun _ => throw "provider_refresh_failed")
            | _, _ => ret (provider rec)
            end in
          let* newAccess := generateOpaqueToken 24 in
          let* updated :=
            updateByRsRefresh refreshToken prov (Some newAccess) in
          let* n' := dateNow in
          let expiresIn :=
            if truthyZ (expires_at prov)
            then Z.max 1 ((nullish (expires_at prov) 0 - n') / 1000)
            else 3600 in
          ret {| TokenResult.access_token := newAccess;
                 TokenResult.refresh_token := refreshToken;
                 TokenResult.token_type := "bearer";
                 TokenResult.expires_in := expiresIn;
                 TokenResult.scope :=
                   joinSpace
                     (match updated with
                      | Some u => nullish (scopes (provider u)) []
                      | None => []
                      end) |}
      end
  | AuthorizationCode code codeVerifier =>
      let* txnId := getTxnIdByCode code in
      if negb (truthy txnId) then throw "invalid_grant"
      else
        let txnId := nullish txnId "" in
        let* txn := getTransaction txnId in
        match txn with
        | None => throw "invalid_grant"
        | Some txn =>
            let expected := Transaction.codeChallenge txn in
            let actual := sha256B64UrlAsync codeVerifier in
            if negb (String.eqb expected actual) then throw "invalid_grant"
            else
              let* rsAccess := generateOpaqueToken 24 in
              let* rsRefresh := generateOpaqueToken 24 in
              let* _ :=
                match Transaction.provider txn with
                | Some p =>
                    if hasProviderToken txn
                    then
                      let* _ := storeRsMapping rsAccess p (Some rsRefresh) in
                      ret tt
                    else ret tt
                | None => ret tt
                end in
              let* _ := deleteTransaction txnId in
              let* _ := deleteCode code in
              let providerScope :=
                joinSpace
                  (match Transaction.provider txn with
                   | Some p => nullish (scopes p) []
                   | None => []
                   end) in
              ret {| TokenResult.access_token := rsAccess;
                     TokenResult.refresh_token := rsRefresh;
                     TokenResult.token_type := "bearer";
                     TokenResult.expires_in := 3600;
                     TokenResult.scope :=
                       if negb (String.eqb providerScope "") then providerScope
                       else orEmpty (Transaction.scope txn) |}
        end
  end.

End WithStore.

End Flow.

(** ** The refresh controller ([ensureFreshToken]) *)

Module Refresh.

Record ProviderRefreshConfig := {
  clientId : string;
  clientSecret : string;
  accountsUrl : string;
  tokenUrl : option string;
  tokenEndpointPath : option string;
}.

(** The [error] of a [RefreshResult].  The source renders it as text:
    [`Network error: ${message}`],
    [`Provider returned ${status}: ${text.substring(0, 100)}`] or
    ['No access_token in provider response']; here the parts are kept, the
    text of the response as its first 100 UTF-16 code units. *)
Inductive RefreshError :=
| NetworkError (message : string)
| ProviderReturned (status : Z) (text : list Z)
| NoAccessToken.

Record RefreshResult := {
  success : bool;
  tokens : option ProviderTokens;
  error : option RefreshError;
}.

Record FreshToken := {
  accessToken : string;
  wasRefreshed : bool;
}.

Definition EXPIRY_BUFFER_MS : Z := 60000.
Definition REFRESH_COOLDOWN_MS : Z := 30000.

Definition isTokenExpiredOrExpiring (nowMs : Z) (expiresAt : option Z)
    (bufferMs : Z) : bool :=
  if negb (truthyZ expiresAt) then false
  else nowMs >=? nullish expiresAt 0 - bufferMs.

Definition withRecentlyRefreshed {S} (m : JsMap.t Z) (w : World S) : World S :=
  {| store := store w; recentlyRefreshed := m;
     drawn := drawn w; fetches := fetches w |}.

(** The test of [shouldSkipRefresh]: a mark exists (and is not [0]) and is
    less than the cooldown old. *)
Definition inCooldown (nowMs : Z) (marks : JsMap.t Z) (rsToken : string) : bool :=
  truthyZ (JsMap.get rsToken marks)
  && (nowMs - nullish (JsMap.get rsToken marks) 0 <? REFRESH_COOLDOWN_MS).

Definition shouldSkipRefresh {S} (rsToken : string) : M (World S) bool :=
  fun e w => Ok (inCooldown (now e) (recentlyRefreshed w) rsToken) w.

(** The throttle map that [markRefreshed] leaves: the token is marked, and
    once the map holds more than 1000 marks those older than the cooldown
    are dropped. *)
Definition markedAt (nowMs : Z) (rsToken : string) (marks : JsMap.t Z) : JsMap.t Z :=
  if JsMap.size (JsMap.set rsToken nowMs marks) >? 1000
  then JsMap.retain
         (fun timestamp => negb (nowMs - timestamp >? REFRESH_COOLDOWN_MS))
         (JsMap.set rsToken nowMs marks)
  else JsMap.set rsToken nowMs marks.

Definition markRefreshed {S} (rsToken : string) : M (World S) unit :=
  fun e w =>
    Ok tt (withRecentlyRefreshed (markedAt (now e) rsToken (recentlyRefreshed w)) w).

Section WithStore.
Context {S : Type} `{TokenStore S} {platform : Platform}.

(** What [refreshProviderToken] of the refresh module prepares before its
    [try]: the token URL, which is [config.tokenUrl] as it stands when that
    is set and is built with [new URL] otherwise, and the [Basic]
    credentials.  The result is the URL, or the error thrown on the way. *)
Definition tokenRequest (config : ProviderRefreshConfig) : Attempt string :=
  match (if truthy (tokenUrl config)
         then Done (nullish (tokenUrl config) "")
         else newURL (if truthy (tokenEndpointPath config)
                      then nullish (tokenEndpointPath config) ""
                      else "/api/token")
                     (Some (accountsUrl config))) with
  | Raised message => Raised message
  | Done url =>
      match base64Encode (clientId config ++ ":" ++ clientSecret config) with
      | Raised message => Raised message
      | Done _ => Done url
      end
  end.

(** [refreshProviderToken] of the refresh module: what happens from the
    [fetch] on is returned as an unsuccessful [RefreshResult]; what is
    thrown before it is thrown. *)
Definition refreshProviderToken (refreshToken : string)
    (config : ProviderRefreshConfig) : M (World S) RefreshResult :=
  let* _ := attempt (tokenRequest config) in
  let* resp := fetchToken refreshToken in
  match resp with
  | FetchRejects message =>
      ret {| success := false; tokens := None;
             error := Some (NetworkError message) |}
  | HttpError status text =>
      ret {| success := false; tokens := None;
             error := Some (ProviderReturned status (firstn 100 text)) |}
  | HttpOk data =>
      let accessToken := orEmpty (data_access_token data) in
      if String.eqb accessToken ""
      then ret {| success := false; tokens := None;
                  error := Some NoAccessToken |}
      else
        let* n := dateNow in
        ret {| success := true;
               tokens := Some (tokensOfResponse n accessToken refreshToken data);
               error := None |}
  end.

(** [a !== b] on optional strings. *)
Definition differs (a b : option string) : bool :=
  match a, b with
  | Some x, Some y => negb (String.eqb x y)
  | None, None => false
  | _, _ => true
  end.

Definition ensureFreshToken (rsAccessToken : string)
    (providerConfig : option ProviderRefreshConfig)
  : M (World S) FreshToken :=
  let* record := getByRsAccess rsAccessToken in
  match record with
  | None => ret {| accessToken := ""; wasRefreshed := false |}
  | Some record =>
      let stale :=
        {| accessToken := access_token (provider record);
           wasRefreshed := false |} in
      if String.eqb (access_token (provider record)) ""
      then ret {| accessToken := ""; wasRefreshed := false |}
      else
        let* n := dateNow in
        if negb (isTokenExpiredOrExpiring n (expires_at (provider record))
                   EXPIRY_BUFFER_MS)
        then ret stale
        else
          let* skip := shouldSkipRefresh rsAccessToken in
          if skip then ret stale
          else if negb (truthy (refresh_token (provider record)))
          then ret stale
          else
            match providerConfig with
            | None => ret stale
            | Some config =>
                let* result :=
                  refreshProviderToken
                    (nullish (refresh_token (provider record)) "") config in
                match success result, tokens result with
                | true, Some newTokens =>
                    let providerRefreshRotated :=
                      differs (refresh_token newTokens)
                              (refresh_token (provider record)) in
                    let newRsAccess :=
                      if providerRefreshRotated then None
                      else Some (rs_access_token record) in
                    let refreshed :=
                      {| accessToken := access_token newTokens;
                         wasRefreshed := true |} in
                    tryCatch
                      (let* _ :=
                         updateByRsRefresh (rs_refresh_token record)
                           newTokens newRsAccess in
                       let* _ := markRefreshed rsAccessToken in
                       ret refreshed)
                      (fun _ => ret refreshed)
                | _, _ => ret stale
                end
            end
  end.

End WithStore.

End Refresh.

(** ** Vocabulary of the statements *)

(** The world in which a computation ends, whether it returns or throws. *)
Definition outcomeWorld {W A} (r : Res W A) : W :=
  match r with
  | Ok _ w => w
  | Throw _ w => w
  end.

(** The code resolves, at the instant of the request, to a transaction that
    is still live. *)
Definition resolves (e : Env) (w : World MemoryTokenStore)
    (code txnId : string) (txn : Transaction.t) : Prop :=
  fst (Memory.getTxnIdByCode (now e) code (store w)) = Some txnId
  /\ txnId <> ""
  /\ fst (Memory.getTransaction (now e) txnId (store w)) = Some txn.

(** The world after one more POST to the provider's token endpoint. *)
Definition withFetch {S : Type} (rt : string) (w : World S) : World S :=
  {| store := store w; recentlyRefreshed := recentlyRefreshed w;
     drawn := drawn w; fetches := rt :: fetches w |}.

(** The conditions under which [ensureFreshToken] turns to the provider: the
    RS token resolves to a live record whose provider access token is set and
    within the expiry buffer, the token is not in its cooldown, and the
    record holds a provider refresh token. *)
Record refreshDue (e : Env) (w : World MemoryTokenStore) (rsToken : string)
    (l : nat) (entry : RsEntry) (rt : string) : Prop := {
  due_live :
    Memory.getByRsAccess (now e) rsToken (store w) = (Some (l, entry), store w);
  due_token : access_token (provider (rsRecord entry)) <> "";
  due_expiring :
    Refresh.isTokenExpiredOrExpiring (now e)
      (expires_at (provider (rsRecord entry))) Refresh.EXPIRY_BUFFER_MS = true;
  due_no_cooldown : Refresh.inCooldown (now e) (recentlyRefreshed w) rsToken = false;
  due_refresh_token : refresh_token (provider (rsRecord entry)) = Some rt;
  due_rt_set : rt <> "";
}.

(** What [ensureFreshToken] returns when it does not refresh. *)
Definition staleResult (entry : RsEntry) : Refresh.FreshToken :=
  {| Refresh.accessToken := access_token (provider (rsRecord entry));
     Refresh.wasRefreshed := false |}.

(** The value the in-memory store draws for its own [crypto.randomUUID()],
    which it does only when no refresh token is supplied, and the number of
    draws made once it has. *)
Definition uuidFor (e : Env) (rsRefresh : option string) (k : nat) : string :=
  match rsRefresh with
  | Some _ => ""
  | None => randomUUID e k
  end.

Definition drawnAfter (rsRefresh : option string) (k : nat) : nat :=
  match rsRefresh with
  | Some _ => k
  | None => Datatypes.S k
  end.

(** ** Concrete scenarios

    Small worlds on which the operations are run: one stored mapping whose
    provider token is about to expire, a pending authorization (with and
    without provider tokens), a store at capacity, and a KV namespace whose
    writes fail. *)

Module Scenario.

Definition t0 : Z := 1700000000000.

Definition okEndpoint (reply : TokenData) : string -> FetchReply :=
  fun _ => HttpOk reply.

Definition downEndpoint : string -> FetchReply :=
  fun _ => HttpError 503 (utf8Bytes "unavailable").

(** A platform for the scenarios.  Its [new URL] takes the absolute https
    URLs of the scenarios as they are, resolves a path against such a base
    by appending it, and throws on anything else; its [base64Encode] is
    that of [Buffer], which never throws.  On the texts of the scenarios
    that is what Node.js does. *)
Definition absoluteHttps (url : string) : bool :=
  String.prefix "https://" url.

Fixpoint mapChars (f : ascii -> ascii) (s : string) : string :=
  match s with
  | EmptyString => EmptyString
  | String c rest => String (f c) (mapChars f rest)
  end.

Definition standardChar (c : ascii) : ascii :=
  if Ascii.eqb c "-" then "+"%char
  else if Ascii.eqb c "_" then "/"%char
  else c.

(** Base64 with the standard alphabet and padding. *)
Definition base64Standard (bytes : list Z) : string :=
  let text := mapChars standardChar (base64UrlEncode bytes) in
  text ++ string_of_list_ascii
            (repeat "="%char ((4 - String.length text mod 4) mod 4)%nat).

#[export] Instance scenarioPlatform : Platform := {
  newURL input base :=
    match base with
    | None =>
        if absoluteHttps input then Done input else Raised "Invalid URL"
    | Some b =>
        if absoluteHttps b then Done (b ++ input) else Raised "Invalid URL"
    end;
  base64Encode input := Done (base64Standard (utf8Bytes input));
}.

Definition envAt (nowMs : Z) (endpoint : string -> FetchReply) : Env :=
  {| now := nowMs;
     randomBytes := fun k n => repeat (Z.of_nat k + 1) n;
     randomUUID := fun k => "uuid-" ++ pretty k;
     tokenEndpoint := endpoint;
     kvFault := fun _ _ => None |}.

Definition config : Refresh.ProviderRefreshConfig :=
  {| Refresh.clientId := "client";
     Refresh.clientSecret := "secret";
     Refresh.accountsUrl := "https://accounts.example";
     Refresh.tokenUrl := Some "https://accounts.example/token";
     Refresh.tokenEndpointPath := None |}.

Definition flowConfig : Flow.ProviderConfig :=
  {| Flow.clientId := Some "client";
     Flow.clientSecret := Some "secret";
     Flow.accountsUrl := "https://accounts.example";
     Flow.tokenUrl := Some "https://accounts.example/token" |}.

Definition worldOf {S : Type} (s : S) : World S :=
  {| store := s; recentlyRefreshed := []; drawn := 0; fetches := [] |}.

(** One mapping, written a second before [t0], whose provider token
    expires thirty seconds after [t0]. *)
Definition expiringTokens : ProviderTokens :=
  {| access_token := "AT1";
     refresh_token := Some "RT1";
     expires_at := Some (t0 + 30000);
     scopes := Some ["calendar"] |}.

Definition expiringEntry : RsEntry :=
  {| rsRecord :=
       {| rs_access_token := "A1"; rs_refresh_token := "R1";
          provider := expiringTokens; created_at := t0 - 1000 |};
     expiresAt := t0 - 1000 + DEFAULT_RS_TOKEN_TTL_MS |}.

Definition oneMapping : MemoryTokenStore :=
  snd (Memory.storeRsMapping (t0 - 1000) "" "A1" expiringTokens (Some "R1")
         DEFAULT_RS_TOKEN_TTL_MS Memory.empty).

(** The provider answers with a new refresh token ... *)
Definition rotatedReply : TokenData :=
  {| data_access_token := Some "AT2";
     data_refresh_token := Some "RT2";
     data_expires_in := Some 3600;
     data_scope := Some "calendar" |}.

(** ... or with a token that is itself short-lived. *)
Definition shortLivedReply : TokenData :=
  {| data_access_token := Some "AT2";
     data_refresh_token := None;
     data_expires_in := Some 30;
     data_scope := Some "calendar" |}.

(** The same mapping, with provider tokens that carry no expiry. *)
Definition undatedTokens : ProviderTokens :=
  {| access_token := "AT1";
     refresh_token := Some "RT1";
     expires_at := None;
     scopes := Some ["calendar"] |}.

Definition undatedEntry : RsEntry :=
  {| rsRecord :=
       {| rs_access_token := "A1"; rs_refresh_token := "R1";
          provider := undatedTokens; created_at := t0 - 1000 |};
     expiresAt := t0 - 1000 + DEFAULT_RS_TOKEN_TTL_MS |}.

Definition undatedMapping : MemoryTokenStore :=
  snd (Memory.storeRsMapping (t0 - 1000) "" "A1" undatedTokens (Some "R1")
         DEFAULT_RS_TOKEN_TTL_MS Memory.empty).

(** A pending authorization: the verifier and challenge of RFC 7636. *)
Definition verifier : string := "dBjftJeZ4CVP-mB92K27uhbUJU1p1r_wW1gFWFOEjXk".
Definition challenge : string := "E9Melhoa2OwvFrEMTJguCHaoeK1t8URWbuGJSstw-cM".

Definition callbackTokens : ProviderTokens :=
  {| access_token := "AT1";
     refresh_token := Some "RT1";
     expires_at := Some (t0 + 3600000);
     scopes := Some ["calendar"] |}.

Definition pendingTxn (prov : option ProviderTokens) : Transaction.t :=
  {| Transaction.codeChallenge := challenge;
     Transaction.state := Some "caller-state";
     Transaction.scope := Some "calendar";
     Transaction.createdAt := t0 - 5000;
     Transaction.sid := None;
     Transaction.provider := prov |}.

Definition pending (prov : option ProviderTokens) : MemoryTokenStore :=
  Memory.saveCode (t0 - 4000) "code-1" "txn-1" None
    (Memory.saveTransaction (t0 - 5000) "txn-1" (pendingTxn prov) None
       Memory.empty).

(** A store at capacity: [MAX_RS_RECORDS] mappings, the i-th created at
    instant [i]. *)
Definition nthEntry (i : nat) : RsEntry :=
  {| rsRecord :=
       {| rs_access_token := "a" ++ pretty i;
          rs_refresh_token := "r" ++ pretty i;
          provider := callbackTokens;
          created_at := Z.of_nat i |};
     expiresAt := t0 + DEFAULT_RS_TOKEN_TTL_MS |}.

Definition fullStore : MemoryTokenStore :=
  {| heap := map nthEntry (seq 0 (Z.to_nat MAX_RS_RECORDS));
     rsAccessMap :=
       map (fun i => ("a" ++ pretty i, i)) (seq 0 (Z.to_nat MAX_RS_RECORDS));
     rsRefreshMap :=
       map (fun i => ("r" ++ pretty i, i)) (seq 0 (Z.to_nat MAX_RS_RECORDS));
     transactions := [];
     codes := [] |}.

(** A KV namespace, empty, on which every write fails. *)
Definition quotaEnv (nowMs : Z) : Env :=
  {| now := nowMs;
     randomBytes := fun k n => repeat (Z.of_nat k + 1) n;
     randomUUID := fun k => "uuid-" ++ pretty k;
     tokenEndpoint := downEndpoint;
     kvFault := fun op _ =>
                  match op with
                  | KvPut => Some "KV put() limit exceeded for the day"
                  | _ => None
                  end |}.

Definition emptyKv : KvTokenStore := {| kv := ∅; fallback := Memory.empty |}.

(** The runs the scenarios start from. *)
Definition exchangeEnv : Env := envAt t0 downEndpoint.

Definition redeemed : Res (World MemoryTokenStore) TokenResult.t :=
  Flow.handleToken (AuthorizationCode "code-1" verifier) (Some flowConfig)
    exchangeEnv (worldOf (pending (Some callbackTokens))).

Definition redeemedResult : TokenResult.t :=
  {| TokenResult.access_token := base64UrlEncode (repeat 1 24);
     TokenResult.refresh_token := base64UrlEncode (repeat 2 24);
     TokenResult.token_type := "bearer";
     TokenResult.expires_in := 3600;
     TokenResult.scope := "calendar" |}.

Definition refreshEnv (reply : TokenData) : Env := envAt t0 (okEndpoint reply).

Definition refreshedOnce : Res (World MemoryTokenStore) Refresh.FreshToken :=
  Refresh.ensureFreshToken "A1" (Some config) (refreshEnv shortLivedReply)
    (worldOf oneMapping).

Definition refreshFailed : Res (World MemoryTokenStore) Refresh.FreshToken :=
  Refresh.ensureFreshToken "A1" (Some config) (envAt t0 downEndpoint)
    (worldOf oneMapping).

End Scenario.

(** ** More vocabulary: the states the in-memory store can reach *)

(** A [Map] holds a key once. *)
Definition uniqueKeys {V : Type} (m : JsMap.t V) : Prop := List.NoDup (List.map fst m).

(** Every key of an index of record objects is the token, as [field] reads
    it, of the object it refers to. *)
Definition agrees (field : RsRecord -> string) (h : list RsEntry)
    (m : JsMap.t nat) : Prop :=
  forall k l, In (k, l) m ->
    exists entry, h !! l = Some entry /\ field (rsRecord entry) = k.

Record consistent (s : MemoryTokenStore) : Prop := {
  access_unique : uniqueKeys (rsAccessMap s);
  refresh_unique : uniqueKeys (rsRefreshMap s);
  transactions_unique : uniqueKeys (transactions s);
  codes_unique : uniqueKeys (codes s);
  access_agrees : agrees rs_access_token (heap s) (rsAccessMap s);
  refresh_agrees : agrees rs_refresh_token (heap s) (rsRefreshMap s);
}.

(** A call of one of the public methods of [MemoryTokenStore], with the
    clock reading (and, for [storeRsMapping], the UUID) it is made at. *)
Inductive MemoryCall :=
| CallStoreRsMapping (nowMs : Z) (uuid rsAccess : string) (prov : ProviderTokens)
    (rsRefresh : option string) (ttlMs : Z)
| CallGetByRsAccess (nowMs : Z) (rsAccess : string)
| CallGetByRsRefresh (nowMs : Z) (rsRefresh : string)
| CallUpdateByRsRefresh (nowMs : Z) (rsRefresh : string) (prov : ProviderTokens)
    (maybeNewRsAccess : option string) (ttlMs : Z)
| CallSaveTransaction (nowMs : Z) (txnId : string) (txn : Transaction.t)
    (ttlSeconds : option Z)
| CallGetTransaction (nowMs : Z) (txnId : string)
| CallDeleteTransaction (txnId : string)
| CallSaveCode (nowMs : Z) (code txnId : string) (ttlSeconds : option Z)
| CallGetTxnIdByCode (nowMs : Z) (code : string)
| CallDeleteCode (code : string)
| CallCleanup (nowMs : Z).

(** The store a call leaves behind. *)
Definition afterCall (s : MemoryTokenStore) (c : MemoryCall) : MemoryTokenStore :=
  match c with
  | CallStoreRsMapping nowMs uuid rsAccess prov rsRefresh ttlMs =>
      snd (Memory.storeRsMapping nowMs uuid rsAccess prov rsRefresh ttlMs s)
  | CallGetByRsAccess nowMs rsAccess => snd (Memory.getByRsAccess nowMs rsAccess s)
  | CallGetByRsRefresh nowMs rsRefresh => snd (Memory.getByRsRefresh nowMs rsRefresh s)
  | CallUpdateByRsRefresh nowMs rsRefresh prov maybeNewRsAccess ttlMs =>
      snd (Memory.updateByRsRefresh nowMs rsRefresh prov maybeNewRsAccess ttlMs s)
  | CallSaveTransaction nowMs txnId txn ttlSeconds =>
      Memory.saveTransaction nowMs txnId txn ttlSeconds s
  | CallGetTransaction nowMs txnId => snd (Memory.getTransaction nowMs txnId s)
  | CallDeleteTransaction txnId => Memory.deleteTransaction txnId s
  | CallSaveCode nowMs code txnId ttlSeconds =>
      Memory.saveCode nowMs code txnId ttlSeconds s
  | CallGetTxnIdByCode nowMs code => snd (Memory.getTxnIdByCode nowMs code s)
  | CallDeleteCode code => Memory.deleteCode code s
  | CallCleanup nowMs => snd (Memory.cleanup nowMs s)
  end.

(** The store after a history of calls on a new [MemoryTokenStore]. *)
Definition afterCalls (history : list MemoryCall) : MemoryTokenStore :=
  fold_left afterCall history Memory.empty.

(** The transactions are within the store's bound. *)
Definition withinCapacity (s : MemoryTokenStore) : Prop :=
  uniqueKeys (transactions s) /\ JsMap.size (transactions s) <= MAX_TRANSACTIONS.

(** A computation that changes the store only through the store's methods. *)
Definition viaCalls {A} (m : M (World MemoryTokenStore) A) : Prop :=
  forall e w, exists history,
    store (outcomeWorld (m e w)) = fold_left afterCall history (store w).

(** ** Decoding base64url

    [base64UrlDecode]: the inverse reading of RFC 4648 section 5, which
    [Buffer.from(str, 'base64url')] and the Web fallback ([atob] after
    restoring [+], [/] and the padding) both compute on text that
    [base64UrlEncode] can produce.  Other text, on which the two platforms
    differ, has no reading here. *)

Fixpoint b64urlIndexFrom (c : ascii) (alphabet : string) (i : Z) : option Z :=
  match alphabet with
  | EmptyString => None
  | String a rest => if Ascii.eqb a c then Some i else b64urlIndexFrom c rest (i + 1)
  end.

Definition b64urlIndex (c : ascii) : option Z := b64urlIndexFrom c b64urlAlphabet 0.

Fixpoint sextets (str : string) : option (list Z) :=
  match str with
  | EmptyString => Some []
  | String c rest =>
      match b64urlIndex c, sextets rest with
      | Some i, Some l => Some (i :: l)
      | _, _ => None
      end
  end.

Fixpoint bytesOfSextets (l : list Z) : option (list Z) :=
  match l with
  | [] => Some []
  | [_] => None
  | [s1; s2] => Some [Z.lor (Z.shiftl s1 2) (Z.shiftr s2 4)]
  | [s1; s2; s3] =>
      Some [Z.lor (Z.shiftl s1 2) (Z.shiftr s2 4);
            Z.lor (Z.shiftl (Z.land s2 15) 4) (Z.shiftr s3 2)]
  | s1 :: s2 :: s3 :: s4 :: rest =>
      match bytesOfSextets rest with
      | Some bytes =>
          Some (Z.lor (Z.shiftl s1 2) (Z.shiftr s2 4)
                :: Z.lor (Z.shiftl (Z.land s2 15) 4) (Z.shiftr s3 2)
                :: Z.lor (Z.shiftl (Z.land s3 3) 6) s4
                :: bytes)
      | None => None
      end
  end.

Definition base64UrlDecode (str : string) : option (list Z) :=
  match sextets str with
  | Some l => bytesOfSextets l
  | None => None
  end.

(** A list of byte values. *)
Definition isBytes (bytes : list Z) : Prop := Forall (fun b => 0 <= b < 256) bytes.

(** The characters of base64url text: letters, digits, [-] and [_]. *)
Definition isUrlSafe (c : ascii) : bool :=
  let n := N_of_ascii c in
  ((65 <=? n) && (n <=? 90) || (97 <=? n) && (n <=? 122)
   || (48 <=? n) && (n <=? 57) || (n =? 45) || (n =? 95))%N.

(** ** [MemorySessionStore]

    A [SessionRecord] has a creation time; what else it carries is of no
    concern to the store and is kept as one value of a type [Meta], with
    [noMeta] for a record that has only its creation time. *)

Definition DEFAULT_SESSION_TTL_MS : Z := 24 * 60 * 60 * 1000.
Definition MAX_SESSIONS : Z := 10000.

Module Session.

Section WithMeta.
Context {Meta : Type} (noMeta : Meta).

Record SessionRecord := {
  created_at : Z;
  meta : Meta;
}.

(** [SessionRecord & { expiresAt: number }]. *)
Record Entry := {
  record : SessionRecord;
  expiresAt : Z;
}.

Definition createdOf (entry : Entry) : Z := created_at (record entry).

(** [cleanup()], returning the number of sessions removed. *)
Definition cleanup (now : Z) (sessions : JsMap.t Entry) : Z * JsMap.t Entry :=
  let kept := JsMap.retain (fun entry => negb (now >=? expiresAt entry)) sessions in
  (JsMap.size sessions - JsMap.size kept, kept).

Definition ensure (now : Z) (sessionId : string) (ttlMs : Z)
    (sessions : JsMap.t Entry) : JsMap.t Entry :=
  match JsMap.get sessionId sessions with
  | Some existing =>
      JsMap.set sessionId
        {| record := record existing; expiresAt := now + ttlMs |} sessions
  | None =>
      let room :=
        if JsMap.size sessions >=? MAX_SESSIONS
        then match sortByCreated createdOf sessions with
             | oldest :: _ => JsMap.delete (fst oldest) sessions
             | [] => sessions
             end
        else sessions in
      JsMap.set sessionId
        {| record := {| created_at := now; meta := noMeta |};
           expiresAt := now + ttlMs |}
        room
  end.

Definition get (now : Z) (sessionId : string) (sessions : JsMap.t Entry)
  : option Entry * JsMap.t Entry :=
  match JsMap.get sessionId sessions with
  | None => (None, sessions)
  | Some session =>
      if now >=? expiresAt session
      then (None, JsMap.delete sessionId sessions)
      else (Some session, sessions)
  end.

Definition put (now : Z) (sessionId : string) (value : SessionRecord) (ttlMs : Z)
    (sessions : JsMap.t Entry) : JsMap.t Entry :=
  JsMap.set sessionId {| record := value; expiresAt := now + ttlMs |} sessions.

Definition delete (sessionId : string) (sessions : JsMap.t Entry) : JsMap.t Entry :=
  JsMap.delete sessionId sessions.

End WithMeta.

Arguments SessionRecord : clear implicits.
Arguments Entry : clear implicits.

End Session.

(** ** [FileTokenStore]: what is written and what is read back

    The file store keeps a [MemoryTokenStore] and persists its records.  The
    file holds the JSON text of a [PersistShape], encrypted when a key is
    configured; the embedding takes the text to come back as written
    ([JSON.parse] of [JSON.stringify], [decrypt] of [encrypt]) and models the
    list of records in it. *)

Module File.

(** [Array.from(rsAccessMap.values())], as [saveImmediate] collects it. *)
Definition records (s : MemoryTokenStore) : list RsRecord :=
  omap (fun kl => option_map rsRecord (heap s !! snd kl)) (rsAccessMap s).

(** The filter of [load]: records whose provider token has expired are
    skipped. *)
Definition unexpired (now : Z) (rec : RsRecord) : bool :=
  negb (truthyZ (expires_at (provider rec))
        && (now >=? nullish (expires_at (provider rec)) 0)).

(** [recordWithExpiry]. *)
Definition withExpiry (now : Z) (rec : RsRecord) : RsEntry :=
  {| rsRecord := rec;
     expiresAt := nullish (expires_at (provider rec))
                    (now + 7 * 24 * 60 * 60 * 1000) |}.

(** One turn of the loop that populates the two maps. *)
Definition populate (now : Z) (s : MemoryTokenStore) (rec : RsRecord)
  : MemoryTokenStore :=
  let l := length (heap s) in
  Memory.withRefresh
    (JsMap.set (rs_refresh_token rec) l (rsRefreshMap s))
    (Memory.withAccess
       (JsMap.set (rs_access_token rec) l (rsAccessMap s))
       (Memory.withHeap (heap s ++ [withExpiry now rec]) s)).

(** [load()] of a file that holds [persisted], into a new store. *)
Definition load (now : Z) (persisted : list RsRecord) : MemoryTokenStore :=
  fold_left (populate now) (List.filter (unexpired now) persisted) Memory.empty.

(** The record of a list that carries an access token. *)
Definition byAccess (k : string) (rec : RsRecord) : bool :=
  String.eqb (rs_access_token rec) k.

End File.

(** ** More vocabulary: the refresh-token grant *)

(** The provider's answer carries a usable access token. *)
Definition replyUsable (reply : FetchReply) : bool :=
  match reply with
  | HttpOk data => negb (String.eqb (orEmpty (data_access_token data)) "")
  | _ => false
  end.

(** The provider tokens a usable answer yields. *)
Definition replyTokens (nowMs : Z) (sent : string) (reply : FetchReply)
  : ProviderTokens :=
  match reply with
  | HttpOk data =>
      tokensOfResponse nowMs (orEmpty (data_access_token data)) sent data
  | _ => tokensOfResponse nowMs "" sent
           {| data_access_token := None; data_refresh_token := None;
              data_expires_in := None; data_scope := None |}
  end.

(** The end of the refresh-token grant, once the provider tokens to bind are
    known: a new RS access token is minted, the record is updated under the
    presented refresh token, and the response is built. *)
Definition finishRefreshGrant (e : Env) (w0 : World MemoryTokenStore)
    (refreshToken : string) (prov : ProviderTokens)
  : Res (World MemoryTokenStore) TokenResult.t :=
  let newAccess := base64UrlEncode (randomBytes e (drawn w0) 24) in
  let updated :=
    Memory.updateByRsRefresh (now e) refreshToken prov (Some newAccess)
      DEFAULT_RS_TOKEN_TTL_MS (store w0) in
  Ok {| TokenResult.access_token := newAccess;
        TokenResult.refresh_token := refreshToken;
        TokenResult.token_type := "bearer";
        TokenResult.expires_in :=
          if truthyZ (expires_at prov)
          then Z.max 1 ((nullish (expires_at prov) 0 - now e) / 1000)
          else 3600;
        TokenResult.scope :=
          joinSpace
            (match fst updated with
             | Some o => nullish (scopes (provider (objRecord o))) []
             | None => []
             end) |}
     {| store := snd updated;
        recentlyRefreshed := recentlyRefreshed w0;
        drawn := Datatypes.S (drawn w0);
        fetches := fetches w0 |}.

(** ** More scenarios *)

(** What [kv.get(key, 'json')] finds in a namespace at a time: the value of
    an entry that has not expired. *)
Definition namespaceRead (nowMs : Z) (key : string) (d : gmap string KvEntry)
  : option KvValue :=
  match d !! key with
  | Some entry => if Kv.liveAt nowMs entry then Some (kvValue entry) else None
  | None => None
  end.

(** What a read finds after a save whose namespace write may have failed:
    the copy the namespace still held, when the write failed and that copy
    is there to be read; otherwise what was saved. *)
Definition readBack {A : Type} (fault : option string) (older : option A)
    (saved : A) : A :=
  match fault, older with
  | Some _, Some copy => copy
  | _, _ => saved
  end.

Module MoreScenarios.
Import Scenario.

(** A mapping whose provider tokens are about to expire and cannot be
    renewed: the provider issued no refresh token. *)
Definition unrenewableTokens : ProviderTokens :=
  {| access_token := "AT1";
     refresh_token := None;
     expires_at := Some (t0 + 30000);
     scopes := Some ["calendar"] |}.

Definition unrenewableEntry : RsEntry :=
  {| rsRecord :=
       {| rs_access_token := "A1"; rs_refresh_token := "R1";
          provider := unrenewableTokens; created_at := t0 - 1000 |};
     expiresAt := t0 - 1000 + DEFAULT_RS_TOKEN_TTL_MS |}.

Definition unrenewableMapping : MemoryTokenStore :=
  snd (Memory.storeRsMapping (t0 - 1000) "" "A1" unrenewableTokens (Some "R1")
         DEFAULT_RS_TOKEN_TTL_MS Memory.empty).

(** Provider configurations whose token endpoint cannot be addressed: the
    flow's names a token URL without a scheme, the refresh controller's names
    no token URL and an accounts URL without a scheme.  [new URL] throws on
    both. *)
Definition unaddressableFlowConfig : Flow.ProviderConfig :=
  {| Flow.clientId := Some "client";
     Flow.clientSecret := Some "secret";
     Flow.accountsUrl := "https://accounts.example";
     Flow.tokenUrl := Some "accounts.example/token" |}.

Definition unaddressableConfig : Refresh.ProviderRefreshConfig :=
  {| Refresh.clientId := "client";
     Refresh.clientSecret := "secret";
     Refresh.accountsUrl := "accounts.example";
     Refresh.tokenUrl := None;
     Refresh.tokenEndpointPath := None |}.

(** The first token [generateOpaqueToken(24)] mints in these scenarios. *)
Definition mintedFirst : string := base64UrlEncode (repeat 1 24).

(** A KV namespace that works, holding a pending authorization, and one
    that then refuses to delete. *)
Definition kvPending : World KvTokenStore :=
  outcomeWorld
    (saveCode "code-1" "txn-1" None exchangeEnv
       (outcomeWorld
          (saveTransaction "txn-1" (pendingTxn (Some callbackTokens)) None
             exchangeEnv (worldOf emptyKv)))).

Definition deleteFailsEnv (nowMs : Z) : Env :=
  {| now := nowMs;
     randomBytes := fun k n => repeat (Z.of_nat k + 1) n;
     randomUUID := fun k => "uuid-" ++ pretty k;
     tokenEndpoint := downEndpoint;
     kvFault := fun op _ =>
                  match op with
                  | KvDelete => Some "KV delete failed"
                  | _ => None
                  end |}.

(** Two marks in the throttle map, one older than the cooldown. *)
Definition twoMarks : JsMap.t Z := [("A0", t0 - 40000); ("A1", t0 - 10000)].

(** A session started an hour before [t0] for ten minutes, never swept. *)
Definition staleSession : Session.Entry unit :=
  {| Session.record := {| Session.created_at := t0 - 3600000; Session.meta := tt |};
     Session.expiresAt := t0 - 3000000 |}.

Definition oneSession : JsMap.t (Session.Entry unit) := [("sid-1", staleSession)].

(** A KV namespace that holds the mapping of [oneMapping]. *)
(** A KV store after [handleAuthorize] has saved the transaction, five
    seconds before [t0], the provider callback still to come. *)
Definition kvAuthorized : World KvTokenStore :=
  outcomeWorld
    (saveTransaction "txn-1" (pendingTxn None) None (envAt (t0 - 5000) downEndpoint)
       (worldOf emptyKv)).

Definition kvOneMapping : World KvTokenStore :=
  outcomeWorld
    (storeRsMapping "A1" expiringTokens (Some "R1") (envAt (t0 - 1000) downEndpoint)
       (worldOf emptyKv)).

End MoreScenarios.

(** * Properties *)

(** ** Test vectors for the digest *)

(** The test vector of RFC 7636, appendix B. *)
Example pkce_rfc7636_vector :
  sha256B64UrlAsync "dBjftJeZ4CVP-mB92K27uhbUJU1p1r_wW1gFWFOEjXk"
  = "E9Melhoa2OwvFrEMTJguCHaoeK1t8URWbuGJSstw-cM".
Proof. vm_compute. reflexivity. Qed.

Example sha256_abc :
  Sha256.digest (utf8Bytes "abc")
  = [0xba; 0x78; 0x16; 0xbf; 0x8f; 0x01; 0xcf; 0xea; 0x41; 0x41; 0x40; 0xde;
     0x5d; 0xae; 0x22; 0x23; 0xb0; 0x03; 0x61; 0xa3; 0x96; 0x17; 0x7a; 0x9c;
     0xb4; 0x10; 0xff; 0x61; 0xf2; 0x00; 0x15; 0xad].
Proof. vm_compute. reflexivity. Qed.

(** ** The map operations *)

Module JsMapFacts.
Import JsMap.

Section Facts.
Context {V : Type}.
Implicit Types (m : JsMap.t V) (k : string) (v : V).

Lemma get_set_eq k v m : get k (set k v m) = Some v.
Proof.
  induction m as [|[k' v'] m IH]; simpl.
  - now rewrite String.eqb_refl.
  - destruct (String.eqb_spec k' k) as [->|Hne]; simpl.
    + now rewrite String.eqb_refl.
    + apply String.eqb_neq in Hne. now rewrite Hne.
Qed.

Lemma get_set_ne k k' v m : k <> k' -> get k' (set k v m) = get k' m.
Proof.
  intros Hne. induction m as [|[k0 v0] m IH]; simpl.
  - apply String.eqb_neq in Hne. now rewrite Hne.
  - destruct (String.eqb_spec k0 k) as [->|Hk]; simpl.
    + apply String.eqb_neq in Hne. now rewrite Hne.
    + now rewrite IH.
Qed.

Lemma get_delete_eq k m : get k (delete k m) = None.
Proof.
  induction m as [|[k0 v0] m IH]; simpl; [reflexivity|].
  destruct (String.eqb k0 k) eqn:E; simpl; [assumption|].
  now rewrite E.
Qed.

Lemma get_delete_ne k k' m : k <> k' -> get k' (delete k m) = get k' m.
Proof.
  intros Hne. induction m as [|[k0 v0] m IH]; simpl; [reflexivity|].
  destruct (String.eqb_spec k0 k) as [->|Hk]; simpl.
  - apply String.eqb_neq in Hne. now rewrite Hne.
  - now rewrite IH.
Qed.

Lemma get_delete_None k k' m : get k' m = None -> get k' (delete k m) = None.
Proof.
  intros Hm. destruct (String.eqb_spec k k') as [->|Hne].
  - apply get_delete_eq.
  - now rewrite get_delete_ne.
Qed.

Lemma get_deleteAll_None ks :
  forall k m, get k m = None -> get k (deleteAll ks m) = None.
Proof.
  unfold deleteAll.
  induction ks as [|k0 ks IH]; intros k m Hm; simpl; [assumption|].
  apply IH. now apply get_delete_None.
Qed.

Lemma get_deleteAll_in ks : forall k m, In k ks -> get k (deleteAll ks m) = None.
Proof.
  induction ks as [|k0 ks IH]; intros k m Hin; [destruct Hin|].
  destruct Hin as [->|Hin].
  - apply (get_deleteAll_None ks). apply get_delete_eq.
  - apply (IH k (delete k0 m) Hin).
Qed.

Lemma get_deleteAll_notin ks :
  forall k m, ~ In k ks -> get k (deleteAll ks m) = get k m.
Proof.
  unfold deleteAll.
  induction ks as [|k0 ks IH]; intros k m Hnin; simpl; [reflexivity|].
  rewrite IH by (intros Hin; apply Hnin; now right).
  apply get_delete_ne. intros ->. apply Hnin. now left.
Qed.

Lemma get_retain_keep (keep : V -> bool) k v m :
  get k m = Some v -> keep v = true -> get k (retain keep m) = Some v.
Proof.
  intros Hget Hkeep. induction m as [|[k0 v0] m IH]; simpl in *; [discriminate|].
  destruct (String.eqb k0 k) eqn:E.
  - inversion Hget; subst v0. rewrite Hkeep. simpl. now rewrite E.
  - destruct (keep v0); simpl; [rewrite E|]; now apply IH.
Qed.

Lemma get_In k v m : get k m = Some v -> In (k, v) m.
Proof.
  induction m as [|[k0 v0] m IH]; simpl; [discriminate|].
  destruct (String.eqb_spec k0 k) as [->|Hne]; intros Hget.
  - inversion Hget. now left.
  - right. now apply IH.
Qed.

End Facts.

End JsMapFacts.

(** ** The sort of [evictOldest] *)

Section SortFacts.
Context {V : Type} (createdOf : V -> Z).

Abbreviation sortC := (sortByCreated createdOf).
Abbreviation insertC := (insertByTime createdOf).
Abbreviation ascending := (ascending createdOf).

Lemma insertC_In x y l : In y (insertC x l) <-> y = x \/ In y l.
Proof.
  induction l as [|z l IH]; simpl.
  - intuition congruence.
  - destruct (createdOf (snd x) <=? createdOf (snd z)); simpl.
    + intuition congruence.
    + rewrite IH. intuition congruence.
Qed.

Lemma insertC_length x l : length (insertC x l) = Datatypes.S (length l).
Proof.
  induction l as [|z l IH]; simpl; [reflexivity|].
  destruct (createdOf (snd x) <=? createdOf (snd z)); simpl; [reflexivity|].
  now rewrite IH.
Qed.

Lemma insertC_ascending x l : ascending l -> ascending (insertC x l).
Proof.
  induction 1 as [|z l Hz Hl IH]; simpl.
  - constructor; [constructor|constructor].
  - destruct (Z.leb_spec (createdOf (snd x)) (createdOf (snd z))) as [Hle|Hgt].
    + constructor; [|now constructor].
      constructor; [assumption|].
      rewrite List.Forall_forall in Hz |- *. intros a Ha.
      specialize (Hz a Ha). lia.
    + constructor; [|assumption].
      apply List.Forall_forall. intros y Hy. apply insertC_In in Hy.
      destruct Hy as [->|Hy]; [lia|].
      rewrite List.Forall_forall in Hz. now apply Hz.
Qed.

Lemma sortC_In y l : In y (sortC l) <-> In y l.
Proof.
  induction l as [|x l IH]; simpl; [reflexivity|].
  rewrite insertC_In, IH. intuition congruence.
Qed.

Lemma sortC_length l : length (sortC l) = length l.
Proof.
  induction l as [|x l IH]; simpl; [reflexivity|].
  now rewrite insertC_length, IH.
Qed.

Lemma sortC_ascending l : ascending (sortC l).
Proof.
  induction l as [|x l IH]; simpl; [constructor|].
  now apply insertC_ascending.
Qed.

Lemma skipn_In (n : nat) (l : list (string * V)) y : In y (skipn n l) -> In y l.
Proof.
  intros Hy. rewrite <- (firstn_skipn n l). apply in_or_app. now right.
Qed.

Lemma ascending_firstn_skipn n l x y :
  ascending l -> In x (firstn n l) -> In y (skipn n l) ->
  createdOf (snd x) <= createdOf (snd y).
Proof.
  intros Hasc. revert n. induction Hasc as [|z l Hz Hl IH]; intros n Hx Hy.
  - destruct n; simpl in Hx; destruct Hx.
  - destruct n as [|n]; simpl in *; [destruct Hx|].
    destruct Hx as [->|Hx].
    + rewrite List.Forall_forall in Hz. apply Hz.
      eapply skipn_In. exact Hy.
    + now apply (IH n).
Qed.

(** An entry of the map is among the first [n] of the sorted entries or is
    not older than any of them. *)
Lemma victims_are_oldest (map : JsMap.t V) n x y :
  In x (firstn n (sortC map)) -> In y map ->
  In y (firstn n (sortC map)) \/ createdOf (snd x) <= createdOf (snd y).
Proof.
  intros Hx Hy. apply sortC_In in Hy.
  rewrite <- (firstn_skipn n (sortC map)) in Hy at 1.
  apply in_app_or in Hy. destruct Hy as [Hy|Hy]; [now left|right].
  eapply ascending_firstn_skipn; eauto using sortC_ascending.
Qed.

Lemma victims_length (map : JsMap.t V) n :
  (n <= length map)%nat -> length (victims createdOf map n) = n.
Proof.
  intros Hn. unfold victims.
  rewrite length_map, length_firstn, sortC_length. lia.
Qed.

(** The sort permutes the entries, so the keys it puts first are keys of
    the map, and distinct when the map holds each key once. *)
Lemma insertByTime_Permutation x l :
  Permutation (insertC x l) (x :: l).
Proof.
  induction l as [|y l IH]; simpl; [reflexivity|].
  destruct (createdOf (snd x) <=? createdOf (snd y)); [reflexivity|].
  rewrite IH. apply perm_swap.
Qed.

Lemma sortByCreated_Permutation l : Permutation (sortC l) l.
Proof.
  induction l as [|x l IH]; simpl; [reflexivity|].
  rewrite insertByTime_Permutation. now constructor.
Qed.

Lemma victims_NoDup m n : uniqueKeys m -> List.NoDup (victims createdOf m n).
Proof.
  unfold uniqueKeys, victims. intros Hm.
  assert (Hs : List.NoDup (List.map fst (sortByCreated createdOf m))).
  { eapply Permutation_NoDup; [|exact Hm].
    apply Permutation_map. symmetry. apply sortByCreated_Permutation. }
  rewrite <- (firstn_skipn n (sortByCreated createdOf m)), List.map_app in Hs.
  eapply List.NoDup_app_remove_r. exact Hs.
Qed.

Lemma victims_keys m n k : In k (victims createdOf m n) -> In k (List.map fst m).
Proof.
  unfold victims. intros Hin. apply in_map_iff in Hin.
  destruct Hin as (x & Hk & Hin). apply in_map_iff. exists x. split; [assumption|].
  apply sortC_In. rewrite <- (firstn_skipn n (sortByCreated createdOf m)).
  apply in_or_app. now left.
Qed.

End SortFacts.

(** ** The in-memory store *)

Module MemoryFacts.
Import JsMapFacts.

Lemma lookupObj_Some m k s l e :
  Memory.lookupObj m k s = Some (l, e) <->
  JsMap.get k m = Some l /\ heap s !! l = Some e.
Proof.
  unfold Memory.lookupObj.
  destruct (JsMap.get k m) as [l0|]; [|split; [discriminate|intros [? _]; discriminate]].
  destruct (heap s !! l0) as [e0|] eqn:Hh.
  - split.
    + intros Heq. inversion Heq; subst. auto.
    + intros [Hl He]. inversion Hl; subst. rewrite Hh in He. now inversion He.
  - split; [discriminate|].
    intros [Hl He]. inversion Hl; subst. rewrite Hh in He. discriminate.
Qed.

Lemma lookupObj_None m k s :
  JsMap.get k m = None -> Memory.lookupObj m k s = None.
Proof. unfold Memory.lookupObj. now intros ->. Qed.

(** A lookup of a key that the index does not hold changes nothing. *)
Lemma getByRsAccess_absent now k s :
  JsMap.get k (rsAccessMap s) = None -> Memory.getByRsAccess now k s = (None, s).
Proof. intros H. unfold Memory.getByRsAccess. now rewrite lookupObj_None. Qed.

Lemma getByRsRefresh_absent now k s :
  JsMap.get k (rsRefreshMap s) = None -> Memory.getByRsRefresh now k s = (None, s).
Proof. intros H. unfold Memory.getByRsRefresh. now rewrite lookupObj_None. Qed.

(** A lookup of a live record returns it and changes nothing. *)
Lemma getByRsAccess_live now k s l e :
  JsMap.get k (rsAccessMap s) = Some l -> heap s !! l = Some e ->
  now < expiresAt e ->
  Memory.getByRsAccess now k s = (Some (l, e), s).
Proof.
  intros Hk Hl Hlive. unfold Memory.getByRsAccess.
  rewrite (proj2 (lookupObj_Some _ _ _ _ _) (conj Hk Hl)).
  destruct (Z.geb_spec now (expiresAt e)); [lia|reflexivity].
Qed.

Lemma getByRsRefresh_live now k s l e :
  JsMap.get k (rsRefreshMap s) = Some l -> heap s !! l = Some e ->
  now < expiresAt e ->
  Memory.getByRsRefresh now k s = (Some (l, e), s).
Proof.
  intros Hk Hl Hlive. unfold Memory.getByRsRefresh.
  rewrite (proj2 (lookupObj_Some _ _ _ _ _) (conj Hk Hl)).
  destruct (Z.geb_spec now (expiresAt e)); [lia|reflexivity].
Qed.

(** The expiry that lookups test is the one the store computed when the
    record was written: the write instant plus the TTL. *)
Lemma storeRsMapping_expiresAt now uuid rsAccess prov rsRefresh ttlMs s :
  expiresAt (snd (fst (Memory.storeRsMapping now uuid rsAccess prov rsRefresh ttlMs s)))
  = now + ttlMs.
Proof.
  unfold Memory.storeRsMapping.
  destruct (if truthy rsRefresh then _ else _) as [[l e]|]; reflexivity.
Qed.

Lemma updateByRsRefresh_expiresAt now rsRefresh prov newAccess ttlMs s o s' :
  Memory.updateByRsRefresh now rsRefresh prov newAccess ttlMs s = (Some o, s') ->
  expiresAt (snd o) = now + ttlMs.
Proof.
  unfold Memory.updateByRsRefresh.
  destruct (Memory.lookupObj _ _ _) as [[l e]|]; [|discriminate].
  intros Heq. inversion Heq. reflexivity.
Qed.

Lemma truthy_Some (o : option string) :
  truthy o = true -> exists r, o = Some r /\ r <> "".
Proof.
  destruct o as [r|]; [|discriminate]. simpl. intros Hr. exists r.
  split; [reflexivity|]. intros ->. discriminate.
Qed.

(** What [storeRsMapping] does to the two indices, once [evictOldest] has
    run: the access token is entered; no other key comes into the
    access-token index, and none leaves it but the access token that the
    record found under the refresh token had; the refresh-token index
    changes under the refresh token of the mapping only. *)
Lemma storeRsMapping_indices now uuid rsAccess prov rsRefresh ttlMs s :
  let m1 := evictOldest (Memory.createdOfObj (heap s)) (rsAccessMap s)
              MAX_RS_RECORDS 10 in
  let stored := Memory.storeRsMapping now uuid rsAccess prov rsRefresh ttlMs s in
  JsMap.get rsAccess (rsAccessMap (snd stored)) = Some (fst (fst stored))
  /\ (forall k', k' <> rsAccess -> JsMap.get k' m1 = None ->
        JsMap.get k' (rsAccessMap (snd stored)) = None)
  /\ (forall k', k' <> rsAccess ->
        (forall r l0 e0, rsRefresh = Some r -> r <> "" ->
           JsMap.get r (rsRefreshMap s) = Some l0 -> heap s !! l0 = Some e0 ->
           k' <> rs_access_token (rsRecord e0)) ->
        JsMap.get k' (rsAccessMap (snd stored)) = JsMap.get k' m1)
  /\ (forall r, r <> nullish rsRefresh uuid ->
        JsMap.get r (rsRefreshMap (snd stored)) = JsMap.get r (rsRefreshMap s)).
Proof.
  intros m1 stored. subst stored. unfold Memory.storeRsMapping. fold m1. cbv zeta.
  destruct (truthy rsRefresh) eqn:Htr.
  - destruct (truthy_Some _ Htr) as (r & -> & Hr). cbn [nullish].
    destruct (Memory.lookupObj _ r _) as [[l0 e0]|] eqn:Hlook; cbn [snd fst].
    + apply lookupObj_Some in Hlook. cbn in Hlook. destruct Hlook as [Hget Hheap].
      cbn [rsAccessMap rsRefreshMap Memory.withAccess Memory.withHeap].
      split; [apply get_set_eq|]. split; [|split].
      * intros k' Hne Hnone. rewrite get_set_ne by congruence.
        now apply get_delete_None.
      * intros k' Hne Hold. rewrite get_set_ne by congruence.
        apply get_delete_ne. apply not_eq_sym. now apply (Hold r l0 e0).
      * reflexivity.
    + cbn [rsAccessMap rsRefreshMap Memory.withAccess Memory.withHeap
             Memory.withRefresh rsRecord rs_refresh_token].
      split; [apply get_set_eq|]. split; [|split].
      * intros k' Hne Hnone. now rewrite get_set_ne by congruence.
      * intros k' Hne _. now rewrite get_set_ne by congruence.
      * intros r' Hne. now rewrite get_set_ne by congruence.
  - cbn [snd fst rsAccessMap rsRefreshMap Memory.withAccess Memory.withHeap
           Memory.withRefresh rsRecord rs_refresh_token].
    split; [apply get_set_eq|]. split; [|split].
    + intros k' Hne Hnone. now rewrite get_set_ne by congruence.
    + intros k' Hne _. now rewrite get_set_ne by congruence.
    + intros r' Hne. now rewrite get_set_ne by congruence.
Qed.

End MemoryFacts.

Import JsMapFacts MemoryFacts.

(** C5. Rotating the access token with [updateByRsRefresh]: for a record
    stored under its refresh token and a new access token (a non-empty value
    other than the current one), the update returns the record object; from
    then until the record's TTL runs out the old access token resolves to
    nothing, the new access token and the refresh token both resolve to that
    same object, and the object still carries the refresh token [rsRefresh]. *)
Theorem C5_rotation_repoints_access_index
    (s : MemoryTokenStore) (l : nat) (rec : RsEntry)
    (rsRefresh newRsAccess : string) (prov : ProviderTokens)
    (now ttlMs later : Z) :
  Memory.lookupObj (rsRefreshMap s) rsRefresh s = Some (l, rec) ->
  rs_refresh_token (rsRecord rec) = rsRefresh ->
  newRsAccess <> "" ->
  newRsAccess <> rs_access_token (rsRecord rec) ->
  later < now + ttlMs ->
  exists rec' s',
    Memory.updateByRsRefresh now rsRefresh prov (Some newRsAccess) ttlMs s
      = (Some (l, rec'), s')
    /\ Memory.getByRsAccess later (rs_access_token (rsRecord rec)) s' = (None, s')
    /\ Memory.getByRsAccess later newRsAccess s' = (Some (l, rec'), s')
    /\ Memory.getByRsRefresh later rsRefresh s' = (Some (l, rec'), s')
    /\ rs_refresh_token (rsRecord rec') = rsRefresh
    /\ rs_access_token (rsRecord rec') = newRsAccess
    /\ provider (rsRecord rec') = prov.
Proof.
  intros Hlook Hkey Hne Hnew Hlive.
  pose proof Hlook as Hl. apply lookupObj_Some in Hl. destruct Hl as [Hget Hheap].
  assert (Hlt : (l < length (heap s))%nat) by (eapply lookup_lt_Some; eauto).
  assert (Htruthy : truthy (Some newRsAccess) = true).
  { simpl. apply String.eqb_neq in Hne. now rewrite Hne. }
  unfold Memory.updateByRsRefresh. rewrite Hlook, Htruthy. simpl nullish.
  eexists. eexists. split; [reflexivity|].
  repeat split.
  - apply getByRsAccess_absent. simpl.
    rewrite get_set_ne by assumption. apply get_delete_eq.
  - apply getByRsAccess_live; simpl.
    + apply get_set_eq.
    + now apply list_lookup_insert_eq.
    + assumption.
  - apply getByRsRefresh_live; simpl.
    + apply get_set_eq.
    + now apply list_lookup_insert_eq.
    + assumption.
  - simpl. assumption.
Qed.

(** C7. TTL expiry in the in-memory store: for a record object whose expiry
    instant has been reached, a lookup through either index under which the
    object stands returns nothing and removes both the looked-up key and the
    record's token in the sibling index, so that a later lookup of the
    record's other token returns nothing as well.  Only the store's own
    [expiresAt] is consulted, never the provider token's [expires_at]. *)
Theorem C7_expired_record_leaves_both_indices
    (s : MemoryTokenStore) (l : nat) (entry : RsEntry) (k : string)
    (now later : Z) :
  heap s !! l = Some entry ->
  expiresAt entry <= now ->
  (JsMap.get k (rsAccessMap s) = Some l ->
   exists s',
     Memory.getByRsAccess now k s = (None, s')
     /\ JsMap.get k (rsAccessMap s') = None
     /\ JsMap.get (rs_refresh_token (rsRecord entry)) (rsRefreshMap s') = None
     /\ Memory.getByRsRefresh later (rs_refresh_token (rsRecord entry)) s' = (None, s'))
  /\
  (JsMap.get k (rsRefreshMap s) = Some l ->
   exists s',
     Memory.getByRsRefresh now k s = (None, s')
     /\ JsMap.get k (rsRefreshMap s') = None
     /\ JsMap.get (rs_access_token (rsRecord entry)) (rsAccessMap s') = None
     /\ Memory.getByRsAccess later (rs_access_token (rsRecord entry)) s' = (None, s')).
Proof.
  intros Hheap Hexp.
  assert (Hge : (now >=? expiresAt entry) = true).
  { destruct (Z.geb_spec now (expiresAt entry)); [reflexivity|lia]. }
  split; intros Hk.
  - unfold Memory.getByRsAccess.
    rewrite (proj2 (lookupObj_Some _ _ _ _ _) (conj Hk Hheap)), Hge.
    eexists. split; [reflexivity|]. simpl.
    split; [apply get_delete_eq|].
    split; [apply get_delete_eq|].
    apply getByRsRefresh_absent. simpl. apply get_delete_eq.
  - unfold Memory.getByRsRefresh.
    rewrite (proj2 (lookupObj_Some _ _ _ _ _) (conj Hk Hheap)), Hge.
    eexists. split; [reflexivity|]. simpl.
    split; [apply get_delete_eq|].
    split; [apply get_delete_eq|].
    apply getByRsAccess_absent. simpl. apply get_delete_eq.
Qed.

(** C9. Eviction at capacity touches the access-token index only.  When the
    access-token index holds [MAX_RS_RECORDS] entries or more,
    [storeRsMapping] deletes from it the keys of the ten entries that come
    first in order of creation: there are ten of them, and none is younger
    than an entry that stays.  The refresh-token index keeps the evicted
    records: for an evicted record that has not expired and whose tokens are
    not those of the mapping being stored, a lookup by its refresh token
    still returns the record object while a lookup by its access-token key
    returns nothing.

    The index of the resulting store is pinned by the ten keys: they are
    keys of the index before (distinct ones, when it holds each key once),
    each of them other than the access token being stored is absent from the
    index afterwards, and every other key reads afterwards as it read
    before, apart from the access token being stored, which is entered, and
    the access token of the record found under the refresh token, which the
    new one replaces.  The refresh-token index changes under the refresh
    token of the mapping being stored only. *)
Theorem C9_eviction_spares_refresh_index
    (s : MemoryTokenStore) (now : Z) (uuid rsAccess : string)
    (prov : ProviderTokens) (rsRefresh : option string) (ttlMs : Z)
    (k : string) (l : nat) (victim : RsEntry) (later : Z) :
  MAX_RS_RECORDS <= JsMap.size (rsAccessMap s) ->
  In (k, l)
     (firstn 10 (sortByCreated (Memory.createdOfObj (heap s)) (rsAccessMap s))) ->
  heap s !! l = Some victim ->
  JsMap.get (rs_refresh_token (rsRecord victim)) (rsRefreshMap s) = Some l ->
  rsAccess <> k ->
  JsMap.get (nullish rsRefresh uuid) (rsRefreshMap s) <> Some l ->
  later < expiresAt victim ->
  let evicted := victims (Memory.createdOfObj (heap s)) (rsAccessMap s) 10 in
  let s' := snd (Memory.storeRsMapping now uuid rsAccess prov rsRefresh ttlMs s) in
  length evicted = 10%nat
  /\ In k evicted
  /\ (forall k' l', In (k', l') (rsAccessMap s) ->
        In k' evicted
        \/ created_at (rsRecord victim) <= Memory.createdOfObj (heap s) l')
  /\ Memory.getByRsAccess later k s' = (None, s')
  /\ Memory.getByRsRefresh later (rs_refresh_token (rsRecord victim)) s'
     = (Some (l, victim), s')
  /\ (forall k', In k' evicted -> In k' (List.map fst (rsAccessMap s)))
  /\ (uniqueKeys (rsAccessMap s) -> List.NoDup evicted)
  /\ (forall k', In k' evicted -> k' <> rsAccess ->
        JsMap.get k' (rsAccessMap s') = None)
  /\ (forall k', ~ In k' evicted -> k' <> rsAccess ->
        (forall r l0 e0, rsRefresh = Some r -> r <> "" ->
           JsMap.get r (rsRefreshMap s) = Some l0 -> heap s !! l0 = Some e0 ->
           k' <> rs_access_token (rsRecord e0)) ->
        JsMap.get k' (rsAccessMap s') = JsMap.get k' (rsAccessMap s))
  /\ JsMap.get rsAccess (rsAccessMap s')
     = Some (fst (fst (Memory.storeRsMapping now uuid rsAccess prov rsRefresh
                         ttlMs s)))
  /\ (forall r, r <> nullish rsRefresh uuid ->
        JsMap.get r (rsRefreshMap s') = JsMap.get r (rsRefreshMap s)).
Proof.
  intros Hcap Hin Hheap Hidx Hfresh Hother Hlive evicted s'.
  assert (Hlookups :
    Memory.getByRsAccess later k s' = (None, s')
    /\ Memory.getByRsRefresh later (rs_refresh_token (rsRecord victim)) s'
       = (Some (l, victim), s')).
  2:{ destruct Hlookups as [HbyAccess HbyRefresh].
      assert (Hfull : (JsMap.size (rsAccessMap s) <? MAX_RS_RECORDS) = false).
      { destruct (Z.ltb_spec (JsMap.size (rsAccessMap s)) MAX_RS_RECORDS);
          [lia|reflexivity]. }
      destruct (storeRsMapping_indices now uuid rsAccess prov rsRefresh ttlMs s)
        as (Hentered & Habsent & Hkept & Hrefresh).
      unfold evictOldest in Habsent, Hkept. rewrite Hfull in Habsent, Hkept.
      fold evicted in Habsent, Hkept. fold s' in Hentered, Habsent, Hkept, Hrefresh.
      split.
      { apply victims_length. unfold JsMap.size, MAX_RS_RECORDS in Hcap. lia. }
      split.
      { unfold evicted, victims. apply (in_map fst) in Hin. exact Hin. }
      split.
      { intros k' l' Hin'.
        destruct (victims_are_oldest (Memory.createdOfObj (heap s))
                    (rsAccessMap s) 10 (k, l) (k', l') Hin Hin') as [Hv|Hle].
        - left. unfold evicted, victims. apply (in_map fst) in Hv. exact Hv.
        - right. simpl in Hle. unfold Memory.createdOfObj in Hle at 1.
          rewrite Hheap in Hle. exact Hle. }
      split; [exact HbyAccess|]. split; [exact HbyRefresh|].
      split; [intros k'; apply victims_keys|].
      split; [apply victims_NoDup|].
      split.
      { intros k' Hk' Hne. apply Habsent; [exact Hne|].
        now apply get_deleteAll_in. }
      split.
      { intros k' Hk' Hne Hold. rewrite (Hkept k' Hne Hold).
        now apply get_deleteAll_notin. }
      split; [exact Hentered|exact Hrefresh]. }
  assert (Hkin : In k evicted).
  { unfold evicted, victims. apply (in_map fst) in Hin. exact Hin. }
  assert (Hlt : (l < length (heap s))%nat) by (eapply lookup_lt_Some; eauto).
  assert (Hfull : (JsMap.size (rsAccessMap s) <? MAX_RS_RECORDS) = false).
  { destruct (Z.ltb_spec (JsMap.size (rsAccessMap s)) MAX_RS_RECORDS); [lia|reflexivity]. }
  subst s'. unfold Memory.storeRsMapping, evictOldest. rewrite Hfull.
  fold evicted.
  destruct (truthy rsRefresh) eqn:Htr.
  - destruct rsRefresh as [r|]; [|discriminate]. simpl nullish in *.
    destruct (Memory.lookupObj _ r _) as [[l0 e0]|] eqn:Hlook.
    + apply lookupObj_Some in Hlook. simpl in Hlook. destruct Hlook as [Hr He0].
      assert (Hl0 : l0 <> l) by (intros ->; now apply Hother).
      cbn [snd fst]. split.
      * apply getByRsAccess_absent. simpl.
        rewrite get_set_ne by assumption.
        apply get_delete_None. now apply get_deleteAll_in.
      * apply getByRsRefresh_live; simpl; try assumption.
        now rewrite list_lookup_insert_ne.
    + cbn [snd fst]. split.
      * apply getByRsAccess_absent. simpl.
        rewrite get_set_ne by assumption. now apply get_deleteAll_in.
      * apply getByRsRefresh_live; simpl; try assumption.
        -- rewrite get_set_ne; [assumption|]. intros Heq. apply Hother.
           now rewrite Heq.
        -- now rewrite lookup_app_l.
  - cbn [snd fst]. split.
    + apply getByRsAccess_absent. simpl.
      rewrite get_set_ne by assumption. now apply get_deleteAll_in.
    + apply getByRsRefresh_live; simpl; try assumption.
      * rewrite get_set_ne; [assumption|]. intros Heq. apply Hother.
        now rewrite Heq.
      * now rewrite lookup_app_l.
Qed.

(** ** The in-memory store behind the [TokenStore] interface *)

Section MemoryRuns.
Implicit Types (e : Env) (w : World MemoryTokenStore).

Lemma withStore_id {S} (w : World S) : withStore (store w) w = w.
Proof. now destruct w. Qed.

Lemma run_getByRsAccess k e w :
  getByRsAccess k e w
  = Ok (option_map objRecord (fst (Memory.getByRsAccess (now e) k (store w))))
       (withStore (snd (Memory.getByRsAccess (now e) k (store w))) w).
Proof.
  simpl. unfold storeOp, onFst.
  now destruct (Memory.getByRsAccess (now e) k (store w)).
Qed.

Lemma run_getByRsRefresh k e w :
  getByRsRefresh k e w
  = Ok (option_map objRecord (fst (Memory.getByRsRefresh (now e) k (store w))))
       (withStore (snd (Memory.getByRsRefresh (now e) k (store w))) w).
Proof.
  simpl. unfold storeOp, onFst.
  now destruct (Memory.getByRsRefresh (now e) k (store w)).
Qed.

Lemma run_updateByRsRefresh k prov newAccess e w :
  updateByRsRefresh k prov newAccess e w
  = Ok (option_map objRecord
          (fst (Memory.updateByRsRefresh (now e) k prov newAccess
                  DEFAULT_RS_TOKEN_TTL_MS (store w))))
       (withStore
          (snd (Memory.updateByRsRefresh (now e) k prov newAccess
                  DEFAULT_RS_TOKEN_TTL_MS (store w))) w).
Proof.
  simpl. unfold storeOp, onFst.
  now destruct (Memory.updateByRsRefresh (now e) k prov newAccess _ (store w)).
Qed.

Lemma run_storeRsMapping rsAccess prov r e w :
  storeRsMapping rsAccess prov (Some r) e w
  = Ok (objRecord
          (fst (Memory.storeRsMapping (now e) "" rsAccess prov (Some r)
                  DEFAULT_RS_TOKEN_TTL_MS (store w))))
       (withStore
          (snd (Memory.storeRsMapping (now e) "" rsAccess prov (Some r)
                  DEFAULT_RS_TOKEN_TTL_MS (store w))) w).
Proof.
  simpl. unfold bind, ret, storeOp, onFst.
  now destruct (Memory.storeRsMapping (now e) "" rsAccess prov (Some r) _ (store w)).
Qed.

Lemma run_getTxnIdByCode code e w :
  getTxnIdByCode code e w
  = Ok (fst (Memory.getTxnIdByCode (now e) code (store w)))
       (withStore (snd (Memory.getTxnIdByCode (now e) code (store w))) w).
Proof.
  simpl. unfold storeOp.
  now destruct (Memory.getTxnIdByCode (now e) code (store w)).
Qed.

Lemma run_getTransaction txnId e w :
  getTransaction txnId e w
  = Ok (fst (Memory.getTransaction (now e) txnId (store w)))
       (withStore (snd (Memory.getTransaction (now e) txnId (store w))) w).
Proof.
  simpl. unfold storeOp.
  now destruct (Memory.getTransaction (now e) txnId (store w)).
Qed.

Lemma run_deleteTransaction txnId e w :
  deleteTransaction txnId e w
  = Ok tt (withStore (Memory.deleteTransaction txnId (store w)) w).
Proof. reflexivity. Qed.

Lemma run_deleteCode code e w :
  deleteCode code e w = Ok tt (withStore (Memory.deleteCode code (store w)) w).
Proof. reflexivity. Qed.

(** A successful lookup of a code or of a transaction leaves the store as
    it was. *)
Lemma getTxnIdByCode_found now code s txnId :
  fst (Memory.getTxnIdByCode now code s) = Some txnId ->
  Memory.getTxnIdByCode now code s = (Some txnId, s).
Proof.
  unfold Memory.getTxnIdByCode.
  destruct (JsMap.get code (codes s)) as [entry|]; [|discriminate].
  destruct (now >=? TimedEntry.expiresAt entry); [discriminate|].
  simpl. now intros ->.
Qed.

Lemma getTransaction_found now txnId s txn :
  fst (Memory.getTransaction now txnId s) = Some txn ->
  Memory.getTransaction now txnId s = (Some txn, s).
Proof.
  unfold Memory.getTransaction.
  destruct (JsMap.get txnId (transactions s)) as [entry|]; [|discriminate].
  destruct (now >=? TimedEntry.expiresAt entry); [discriminate|].
  simpl. now intros ->.
Qed.

Lemma getTxnIdByCode_absent now code s :
  JsMap.get code (codes s) = None -> Memory.getTxnIdByCode now code s = (None, s).
Proof. unfold Memory.getTxnIdByCode. now intros ->. Qed.

(** [storeRsMapping] touches neither the codes nor the transactions. *)
Lemma storeRsMapping_codes now uuid rsAccess prov rsRefresh ttlMs s :
  codes (snd (Memory.storeRsMapping now uuid rsAccess prov rsRefresh ttlMs s))
  = codes s
  /\ transactions (snd (Memory.storeRsMapping now uuid rsAccess prov rsRefresh ttlMs s))
     = transactions s.
Proof.
  unfold Memory.storeRsMapping.
  destruct (if truthy rsRefresh then _ else _) as [[l e]|]; split; reflexivity.
Qed.

End MemoryRuns.

(** ** The authorization-code grant *)

Section CodeGrant.
Context {platform : Platform}.
Implicit Types (e : Env) (w : World MemoryTokenStore).

(** The exchange up to the PKCE check. *)
Lemma handleToken_code_prefix e w code verifier cfg txnId txn :
  resolves e w code txnId txn ->
  Flow.handleToken (AuthorizationCode code verifier) cfg e w
  = if String.eqb (Transaction.codeChallenge txn) (sha256B64UrlAsync verifier)
    then
      let rsAccess := base64UrlEncode (randomBytes e (drawn w) 24) in
      let rsRefresh := base64UrlEncode (randomBytes e (Datatypes.S (drawn w)) 24) in
      let s1 :=
        match Transaction.provider txn with
        | Some p =>
            if hasProviderToken txn
            then snd (Memory.storeRsMapping (now e) "" rsAccess p (Some rsRefresh)
                        DEFAULT_RS_TOKEN_TTL_MS (store w))
            else store w
        | None => store w
        end in
      let providerScope :=
        joinSpace (match Transaction.provider txn with
                   | Some p => nullish (scopes p) []
                   | None => []
                   end) in
      Ok {| TokenResult.access_token := rsAccess;
            TokenResult.refresh_token := rsRefresh;
            TokenResult.token_type := "bearer";
            TokenResult.expires_in := 3600;
            TokenResult.scope :=
              if negb (String.eqb providerScope "") then providerScope
              else orEmpty (Transaction.scope txn) |}
         {| store := Memory.deleteCode code (Memory.deleteTransaction txnId s1);
            recentlyRefreshed := recentlyRefreshed w;
            drawn := Datatypes.S (Datatypes.S (drawn w));
            fetches := fetches w |}
    else Throw "invalid_grant" w.
Proof.
  intros (Hcode & Hne & Htxn).
  apply getTxnIdByCode_found in Hcode. apply getTransaction_found in Htxn.
  unfold Flow.handleToken, bind.
  rewrite run_getTxnIdByCode, Hcode. cbn [fst snd].
  assert (Htr : truthy (Some txnId) = true).
  { simpl. apply String.eqb_neq in Hne. now rewrite Hne. }
  rewrite Htr. cbn [negb nullish].
  rewrite run_getTransaction. cbn [store withStore]. rewrite Htxn. cbn [fst snd].
  destruct (String.eqb (Transaction.codeChallenge txn) (sha256B64UrlAsync verifier));
    cbn [negb].
  - unfold generateOpaqueToken, hasProviderToken. cbn [store drawn withStore].
    destruct (Transaction.provider txn) as [p|].
    + destruct (negb (String.eqb (access_token p) "")).
      * unfold bind. rewrite run_storeRsMapping. reflexivity.
      * reflexivity.
    + reflexivity.
  - unfold throw. now rewrite !withStore_id.
Qed.

End CodeGrant.

Section CodeGrantProperties.
Context {platform : Platform}.
Implicit Types (e : Env) (w : World MemoryTokenStore).

(** An exchange that succeeds had a code that resolved and a verifier that
    hashes to the stored challenge. *)
Lemma handleToken_code_success e w code verifier cfg r w' :
  Flow.handleToken (AuthorizationCode code verifier) cfg e w = Ok r w' ->
  exists txnId txn,
    resolves e w code txnId txn
    /\ sha256B64UrlAsync verifier = Transaction.codeChallenge txn.
Proof.
  intros Hrun.
  destruct (fst (Memory.getTxnIdByCode (now e) code (store w))) as [txnId|] eqn:Hcode.
  - destruct (String.eqb_spec txnId "") as [->|Hne].
    + exfalso. apply getTxnIdByCode_found in Hcode.
      unfold Flow.handleToken, bind in Hrun.
      rewrite run_getTxnIdByCode, Hcode in Hrun. discriminate Hrun.
    + destruct (fst (Memory.getTransaction (now e) txnId (store w)))
        as [txn|] eqn:Htxn.
      * exists txnId, txn. split; [now repeat split|].
        rewrite (handleToken_code_prefix e w code verifier cfg txnId txn) in Hrun
          by now repeat split.
        destruct (String.eqb_spec (Transaction.codeChallenge txn)
                    (sha256B64UrlAsync verifier)); [congruence|discriminate].
      * exfalso. apply getTxnIdByCode_found in Hcode.
        unfold Flow.handleToken, bind in Hrun.
        rewrite run_getTxnIdByCode, Hcode in Hrun. cbn [fst snd] in Hrun.
        assert (Htr : truthy (Some txnId) = true).
        { simpl. apply String.eqb_neq in Hne. now rewrite Hne. }
        rewrite Htr in Hrun. cbn [negb nullish] in Hrun.
        rewrite run_getTransaction in Hrun. cbn [store withStore] in Hrun.
        destruct (Memory.getTransaction (now e) txnId (store w)) as [o s2].
        simpl in Htxn. subst o. discriminate Hrun.
  - exfalso. unfold Flow.handleToken, bind in Hrun.
    rewrite run_getTxnIdByCode, Hcode in Hrun. discriminate Hrun.
Qed.

(** C2. Authorization codes are single-use: a successful
    [authorization_code] exchange deletes the redeemed code and its
    transaction, and any later exchange that presents the same code, with
    whatever verifier, fails with [invalid_grant]. *)
Theorem C2_redeemed_code_cannot_be_replayed
    e w (code verifier : string) (cfg : option Flow.ProviderConfig)
    (r : TokenResult.t) (w' : World MemoryTokenStore) :
  Flow.handleToken (AuthorizationCode code verifier) cfg e w = Ok r w' ->
  JsMap.get code (codes (store w')) = None
  /\ (exists txnId,
        fst (Memory.getTxnIdByCode (now e) code (store w)) = Some txnId
        /\ JsMap.get txnId (transactions (store w')) = None)
  /\ forall e' verifier' cfg',
       Flow.handleToken (AuthorizationCode code verifier') cfg' e' w'
       = Throw "invalid_grant" w'.
Proof.
  intros Hrun.
  destruct (handleToken_code_success _ _ _ _ _ _ _ Hrun)
    as (txnId & txn & Hres & Hpkce).
  rewrite (handleToken_code_prefix e w code verifier cfg txnId txn Hres) in Hrun.
  rewrite Hpkce, String.eqb_refl in Hrun.
  cbv zeta in Hrun. inversion Hrun as [[Hr Hw]]. clear Hrun Hr Hw.
  match goal with
  | |- JsMap.get code (codes (store ?W)) = None /\ _ => set (wOut := W)
  end.
  assert (Hgone : JsMap.get code (codes (store wOut)) = None).
  { simpl. apply get_delete_eq. }
  split; [exact Hgone|]. split.
  - exists txnId. split; [apply Hres|]. simpl. apply get_delete_eq.
  - intros e' verifier' cfg'. unfold Flow.handleToken, bind.
    rewrite run_getTxnIdByCode, (getTxnIdByCode_absent _ _ _ Hgone).
    cbn [fst snd truthy negb]. unfold throw. now rewrite withStore_id.
Qed.

(** C3. PKCE: when the code resolves to a live transaction, the exchange
    succeeds exactly when the base64url SHA-256 digest of the submitted
    verifier equals the transaction's stored challenge, and with any other
    verifier it fails with [invalid_grant], leaving the state untouched. *)
Theorem C3_exchange_succeeds_iff_verifier_matches
    e w (code verifier txnId : string) (txn : Transaction.t)
    (cfg : option Flow.ProviderConfig) :
  resolves e w code txnId txn ->
  ((exists r w',
      Flow.handleToken (AuthorizationCode code verifier) cfg e w = Ok r w')
   <-> sha256B64UrlAsync verifier = Transaction.codeChallenge txn)
  /\ (sha256B64UrlAsync verifier <> Transaction.codeChallenge txn ->
      Flow.handleToken (AuthorizationCode code verifier) cfg e w
      = Throw "invalid_grant" w).
Proof.
  intros Hres.
  rewrite (handleToken_code_prefix e w code verifier cfg txnId txn Hres).
  destruct (String.eqb_spec (Transaction.codeChallenge txn)
              (sha256B64UrlAsync verifier)) as [Heq|Hne].
  - split.
    + split; [intros _; now symmetry|]. intros _. eexists. eexists. reflexivity.
    + intros Hbad. congruence.
  - split.
    + split.
      * intros (r & w' & Hrun). discriminate Hrun.
      * intros Heq. congruence.
    + reflexivity.
Qed.

(** C4 (as the code has it). A transaction with a PKCE challenge and no
    provider tokens can be redeemed: the exchange with a valid code and the
    matching verifier returns a freshly minted RS token pair and consumes
    the code and the transaction, but it creates no record for the pair, so
    the token indices and the record objects of the store are as they were
    before the exchange. *)
Theorem C4_exchange_without_provider_tokens_mints_unbacked_pair
    e w (code verifier txnId : string) (txn : Transaction.t)
    (cfg : option Flow.ProviderConfig) :
  resolves e w code txnId txn ->
  Transaction.provider txn = None ->
  sha256B64UrlAsync verifier = Transaction.codeChallenge txn ->
  exists r w',
    Flow.handleToken (AuthorizationCode code verifier) cfg e w = Ok r w'
    /\ TokenResult.access_token r = base64UrlEncode (randomBytes e (drawn w) 24)
    /\ TokenResult.refresh_token r
       = base64UrlEncode (randomBytes e (Datatypes.S (drawn w)) 24)
    /\ heap (store w') = heap (store w)
    /\ rsAccessMap (store w') = rsAccessMap (store w)
    /\ rsRefreshMap (store w') = rsRefreshMap (store w)
    /\ JsMap.get code (codes (store w')) = None
    /\ JsMap.get txnId (transactions (store w')) = None.
Proof.
  intros Hres Hprov Hpkce.
  rewrite (handleToken_code_prefix e w code verifier cfg txnId txn Hres).
  rewrite Hpkce, String.eqb_refl, Hprov. cbv zeta.
  eexists. eexists. split; [reflexivity|]. simpl.
  repeat split; apply get_delete_eq.
Qed.

End CodeGrantProperties.

(** ** The refresh controller on the in-memory store *)

Section RefreshRuns.
Context {platform : Platform}.
Implicit Types (e : Env) (w : World MemoryTokenStore).

Lemma markedAt_get nowMs rsToken marks :
  JsMap.get rsToken (Refresh.markedAt nowMs rsToken marks) = Some nowMs.
Proof.
  unfold Refresh.markedAt.
  destruct (JsMap.size _ >? 1000); [|apply get_set_eq].
  apply get_retain_keep; [apply get_set_eq|].
  rewrite Z.sub_diag. reflexivity.
Qed.

(** What the call does once a refresh is due. *)
Lemma ensureFreshToken_due e w rsToken l entry rt config :
  refreshDue e w rsToken l entry rt ->
  Refresh.ensureFreshToken rsToken (Some config) e w
  = match Refresh.tokenRequest config with
    | Raised message => Throw message w
    | Done _ =>
        match tokenEndpoint e rt with
        | HttpOk data =>
            if String.eqb (orEmpty (data_access_token data)) ""
            then Ok (staleResult entry) (withFetch rt w)
            else
              let newTokens :=
                tokensOfResponse (now e) (orEmpty (data_access_token data)) rt data in
              let newRsAccess :=
                if Refresh.differs (refresh_token newTokens) (Some rt) then None
                else Some (rs_access_token (rsRecord entry)) in
              Ok {| Refresh.accessToken := access_token newTokens;
                    Refresh.wasRefreshed := true |}
                 {| store :=
                      snd (Memory.updateByRsRefresh (now e)
                             (rs_refresh_token (rsRecord entry)) newTokens newRsAccess
                             DEFAULT_RS_TOKEN_TTL_MS (store w));
                    recentlyRefreshed :=
                      Refresh.markedAt (now e) rsToken (recentlyRefreshed w);
                    drawn := drawn w;
                    fetches := rt :: fetches w |}
        | _ => Ok (staleResult entry) (withFetch rt w)
        end
    end.
Proof.
  intros [Hlive Htok Hexp Hcool Hrt Hset].
  unfold Refresh.ensureFreshToken, bind.
  rewrite run_getByRsAccess, Hlive. cbn [fst snd option_map]. unfold objRecord. cbn [snd].
  rewrite withStore_id.
  apply String.eqb_neq in Htok. rewrite Htok.
  unfold dateNow. rewrite Hexp. cbn [negb].
  unfold Refresh.shouldSkipRefresh.
  rewrite Hcool, Hrt.
  assert (Htr : truthy (Some rt) = true).
  { simpl. apply String.eqb_neq in Hset. now rewrite Hset. }
  rewrite Htr. cbn [negb nullish].
  unfold Refresh.refreshProviderToken, bind, attempt, fetchToken.
  destruct (Refresh.tokenRequest config) as [url|message]; [|reflexivity].
  fold (withFetch rt w).
  destruct (tokenEndpoint e rt) as [msg|status text|data]; try reflexivity.
  destruct (String.eqb (orEmpty (data_access_token data)) ""); [reflexivity|].
  unfold dateNow, ret. cbn [Refresh.success Refresh.tokens].
  unfold tryCatch, bind. rewrite run_updateByRsRefresh.
  unfold Refresh.markRefreshed. reflexivity.
Qed.

Lemma getByRsAccess_found nowMs k s o :
  fst (Memory.getByRsAccess nowMs k s) = Some o ->
  Memory.getByRsAccess nowMs k s = (Some o, s).
Proof.
  unfold Memory.getByRsAccess.
  destruct (Memory.lookupObj _ _ _) as [[l entry]|]; [|discriminate].
  destruct (nowMs >=? expiresAt entry); [discriminate|].
  simpl. now intros ->.
Qed.

Lemma getByRsRefresh_found nowMs k s o :
  fst (Memory.getByRsRefresh nowMs k s) = Some o ->
  Memory.getByRsRefresh nowMs k s = (Some o, s).
Proof.
  unfold Memory.getByRsRefresh.
  destruct (Memory.lookupObj _ _ _) as [[l entry]|]; [|discriminate].
  destruct (nowMs >=? expiresAt entry); [discriminate|].
  simpl. now intros ->.
Qed.

(** Either a refresh is due and a provider is configured, or the call
    returns without turning to the provider and without touching the
    throttle map. *)
Lemma ensureFreshToken_cases e w rsToken cfg :
  (exists l entry rt config,
      cfg = Some config /\ refreshDue e w rsToken l entry rt)
  \/ (exists r w',
        Refresh.ensureFreshToken rsToken cfg e w = Ok r w'
        /\ Refresh.wasRefreshed r = false
        /\ fetches w' = fetches w
        /\ recentlyRefreshed w' = recentlyRefreshed w).
Proof.
  unfold Refresh.ensureFreshToken, bind. rewrite run_getByRsAccess.
  destruct (fst (Memory.getByRsAccess (now e) rsToken (store w)))
    as [[l entry]|] eqn:Hlook.
  2:{ right. eexists. eexists. split; [reflexivity|]. now repeat split. }
  apply getByRsAccess_found in Hlook. rewrite Hlook.
  cbn [fst snd option_map]. unfold objRecord. cbn [snd]. rewrite withStore_id.
  destruct (String.eqb_spec (access_token (provider (rsRecord entry))) "")
    as [Hempty|Htok].
  { right. eexists. eexists. split; [reflexivity|]. now repeat split. }
  unfold dateNow.
  destruct (Refresh.isTokenExpiredOrExpiring (now e) _ _) eqn:Hexp; cbn [negb].
  2:{ right. eexists. eexists. split; [reflexivity|]. now repeat split. }
  unfold Refresh.shouldSkipRefresh.
  destruct (Refresh.inCooldown (now e) (recentlyRefreshed w) rsToken) eqn:Hcool.
  { right. eexists. eexists. split; [reflexivity|]. now repeat split. }
  destruct (truthy (refresh_token (provider (rsRecord entry)))) eqn:Htr; cbn [negb].
  2:{ right. eexists. eexists. split; [reflexivity|]. now repeat split. }
  destruct cfg as [config|].
  2:{ right. eexists. eexists. split; [reflexivity|]. now repeat split. }
  left. destruct (refresh_token (provider (rsRecord entry))) as [rt|] eqn:Hrt;
    [|discriminate].
  exists l, entry, rt, config. split; [reflexivity|].
  constructor; try assumption.
  simpl in Htr. intros ->. discriminate.
Qed.

(** On the in-memory store the call returns, unless a refresh is due and
    the request to the provider cannot be built: what is thrown then leaves
    the call, and nothing has changed. *)
Lemma ensureFreshToken_returns e w rsToken cfg :
  (exists r w', Refresh.ensureFreshToken rsToken cfg e w = Ok r w')
  \/ (exists config message,
        cfg = Some config
        /\ Refresh.tokenRequest config = Raised message
        /\ Refresh.ensureFreshToken rsToken cfg e w = Throw message w).
Proof.
  destruct (ensureFreshToken_cases e w rsToken cfg)
    as [(l & entry & rt & config & -> & Hdue)|(r & w' & Hrun & _)].
  - rewrite (ensureFreshToken_due _ _ _ _ _ _ config Hdue).
    destruct (Refresh.tokenRequest config) as [url|message] eqn:Hreq.
    + left. destruct (tokenEndpoint e rt) as [msg|status text|data]; eauto.
      destruct (String.eqb (orEmpty (data_access_token data)) ""); eauto.
    + right. exists config, message. auto.
  - left. eauto.
Qed.

End RefreshRuns.

Section RefreshProperties.
Context {platform : Platform}.
Implicit Types (e : Env) (w : World MemoryTokenStore).

Lemma getByRsAccess_Some_inv nowMs k s l entry s' :
  Memory.getByRsAccess nowMs k s = (Some (l, entry), s') ->
  JsMap.get k (rsAccessMap s) = Some l
  /\ heap s !! l = Some entry
  /\ nowMs < expiresAt entry.
Proof.
  unfold Memory.getByRsAccess.
  destruct (Memory.lookupObj _ _ _) as [[l0 e0]|] eqn:Hlook; [|discriminate].
  destruct (Z.geb_spec nowMs (expiresAt e0)); [discriminate|].
  intros Heq. inversion Heq; subst.
  apply lookupObj_Some in Hlook. destruct Hlook. auto.
Qed.

Lemma getByRsRefresh_Some_inv nowMs k s l entry s' :
  Memory.getByRsRefresh nowMs k s = (Some (l, entry), s') ->
  JsMap.get k (rsRefreshMap s) = Some l
  /\ heap s !! l = Some entry
  /\ nowMs < expiresAt entry.
Proof.
  unfold Memory.getByRsRefresh.
  destruct (Memory.lookupObj _ _ _) as [[l0 e0]|] eqn:Hlook; [|discriminate].
  destruct (Z.geb_spec nowMs (expiresAt e0)); [discriminate|].
  intros Heq. inversion Heq; subst.
  apply lookupObj_Some in Hlook. destruct Hlook. auto.
Qed.

(** Setting a key to the value it already has, directly or after deleting
    it, leaves every lookup as it was. *)
Lemma get_set_same {V} (k k' : string) (v : V) (m : JsMap.t V) :
  JsMap.get k m = Some v -> JsMap.get k' (JsMap.set k v m) = JsMap.get k' m.
Proof.
  intros Hk. destruct (String.eqb_spec k k') as [<-|Hne].
  - now rewrite get_set_eq.
  - now apply get_set_ne.
Qed.

Lemma get_set_delete_same {V} (k k' : string) (v : V) (m : JsMap.t V) :
  JsMap.get k m = Some v ->
  JsMap.get k' (JsMap.set k v (JsMap.delete k m)) = JsMap.get k' m.
Proof.
  intros Hk. destruct (String.eqb_spec k k') as [<-|Hne].
  - now rewrite get_set_eq.
  - rewrite get_set_ne by assumption. now apply get_delete_ne.
Qed.

(** C1 (what the code does). In the proactive refresh path, when the
    provider token of a stored record is within the expiry buffer, the
    request to the provider can be built and the refresh succeeds, the
    provider tokens of the record are replaced but the RS access token is
    not rotated, whether or not the provider sent a new refresh token: the
    access-token index resolves every token exactly as before, and the
    record still carries the RS access token it had. *)
Theorem C1_refresh_keeps_rs_access_token
    e w (rsToken : string) (l : nat) (entry : RsEntry) (rt : string)
    (config : Refresh.ProviderRefreshConfig) (url : string) (data : TokenData) :
  refreshDue e w rsToken l entry rt ->
  rs_access_token (rsRecord entry) = rsToken ->
  JsMap.get (rs_refresh_token (rsRecord entry)) (rsRefreshMap (store w)) = Some l ->
  Refresh.tokenRequest config = Done url ->
  tokenEndpoint e rt = HttpOk data ->
  orEmpty (data_access_token data) <> "" ->
  exists w' entry',
    Refresh.ensureFreshToken rsToken (Some config) e w
    = Ok {| Refresh.accessToken := orEmpty (data_access_token data);
            Refresh.wasRefreshed := true |} w'
    /\ (forall k, JsMap.get k (rsAccessMap (store w'))
                  = JsMap.get k (rsAccessMap (store w)))
    /\ heap (store w') !! l = Some entry'
    /\ rs_access_token (rsRecord entry') = rsToken
    /\ provider (rsRecord entry')
       = tokensOfResponse (now e) (orEmpty (data_access_token data)) rt data.
Proof.
  intros Hdue Hfield Hidx Hreq Hreply Hat.
  rewrite (ensureFreshToken_due _ _ _ _ _ _ config Hdue), Hreq, Hreply.
  apply String.eqb_neq in Hat. rewrite Hat. cbv zeta.
  destruct (getByRsAccess_Some_inv _ _ _ _ _ _ (due_live _ _ _ _ _ _ Hdue))
    as (Hacc & Hheap & _).
  assert (Hlt : (l < length (heap (store w)))%nat) by (eapply lookup_lt_Some; eauto).
  assert (Hlook : Memory.lookupObj (rsRefreshMap (store w))
                    (rs_refresh_token (rsRecord entry)) (store w) = Some (l, entry)).
  { apply lookupObj_Some. now split. }
  unfold Memory.updateByRsRefresh. rewrite Hlook, Hfield.
  destruct (Refresh.differs _ _).
  - (* the provider sent a new refresh token: [newRsAccess] is [undefined] *)
    cbn [truthy snd]. eexists. eexists. split; [reflexivity|].
    cbn [store rsAccessMap heap].
    split; [intros k; now apply get_set_same|].
    split; [now apply list_lookup_insert_eq|]. split; reflexivity.
  - (* the same refresh token: [newRsAccess] is the current access token *)
    destruct (truthy (Some rsToken)) eqn:Htr; cbn [snd nullish].
    + eexists. eexists. split; [reflexivity|].
      cbn [store rsAccessMap heap rsRecord rs_access_token].
      split; [intros k; now apply get_set_delete_same|].
      split; [now apply list_lookup_insert_eq|]. split; reflexivity.
    + eexists. eexists. split; [reflexivity|].
      cbn [store rsAccessMap heap rsRecord rs_access_token].
      split; [intros k; now apply get_set_same|].
      split; [now apply list_lookup_insert_eq|]. split; reflexivity.
Qed.

(** A call made while the RS token is in its cooldown does not turn to the
    provider. *)
Lemma ensureFreshToken_in_cooldown e w rsToken cfg :
  Refresh.inCooldown (now e) (recentlyRefreshed w) rsToken = true ->
  exists r w',
    Refresh.ensureFreshToken rsToken cfg e w = Ok r w'
    /\ fetches w' = fetches w.
Proof.
  intros Hcool.
  destruct (ensureFreshToken_cases e w rsToken cfg)
    as [(l & entry & rt & config & _ & Hdue)|(r & w' & Hrun & _ & Hf & _)].
  - rewrite (due_no_cooldown _ _ _ _ _ _ Hdue) in Hcool. discriminate.
  - eauto.
Qed.

Lemma inCooldown_marked nowMs later rsToken marks :
  nowMs <> 0 -> later - nowMs < Refresh.REFRESH_COOLDOWN_MS ->
  Refresh.inCooldown later (Refresh.markedAt nowMs rsToken marks) rsToken = true.
Proof.
  intros Hnz Hwin. unfold Refresh.inCooldown. rewrite markedAt_get. simpl.
  apply Z.eqb_neq in Hnz. rewrite Hnz. simpl.
  now apply Z.ltb_lt.
Qed.

(** The cooldown test stays negative as the clock advances. *)
Lemma inCooldown_later t1 t2 marks rsToken :
  t1 <= t2 -> Refresh.inCooldown t1 marks rsToken = false ->
  Refresh.inCooldown t2 marks rsToken = false.
Proof.
  unfold Refresh.inCooldown. intros Hle.
  destruct (truthyZ (JsMap.get rsToken marks)); [|reflexivity]. simpl.
  rewrite !Z.ltb_ge. lia.
Qed.

Lemma isTokenExpiredOrExpiring_later t1 t2 expiresAt bufferMs :
  t1 <= t2 ->
  Refresh.isTokenExpiredOrExpiring t1 expiresAt bufferMs = true ->
  Refresh.isTokenExpiredOrExpiring t2 expiresAt bufferMs = true.
Proof.
  unfold Refresh.isTokenExpiredOrExpiring. intros Hle.
  destruct (truthyZ expiresAt); simpl; [|discriminate].
  destruct (Z.geb_spec t1 (nullish expiresAt 0 - bufferMs)); [|discriminate].
  intros _. destruct (Z.geb_spec t2 (nullish expiresAt 0 - bufferMs)); [reflexivity|lia].
Qed.

(** C8. The cooldown is marked only by a refresh that succeeds.  After a
    call that refreshed (at an instant other than the epoch) the provider
    was called once, and a second call for the same RS access token made
    less than [REFRESH_COOLDOWN_MS] after the first returns without another
    provider call, whatever the state of the token.  After a call that
    turned to the provider and did not refresh, the throttle map is as it
    was, and the next call for that token, as long as the store still
    resolves it, calls the provider again. *)
Theorem C8_cooldown_only_after_successful_refresh
    (e1 e2 : Env) w (rsToken : string)
    (cfg : option Refresh.ProviderRefreshConfig)
    (r1 : Refresh.FreshToken) (w1 : World MemoryTokenStore) :
  Refresh.ensureFreshToken rsToken cfg e1 w = Ok r1 w1 ->
  (Refresh.wasRefreshed r1 = true ->
   now e1 <> 0 ->
   now e2 - now e1 < Refresh.REFRESH_COOLDOWN_MS ->
   (exists rt, fetches w1 = rt :: fetches w)
   /\ forall cfg', exists r2 w2,
        Refresh.ensureFreshToken rsToken cfg' e2 w1 = Ok r2 w2
        /\ fetches w2 = fetches w1)
  /\
  (Refresh.wasRefreshed r1 = false ->
   fetches w1 <> fetches w ->
   now e1 <= now e2 ->
   fst (Memory.getByRsAccess (now e2) rsToken (store w1)) <> None ->
   recentlyRefreshed w1 = recentlyRefreshed w
   /\ exists rt r2 w2,
        fetches w1 = rt :: fetches w
        /\ Refresh.ensureFreshToken rsToken cfg e2 w1 = Ok r2 w2
        /\ fetches w2 = rt :: fetches w1).
Proof.
  intros Hrun.
  destruct (ensureFreshToken_cases e1 w rsToken cfg)
    as [(l & entry & rt & config & -> & Hdue)|(r & w' & Hrun' & Hr & Hf & Hm)].
  2:{ rewrite Hrun in Hrun'. inversion Hrun'; subst r w'. split.
      - intros Htrue. congruence.
      - intros _ Hgrew. congruence. }
  rewrite (ensureFreshToken_due _ _ _ _ _ _ config Hdue) in Hrun.
  destruct (Refresh.tokenRequest config) as [url|message] eqn:Hreq;
    [|discriminate Hrun].
  split.
  - intros Hok Hnz Hwin.
    destruct (tokenEndpoint e1 rt) as [msg|status text|data];
      try (inversion Hrun; subst r1; discriminate Hok).
    destruct (String.eqb (orEmpty (data_access_token data)) "");
      [inversion Hrun; subst r1; discriminate Hok|].
    cbv zeta in Hrun. inversion Hrun as [[Hr Hw]]. clear Hrun Hr.
    split; [exists rt; reflexivity|].
    intros cfg'. apply ensureFreshToken_in_cooldown.
    cbn [recentlyRefreshed]. now apply inCooldown_marked.
  - intros Hfail Hgrew Hle Hstill.
    assert (Hw1 : w1 = withFetch rt w).
    { destruct (tokenEndpoint e1 rt) as [msg|status text|data];
        try (now inversion Hrun).
      destruct (String.eqb (orEmpty (data_access_token data)) "");
        [now inversion Hrun|].
      cbv zeta in Hrun. inversion Hrun; subst r1. discriminate Hfail. }
    subst w1. split; [reflexivity|].
    destruct (getByRsAccess_Some_inv _ _ _ _ _ _
                (due_live _ _ _ _ _ _ Hdue)) as (Hacc & Hheap & _).
    assert (Hdue2 : refreshDue e2 (withFetch rt w) rsToken l entry rt).
    { destruct Hdue as [Hlive Htok Hexp Hcool Hrt Hset].
      constructor; try assumption.
      - cbn [store withFetch] in *.
        unfold Memory.getByRsAccess in *.
        rewrite (proj2 (lookupObj_Some _ _ _ _ _) (conj Hacc Hheap)) in *.
        destruct (now e2 >=? expiresAt entry); [|reflexivity].
        exfalso. now apply Hstill.
      - eapply isTokenExpiredOrExpiring_later; eauto.
      - cbn [recentlyRefreshed withFetch]. eapply inCooldown_later; eauto. }
    rewrite (ensureFreshToken_due _ _ _ _ _ _ config Hdue2), Hreq.
    exists rt.
    destruct (tokenEndpoint e2 rt) as [msg|status text|data];
      try (eexists; eexists; split; [reflexivity|split; reflexivity]).
    destruct (String.eqb (orEmpty (data_access_token data)) "");
      eexists; eexists; (split; [reflexivity|split; reflexivity]).
Qed.

End RefreshProperties.

(** ** Records without a provider expiry *)

Section UndatedTokens.
Context {platform : Platform}.

(** Whatever the store, a resolved record whose provider tokens carry no
    expiry is handed back as it is: the call ends right after the lookup. *)
Lemma ensureFreshToken_no_expiry {S : Type} `{TokenStore S}
    (e : Env) (w w1 : World S) (rsToken : string)
    (cfg : option Refresh.ProviderRefreshConfig) (record : RsRecord) :
  getByRsAccess rsToken e w = Ok (Some record) w1 ->
  expires_at (provider record) = None ->
  Refresh.ensureFreshToken rsToken cfg e w
  = Ok {| Refresh.accessToken := access_token (provider record);
          Refresh.wasRefreshed := false |} w1.
Proof.
  intros Hlook Hnone. unfold Refresh.ensureFreshToken, bind. rewrite Hlook.
  destruct (String.eqb_spec (access_token (provider record)) "") as [->|Hne].
  - reflexivity.
  - unfold dateNow. rewrite Hnone. reflexivity.
Qed.

(** C10. A record whose provider tokens have no [expires_at] is treated in
    two ways.  [isTokenExpiredOrExpiring] answers [false] for it at any
    instant and with any buffer, so [ensureFreshToken] returns the stored
    provider access token with [wasRefreshed = false] and leaves the state,
    the list of provider calls included, untouched.  The [refresh_token]
    grant of [handleToken] reads a missing expiry as [0], so at any instant
    from the epoch on it takes the token for expiring, and when a provider is
    configured and the record holds a provider refresh token it turns to the
    provider: it calls the provider's refresh endpoint when the request can
    be built, and fails with [provider_refresh_failed], no call made, when
    it cannot. *)
Theorem C10_missing_expiry_is_fresh_for_one_path_and_expiring_for_the_other
    (e : Env) (w : World MemoryTokenStore) (l : nat) (entry : RsEntry) :
  expires_at (provider (rsRecord entry)) = None ->
  0 <= now e ->
  (forall nowMs bufferMs,
      Refresh.isTokenExpiredOrExpiring nowMs
        (expires_at (provider (rsRecord entry))) bufferMs = false)
  /\ (forall rsToken cfg,
        Memory.getByRsAccess (now e) rsToken (store w) = (Some (l, entry), store w) ->
        Refresh.ensureFreshToken rsToken cfg e w
        = Ok {| Refresh.accessToken := access_token (provider (rsRecord entry));
                Refresh.wasRefreshed := false |} w)
  /\ Flow.isExpiringSoon (now e) (rsRecord entry) = true
  /\ (forall rsRefresh config providerRefresh,
        Memory.getByRsRefresh (now e) rsRefresh (store w) = (Some (l, entry), store w) ->
        refresh_token (provider (rsRecord entry)) = Some providerRefresh ->
        providerRefresh <> "" ->
        (forall url,
           Flow.tokenRequest config = Done url ->
           fetches (outcomeWorld
                      (Flow.handleToken (RefreshToken rsRefresh) (Some config) e w))
           = providerRefresh :: fetches w)
        /\ (forall message,
              Flow.tokenRequest config = Raised message ->
              Flow.handleToken (RefreshToken rsRefresh) (Some config) e w
              = Throw "provider_refresh_failed" w)).
Proof.
  intros Hnone Hnow.
  assert (Hsoon : Flow.isExpiringSoon (now e) (rsRecord entry) = true).
  { unfold Flow.isExpiringSoon. rewrite Hnone. cbn [nullish].
    destruct (Z.geb_spec (now e) (0 - 60000)); [reflexivity|lia]. }
  split; [|split; [|split; [exact Hsoon|]]].
  - intros nowMs bufferMs. rewrite Hnone. reflexivity.
  - intros rsToken cfg Hlook.
    apply ensureFreshToken_no_expiry; [|exact Hnone].
    rewrite run_getByRsAccess, Hlook. cbn [fst snd option_map].
    now rewrite withStore_id.
  - intros rsRefresh config providerRefresh Hlook Hrt Hset.
    assert (Htr : truthy (Some providerRefresh) = true).
    { simpl. apply String.eqb_neq in Hset. now rewrite Hset. }
    assert (Hrun : Flow.handleToken (RefreshToken rsRefresh) (Some config) e w
                   = bind
                       (tryCatch (Flow.refreshProviderToken providerRefresh config)
                          (fun _ => throw "provider_refresh_failed"))
                       (fun prov =>
                          let* newAccess := generateOpaqueToken 24 in
                          let* updated :=
                            updateByRsRefresh rsRefresh prov (Some newAccess) in
                          let* n' := dateNow in
                          ret {| TokenResult.access_token := newAccess;
                                 TokenResult.refresh_token := rsRefresh;
                                 TokenResult.token_type := "bearer";
                                 TokenResult.expires_in :=
                                   if truthyZ (expires_at prov)
                                   then Z.max 1 ((nullish (expires_at prov) 0 - n') / 1000)
                                   else 3600;
                                 TokenResult.scope :=
                                   joinSpace
                                     (match updated with
                                      | Some u => nullish (scopes (provider u)) []
                                      | None => []
                                      end) |}) e w).
    { unfold Flow.handleToken. unfold bind at 1.
      rewrite run_getByRsRefresh, Hlook. cbn [fst snd option_map].
      unfold objRecord. cbn [snd]. rewrite withStore_id.
      unfold bind at 1. unfold dateNow at 1. rewrite Hsoon, Hrt, Htr.
      reflexivity. }
    rewrite Hrun. clear Hrun.
    unfold tryCatch, Flow.refreshProviderToken, bind, attempt, fetchToken.
    split.
    + intros url ->.
      destruct (tokenEndpoint e providerRefresh) as [msg|status text|data];
        try reflexivity.
      destruct (String.eqb (orEmpty (data_access_token data)) ""); [reflexivity|].
      unfold dateNow, ret, generateOpaqueToken.
      rewrite run_updateByRsRefresh. reflexivity.
    + intros message ->. reflexivity.
Qed.

End UndatedTokens.

(** ** The distributed store when its writes fail *)

Section KvDegradation.
Import MemoryFacts.

Lemma run_storeRsMapping_any rsAccess prov rsRefresh e (w : World MemoryTokenStore) :
  storeRsMapping rsAccess prov rsRefresh e w
  = Ok (objRecord
          (fst (Memory.storeRsMapping (now e) (uuidFor e rsRefresh (drawn w))
                  rsAccess prov rsRefresh DEFAULT_RS_TOKEN_TTL_MS (store w))))
       {| store :=
            snd (Memory.storeRsMapping (now e) (uuidFor e rsRefresh (drawn w))
                   rsAccess prov rsRefresh DEFAULT_RS_TOKEN_TTL_MS (store w));
          recentlyRefreshed := recentlyRefreshed w;
          drawn := drawnAfter rsRefresh (drawn w);
          fetches := fetches w |}.
Proof.
  simpl. unfold bind, ret, drawUUID, storeOp, onFst, uuidFor, drawnAfter.
  destruct rsRefresh as [r|]; cbn [store now drawn];
    now destruct (Memory.storeRsMapping _ _ rsAccess prov _ _ (store w)).
Qed.

(** After [storeRsMapping] the access token resolves to the object the
    call returned, which carries that token, the given provider tokens and
    an expiry one TTL after the write. *)
Lemma storeRsMapping_resolves nowMs uuid rsAccess prov rsRefresh ttlMs s :
  let r := Memory.storeRsMapping nowMs uuid rsAccess prov rsRefresh ttlMs s in
  JsMap.get rsAccess (rsAccessMap (snd r)) = Some (fst (fst r))
  /\ heap (snd r) !! fst (fst r) = Some (snd (fst r))
  /\ rs_access_token (rsRecord (snd (fst r))) = rsAccess
  /\ provider (rsRecord (snd (fst r))) = prov
  /\ expiresAt (snd (fst r)) = nowMs + ttlMs.
Proof.
  unfold Memory.storeRsMapping.
  destruct (if truthy rsRefresh then _ else _) as [[l e0]|] eqn:Hex; cbn [fst snd].
  - assert (Hlook : Memory.lookupObj
                      (rsRefreshMap
                         (Memory.withAccess
                            (evictOldest (Memory.createdOfObj (heap s))
                               (rsAccessMap s) MAX_RS_RECORDS 10) s))
                      (nullish rsRefresh "")
                      (Memory.withAccess
                         (evictOldest (Memory.createdOfObj (heap s))
                            (rsAccessMap s) MAX_RS_RECORDS 10) s)
                    = Some (l, e0)).
    { destruct (truthy rsRefresh); [exact Hex|discriminate]. }
    apply lookupObj_Some in Hlook. destruct Hlook as [_ Hheap]. simpl in Hheap.
    assert (Hlt : (l < length (heap s))%nat) by (eapply lookup_lt_Some; eauto).
    simpl. split; [apply get_set_eq|].
    split; [now apply list_lookup_insert_eq|]. now repeat split.
  - simpl. split; [apply get_set_eq|].
    split; [|now repeat split].
    rewrite lookup_app_r by lia. now rewrite Nat.sub_diag.
Qed.

(** For a refresh token the store does not know yet, the stored object is
    the record built from the arguments. *)
Lemma storeRsMapping_fresh nowMs uuid rsAccess prov r ttlMs s :
  JsMap.get r (rsRefreshMap s) = None ->
  snd (fst (Memory.storeRsMapping nowMs uuid rsAccess prov (Some r) ttlMs s))
  = {| rsRecord :=
         {| rs_access_token := rsAccess; rs_refresh_token := r;
            provider := prov; created_at := nowMs |};
       expiresAt := nowMs + ttlMs |}.
Proof.
  intros Hnone. unfold Memory.storeRsMapping. cbn [nullish].
  destruct (truthy (Some r)).
  - rewrite lookupObj_None by exact Hnone. reflexivity.
  - reflexivity.
Qed.

(** A write to the namespace that fails leaves the namespace as it was. *)
Lemma putJson_fails e (w : World KvTokenStore) key value expiration :
  kvFault e KvPut key <> None ->
  exists err, Kv.putJson key value expiration e w = Throw err w.
Proof.
  intros Hfail. unfold Kv.putJson, tryCatch, Kv.kvPut, throw.
  destruct (kvFault e KvPut key) as [msg|]; [|contradiction]. eauto.
Qed.

(** C6. Degradation of the distributed store.  When every write to the KV
    namespace fails, [storeRsMapping] still returns, without raising, the
    record built from its arguments; the namespace is unchanged and the
    in-process fallback has been written.  A later [getByRsAccess] of the
    returned access token (within the fallback's TTL, with the namespace
    readable and holding nothing under that token) finds nothing in the
    namespace and resolves the token through the fallback, to a record with
    that access token and those provider tokens; when the mapping was
    stored with a refresh token the fallback did not know, it is the
    returned record itself. *)
Theorem C6_failed_kv_writes_degrade_to_fallback
    (e e' : Env) (w : World KvTokenStore)
    (rsAccess : string) (prov : ProviderTokens) (rsRefresh : option string) :
  (forall key, kvFault e KvPut key <> None) ->
  kvFault e' KvGet ("rs:access:" ++ rsAccess) = None ->
  kv (store w) !! ("rs:access:" ++ rsAccess) = None ->
  now e' < now e + DEFAULT_RS_TOKEN_TTL_MS ->
  let written :=
    Memory.storeRsMapping (now e)
      (uuidFor e rsRefresh (drawnAfter rsRefresh (drawn w)))
      rsAccess prov rsRefresh DEFAULT_RS_TOKEN_TTL_MS (fallback (store w)) in
  exists rec w1 found,
    storeRsMapping rsAccess prov rsRefresh e w = Ok rec w1
    /\ rec = {| rs_access_token := rsAccess;
                rs_refresh_token := nullish rsRefresh (randomUUID e (drawn w));
                provider := prov;
                created_at := now e |}
    /\ kv (store w1) = kv (store w)
    /\ fallback (store w1) = snd written
    /\ Kv.getJson ("rs:access:" ++ rs_access_token rec) e' w1 = Ok None w1
    /\ Memory.getByRsAccess (now e') (rs_access_token rec) (fallback (store w1))
       = (Some (fst (fst written), found), fallback (store w1))
    /\ getByRsAccess (rs_access_token rec) e' w1 = Ok (Some (rsRecord found)) w1
    /\ rs_access_token (rsRecord found) = rsAccess
    /\ provider (rsRecord found) = prov
    /\ (forall r, rsRefresh = Some r ->
          JsMap.get r (rsRefreshMap (fallback (store w))) = None ->
          rsRecord found = rec).
Proof.
  intros Hfail Hread Hempty Hlive written.
  destruct (storeRsMapping_resolves (now e)
              (uuidFor e rsRefresh (drawnAfter rsRefresh (drawn w)))
              rsAccess prov rsRefresh DEFAULT_RS_TOKEN_TTL_MS (fallback (store w)))
    as (Hget & Hheap & Hacc & Hprov & Hexp).
  fold written in Hget, Hheap, Hacc, Hprov, Hexp.
  set (rec := {| rs_access_token := rsAccess;
                 rs_refresh_token := nullish rsRefresh (randomUUID e (drawn w));
                 provider := prov; created_at := now e |}).
  set (w1 := {| store := {| kv := kv (store w); fallback := snd written |};
                recentlyRefreshed := recentlyRefreshed w;
                drawn := drawnAfter rsRefresh (drawnAfter rsRefresh (drawn w));
                fetches := fetches w |}).
  assert (Hstore : storeRsMapping rsAccess prov rsRefresh e w = Ok rec w1).
  { change (Kv.storeRsMapping rsAccess prov rsRefresh e w = Ok rec w1).
    unfold Kv.storeRsMapping, bind.
    assert (Hdraw :
      (match rsRefresh with Some _ => ret "" | None => drawUUID end) e w
      = Ok (uuidFor e rsRefresh (drawn w))
           {| store := store w; recentlyRefreshed := recentlyRefreshed w;
              drawn := drawnAfter rsRefresh (drawn w); fetches := fetches w |}).
    { destruct rsRefresh; [destruct w|]; reflexivity. }
    rewrite Hdraw. unfold dateNow, Kv.onFallback, zoom.
    rewrite run_storeRsMapping_any. cbn [store drawn withStore recentlyRefreshed fetches].
    fold written.
    unfold tryCatch, promiseAll2.
    match goal with
    | |- context [Kv.putJson ?k1 ?v1 None e ?w0] =>
        destruct (putJson_fails e w0 k1 v1 None (Hfail k1)) as [err1 Hput1];
        rewrite Hput1
    end.
    match goal with
    | |- context [Kv.putJson ?k2 ?v2 None e ?w0] =>
        destruct (putJson_fails e w0 k2 v2 None (Hfail k2)) as [err2 Hput2];
        rewrite Hput2
    end.
    unfold ret. subst rec w1.
    destruct rsRefresh; reflexivity. }
  assert (Hjson : Kv.getJson ("rs:access:" ++ rsAccess) e' w1 = Ok None w1).
  { unfold Kv.getJson, Kv.kvGet. rewrite Hread.
    cbn [store kv w1]. now rewrite Hempty. }
  assert (Hmem : Memory.getByRsAccess (now e') rsAccess (snd written)
                 = (Some (fst (fst written), snd (fst written)), snd written)).
  { apply getByRsAccess_live; try assumption. rewrite Hexp. exact Hlive. }
  exists rec, w1, (snd (fst written)).
  split; [exact Hstore|]. split; [reflexivity|]. split; [reflexivity|].
  split; [reflexivity|]. split; [exact Hjson|]. split; [exact Hmem|].
  split.
  - change (Kv.getByRsAccess rsAccess e' w1
            = Ok (Some (rsRecord (snd (fst written)))) w1).
    unfold Kv.getByRsAccess, bind. rewrite Hjson. cbn [Kv.asRs].
    unfold Kv.onFallback, zoom. rewrite run_getByRsAccess.
    cbn [store withStore fallback w1]. rewrite Hmem. reflexivity.
  - split; [exact Hacc|]. split; [exact Hprov|].
    intros r -> Hnew. subst written rec.
    rewrite storeRsMapping_fresh by exact Hnew. reflexivity.
Qed.

End KvDegradation.

(** ** The properties on the scenarios *)

Section OnScenarios.
Import Scenario.

Lemma C5_witness_rotate_A1_to_A2 :
  exists rec' s',
    Memory.updateByRsRefresh t0 "R1" callbackTokens (Some "A2")
      DEFAULT_RS_TOKEN_TTL_MS oneMapping = (Some (0%nat, rec'), s')
    /\ Memory.getByRsAccess (t0 + 1) "A1" s' = (None, s')
    /\ Memory.getByRsAccess (t0 + 1) "A2" s' = (Some (0%nat, rec'), s')
    /\ Memory.getByRsRefresh (t0 + 1) "R1" s' = (Some (0%nat, rec'), s')
    /\ rs_refresh_token (rsRecord rec') = "R1"
    /\ rs_access_token (rsRecord rec') = "A2"
    /\ provider (rsRecord rec') = callbackTokens.
Proof.
  apply (C5_rotation_repoints_access_index oneMapping 0 expiringEntry "R1" "A2"
           callbackTokens t0 DEFAULT_RS_TOKEN_TTL_MS (t0 + 1)).
  - vm_compute. reflexivity.
  - reflexivity.
  - discriminate.
  - discriminate.
  - vm_compute. reflexivity.
Defined.

Lemma C7_witness_expired_mapping :
  (exists s',
     Memory.getByRsAccess (t0 + DEFAULT_RS_TOKEN_TTL_MS) "A1" oneMapping = (None, s')
     /\ JsMap.get "A1" (rsAccessMap s') = None
     /\ JsMap.get "R1" (rsRefreshMap s') = None
     /\ Memory.getByRsRefresh (t0 + DEFAULT_RS_TOKEN_TTL_MS + 1) "R1" s' = (None, s'))
  /\ (exists s',
     Memory.getByRsRefresh (t0 + DEFAULT_RS_TOKEN_TTL_MS) "R1" oneMapping = (None, s')
     /\ JsMap.get "R1" (rsRefreshMap s') = None
     /\ JsMap.get "A1" (rsAccessMap s') = None
     /\ Memory.getByRsAccess (t0 + DEFAULT_RS_TOKEN_TTL_MS + 1) "A1" s' = (None, s')).
Proof.
  split.
  - apply (proj1 (C7_expired_record_leaves_both_indices oneMapping 0 expiringEntry
                    "A1" (t0 + DEFAULT_RS_TOKEN_TTL_MS) (t0 + DEFAULT_RS_TOKEN_TTL_MS + 1)
                    eq_refl ltac:(vm_compute; discriminate))).
    reflexivity.
  - apply (proj2 (C7_expired_record_leaves_both_indices oneMapping 0 expiringEntry
                    "R1" (t0 + DEFAULT_RS_TOKEN_TTL_MS) (t0 + DEFAULT_RS_TOKEN_TTL_MS + 1)
                    eq_refl ltac:(vm_compute; discriminate))).
    reflexivity.
Defined.

Lemma C9_witness_store_at_capacity :
  let evicted := victims (Memory.createdOfObj (heap fullStore)) (rsAccessMap fullStore) 10 in
  let s' := snd (Memory.storeRsMapping t0 "" "A-new" callbackTokens (Some "R-new")
                   DEFAULT_RS_TOKEN_TTL_MS fullStore) in
  length evicted = 10%nat
  /\ In "a0" evicted
  /\ (forall k' l', In (k', l') (rsAccessMap fullStore) ->
        In k' evicted
        \/ created_at (rsRecord (nthEntry 0)) <= Memory.createdOfObj (heap fullStore) l')
  /\ Memory.getByRsAccess (t0 + 1) "a0" s' = (None, s')
  /\ Memory.getByRsRefresh (t0 + 1) (rs_refresh_token (rsRecord (nthEntry 0))) s'
     = (Some (0%nat, nthEntry 0), s')
  /\ (forall k', In k' evicted -> In k' (List.map fst (rsAccessMap fullStore)))
  /\ (uniqueKeys (rsAccessMap fullStore) -> List.NoDup evicted)
  /\ (forall k', In k' evicted -> k' <> "A-new" ->
        JsMap.get k' (rsAccessMap s') = None)
  /\ (forall k', ~ In k' evicted -> k' <> "A-new" ->
        (forall r l0 e0, Some "R-new" = Some r -> r <> "" ->
           JsMap.get r (rsRefreshMap fullStore) = Some l0 ->
           heap fullStore !! l0 = Some e0 ->
           k' <> rs_access_token (rsRecord e0)) ->
        JsMap.get k' (rsAccessMap s') = JsMap.get k' (rsAccessMap fullStore))
  /\ JsMap.get "A-new" (rsAccessMap s')
     = Some (fst (fst (Memory.storeRsMapping t0 "" "A-new" callbackTokens
                         (Some "R-new") DEFAULT_RS_TOKEN_TTL_MS fullStore)))
  /\ (forall r, r <> nullish (Some "R-new") "" ->
        JsMap.get r (rsRefreshMap s') = JsMap.get r (rsRefreshMap fullStore)).
Proof.
  refine (C9_eviction_spares_refresh_index fullStore t0 "" "A-new" callbackTokens
            (Some "R-new") DEFAULT_RS_TOKEN_TTL_MS "a0" 0 (nthEntry 0) (t0 + 1)
            _ _ _ _ _ _ _).
  - apply Z.leb_le. vm_compute. reflexivity.
  - vm_compute. left. reflexivity.
  - vm_compute. reflexivity.
  - vm_compute. reflexivity.
  - discriminate.
  - vm_compute. discriminate.
  - vm_compute. reflexivity.
Defined.

Lemma C2_witness_replay_of_code_1 :
  JsMap.get "code-1" (codes (store (outcomeWorld redeemed))) = None
  /\ (exists txnId,
        fst (Memory.getTxnIdByCode (now exchangeEnv) "code-1"
               (store (worldOf (pending (Some callbackTokens))))) = Some txnId
        /\ JsMap.get txnId (transactions (store (outcomeWorld redeemed))) = None)
  /\ forall e' verifier' cfg',
       Flow.handleToken (AuthorizationCode "code-1" verifier') cfg' e'
         (outcomeWorld redeemed)
       = Throw "invalid_grant" (outcomeWorld redeemed).
Proof.
  apply (C2_redeemed_code_cannot_be_replayed exchangeEnv
           (worldOf (pending (Some callbackTokens))) "code-1" verifier
           (Some flowConfig) redeemedResult (outcomeWorld redeemed)).
  vm_compute. reflexivity.
Defined.

Lemma pending_resolves prov :
  resolves exchangeEnv (worldOf (pending prov)) "code-1" "txn-1" (pendingTxn prov).
Proof. repeat split. discriminate. Qed.

Lemma C3_witness_right_and_wrong_verifier :
  (exists r w',
      Flow.handleToken (AuthorizationCode "code-1" verifier) None exchangeEnv
        (worldOf (pending (Some callbackTokens))) = Ok r w')
  /\ Flow.handleToken (AuthorizationCode "code-1" "not-the-verifier") None
       exchangeEnv (worldOf (pending (Some callbackTokens)))
     = Throw "invalid_grant" (worldOf (pending (Some callbackTokens))).
Proof.
  split.
  - apply (proj1 (C3_exchange_succeeds_iff_verifier_matches exchangeEnv
                    (worldOf (pending (Some callbackTokens))) "code-1" verifier
                    "txn-1" (pendingTxn (Some callbackTokens)) None
                    (pending_resolves (Some callbackTokens)))).
    vm_compute. reflexivity.
  - apply (proj2 (C3_exchange_succeeds_iff_verifier_matches exchangeEnv
                    (worldOf (pending (Some callbackTokens))) "code-1"
                    "not-the-verifier" "txn-1" (pendingTxn (Some callbackTokens))
                    None (pending_resolves (Some callbackTokens)))).
    vm_compute. discriminate.
Defined.

Lemma C4_counterexample_pending_transaction_without_provider :
  Transaction.provider (pendingTxn None) = None
  /\ Memory.getTxnIdByCode (now exchangeEnv) "code-1" (pending None)
     = (Some "txn-1", pending None)
  /\ Memory.getTransaction (now exchangeEnv) "txn-1" (pending None)
     = (Some (pendingTxn None), pending None)
  /\ sha256B64UrlAsync verifier = Transaction.codeChallenge (pendingTxn None)
  /\ exists w',
       Flow.handleToken (AuthorizationCode "code-1" verifier) (Some flowConfig)
         exchangeEnv (worldOf (pending None))
       = Ok {| TokenResult.access_token := "AQEBAQEBAQEBAQEBAQEBAQEBAQEBAQEB";
               TokenResult.refresh_token := "AgICAgICAgICAgICAgICAgICAgICAgIC";
               TokenResult.token_type := "bearer";
               TokenResult.expires_in := 3600;
               TokenResult.scope := "calendar" |} w'.
Proof.
  split; [reflexivity|]. split; [reflexivity|]. split; [reflexivity|].
  split; [vm_compute; reflexivity|].
  eexists. vm_compute. reflexivity.
Defined.

Lemma C4_witness_pending_transaction_without_provider :
  exists r w',
    Flow.handleToken (AuthorizationCode "code-1" verifier) (Some flowConfig)
      exchangeEnv (worldOf (pending None)) = Ok r w'
    /\ TokenResult.access_token r
       = base64UrlEncode (randomBytes exchangeEnv (drawn (worldOf (pending None))) 24)
    /\ TokenResult.refresh_token r
       = base64UrlEncode
           (randomBytes exchangeEnv (Datatypes.S (drawn (worldOf (pending None)))) 24)
    /\ heap (store w') = heap (store (worldOf (pending None)))
    /\ rsAccessMap (store w') = rsAccessMap (store (worldOf (pending None)))
    /\ rsRefreshMap (store w') = rsRefreshMap (store (worldOf (pending None)))
    /\ JsMap.get "code-1" (codes (store w')) = None
    /\ JsMap.get "txn-1" (transactions (store w')) = None.
Proof.
  apply (C4_exchange_without_provider_tokens_mints_unbacked_pair exchangeEnv
           (worldOf (pending None)) "code-1" verifier "txn-1" (pendingTxn None)
           (Some flowConfig) (pending_resolves None)).
  - reflexivity.
  - vm_compute. reflexivity.
Defined.

Lemma oneMapping_due endpoint :
  refreshDue (envAt t0 endpoint) (worldOf oneMapping) "A1" 0 expiringEntry "RT1".
Proof.
  constructor.
  - vm_compute. reflexivity.
  - discriminate.
  - vm_compute. reflexivity.
  - reflexivity.
  - reflexivity.
  - discriminate.
Qed.

Lemma C1_witness_provider_rotates_its_refresh_token :
  exists w' entry',
    Refresh.ensureFreshToken "A1" (Some config) (refreshEnv rotatedReply)
      (worldOf oneMapping)
    = Ok {| Refresh.accessToken := orEmpty (data_access_token rotatedReply);
            Refresh.wasRefreshed := true |} w'
    /\ (forall k, JsMap.get k (rsAccessMap (store w'))
                  = JsMap.get k (rsAccessMap (store (worldOf oneMapping))))
    /\ heap (store w') !! 0%nat = Some entry'
    /\ rs_access_token (rsRecord entry') = "A1"
    /\ provider (rsRecord entry')
       = tokensOfResponse (now (refreshEnv rotatedReply))
           (orEmpty (data_access_token rotatedReply)) "RT1" rotatedReply.
Proof.
  apply (C1_refresh_keeps_rs_access_token (refreshEnv rotatedReply)
           (worldOf oneMapping) "A1" 0 expiringEntry "RT1" config
           "https://accounts.example/token" rotatedReply (oneMapping_due _)).
  - reflexivity.
  - reflexivity.
  - reflexivity.
  - reflexivity.
  - discriminate.
Defined.

Lemma C8_witness_back_to_back_calls :
  ((exists rt, fetches (outcomeWorld refreshedOnce) = rt :: fetches (worldOf oneMapping))
   /\ forall cfg', exists r2 w2,
        Refresh.ensureFreshToken "A1" cfg' (envAt (t0 + 5000) (okEndpoint shortLivedReply))
          (outcomeWorld refreshedOnce) = Ok r2 w2
        /\ fetches w2 = fetches (outcomeWorld refreshedOnce))
  /\
  (recentlyRefreshed (outcomeWorld refreshFailed) = recentlyRefreshed (worldOf oneMapping)
   /\ exists rt r2 w2,
        fetches (outcomeWorld refreshFailed) = rt :: fetches (worldOf oneMapping)
        /\ Refresh.ensureFreshToken "A1" (Some config) (envAt (t0 + 1) downEndpoint)
             (outcomeWorld refreshFailed) = Ok r2 w2
        /\ fetches w2 = rt :: fetches (outcomeWorld refreshFailed)).
Proof.
  split.
  - apply (proj1 (C8_cooldown_only_after_successful_refresh
                    (platform := scenarioPlatform)
                    (refreshEnv shortLivedReply)
                    (envAt (t0 + 5000) (okEndpoint shortLivedReply))
                    (worldOf oneMapping) "A1" (Some config)
                    {| Refresh.accessToken := "AT2"; Refresh.wasRefreshed := true |}
                    (outcomeWorld refreshedOnce)
                    ltac:(vm_compute; reflexivity))).
    + reflexivity.
    + vm_compute. discriminate.
    + vm_compute. reflexivity.
  - apply (proj2 (C8_cooldown_only_after_successful_refresh
                    (platform := scenarioPlatform)
                    (envAt t0 downEndpoint) (envAt (t0 + 1) downEndpoint)
                    (worldOf oneMapping) "A1" (Some config)
                    {| Refresh.accessToken := "AT1"; Refresh.wasRefreshed := false |}
                    (outcomeWorld refreshFailed)
                    ltac:(vm_compute; reflexivity))).
    + reflexivity.
    + vm_compute. discriminate.
    + vm_compute. discriminate.
    + vm_compute. discriminate.
Defined.

Lemma C10_witness_undated_provider_tokens :
  (forall nowMs bufferMs,
      Refresh.isTokenExpiredOrExpiring nowMs
        (expires_at (provider (rsRecord undatedEntry))) bufferMs = false)
  /\ (forall rsToken cfg,
        Memory.getByRsAccess (now (envAt t0 downEndpoint)) rsToken
          (store (worldOf undatedMapping))
        = (Some (0%nat, undatedEntry), store (worldOf undatedMapping)) ->
        Refresh.ensureFreshToken rsToken cfg (envAt t0 downEndpoint)
          (worldOf undatedMapping)
        = Ok {| Refresh.accessToken := access_token (provider (rsRecord undatedEntry));
                Refresh.wasRefreshed := false |} (worldOf undatedMapping))
  /\ Flow.isExpiringSoon (now (envAt t0 downEndpoint)) (rsRecord undatedEntry) = true
  /\ (forall rsRefresh config providerRefresh,
        Memory.getByRsRefresh (now (envAt t0 downEndpoint)) rsRefresh
          (store (worldOf undatedMapping))
        = (Some (0%nat, undatedEntry), store (worldOf undatedMapping)) ->
        refresh_token (provider (rsRecord undatedEntry)) = Some providerRefresh ->
        providerRefresh <> "" ->
        (forall url,
           Flow.tokenRequest config = Done url ->
           fetches (outcomeWorld
                      (Flow.handleToken (RefreshToken rsRefresh) (Some config)
                         (envAt t0 downEndpoint) (worldOf undatedMapping)))
           = providerRefresh :: fetches (worldOf undatedMapping))
        /\ (forall message,
              Flow.tokenRequest config = Raised message ->
              Flow.handleToken (RefreshToken rsRefresh) (Some config)
                (envAt t0 downEndpoint) (worldOf undatedMapping)
              = Throw "provider_refresh_failed" (worldOf undatedMapping))).
Proof.
  apply (C10_missing_expiry_is_fresh_for_one_path_and_expiring_for_the_other
           (envAt t0 downEndpoint) (worldOf undatedMapping) 0 undatedEntry).
  - reflexivity.
  - vm_compute. discriminate.
Defined.

Lemma C6_witness_quota_exceeded :
  let written :=
    Memory.storeRsMapping (now (quotaEnv t0))
      (uuidFor (quotaEnv t0) (Some "R1")
         (drawnAfter (Some "R1") (drawn (worldOf emptyKv))))
      "A1" callbackTokens (Some "R1") DEFAULT_RS_TOKEN_TTL_MS
      (fallback (store (worldOf emptyKv))) in
  exists rec w1 found,
    storeRsMapping "A1" callbackTokens (Some "R1") (quotaEnv t0) (worldOf emptyKv)
    = Ok rec w1
    /\ rec = {| rs_access_token := "A1";
                rs_refresh_token :=
                  nullish (Some "R1")
                    (randomUUID (quotaEnv t0) (drawn (worldOf emptyKv)));
                provider := callbackTokens;
                created_at := now (quotaEnv t0) |}
    /\ kv (store w1) = kv (store (worldOf emptyKv))
    /\ fallback (store w1) = snd written
    /\ Kv.getJson ("rs:access:" ++ rs_access_token rec) (quotaEnv (t0 + 1000)) w1
       = Ok None w1
    /\ Memory.getByRsAccess (now (quotaEnv (t0 + 1000))) (rs_access_token rec)
         (fallback (store w1))
       = (Some (fst (fst written), found), fallback (store w1))
    /\ getByRsAccess (rs_access_token rec) (quotaEnv (t0 + 1000)) w1
       = Ok (Some (rsRecord found)) w1
    /\ rs_access_token (rsRecord found) = "A1"
    /\ provider (rsRecord found) = callbackTokens
    /\ (forall r, Some "R1" = Some r ->
          JsMap.get r (rsRefreshMap (fallback (store (worldOf emptyKv)))) = None ->
          rsRecord found = rec).
Proof.
  apply (C6_failed_kv_writes_degrade_to_fallback (quotaEnv t0) (quotaEnv (t0 + 1000))
           (worldOf emptyKv) "A1" callbackTokens (Some "R1")).
  - intros key. discriminate.
  - reflexivity.
  - apply lookup_empty.
  - vm_compute. reflexivity.
Defined.

End OnScenarios.

(** * Further properties of the code *)

(** ** The refresh-token grant *)

Section RefreshGrant.
Context {platform : Platform}.
Implicit Types (e : Env) (w : World MemoryTokenStore).

(** The grant, for a refresh token that resolves. *)
Lemma handleToken_refresh_run e w refreshToken cfg l entry :
  Memory.getByRsRefresh (now e) refreshToken (store w) = (Some (l, entry), store w) ->
  Flow.handleToken (RefreshToken refreshToken) cfg e w
  = match Flow.isExpiringSoon (now e) (rsRecord entry), cfg with
    | true, Some c =>
        if negb (truthy (refresh_token (provider (rsRecord entry))))
        then Throw "provider_token_expired" w
        else
          match Flow.tokenRequest c with
          | Raised _ => Throw "provider_refresh_failed" w
          | Done _ =>
              let sent := nullish (refresh_token (provider (rsRecord entry))) "" in
              if replyUsable (tokenEndpoint e sent)
              then finishRefreshGrant e (withFetch sent w) refreshToken
                     (replyTokens (now e) sent (tokenEndpoint e sent))
              else Throw "provider_refresh_failed" (withFetch sent w)
          end
    | _, _ => finishRefreshGrant e w refreshToken (provider (rsRecord entry))
    end.
Proof.
  intros Hlook. unfold Flow.handleToken, bind.
  rewrite run_getByRsRefresh, Hlook. cbn [fst snd option_map].
  unfold objRecord. cbn [snd]. rewrite withStore_id.
  unfold dateNow.
  assert (Hfinish : forall w0 prov,
    match generateOpaqueToken 24 e w0 with
    | Ok a1 w1 =>
        match updateByRsRefresh refreshToken prov (Some a1) e w1 with
        | Ok a2 w2 =>
            ret {| TokenResult.access_token := a1;
                   TokenResult.refresh_token := refreshToken;
                   TokenResult.token_type := "bearer";
                   TokenResult.expires_in :=
                     if truthyZ (expires_at prov)
                     then Z.max 1 ((nullish (expires_at prov) 0 - now e) / 1000)
                     else 3600;
                   TokenResult.scope :=
                     joinSpace
                       (match a2 with
                        | Some u => nullish (scopes (provider u)) []
                        | None => []
                        end) |} e w2
        | Throw err w2 => Throw err w2
        end
    | Throw err w1 => Throw err w1
    end = finishRefreshGrant e w0 refreshToken prov).
  { intros w0 prov. unfold generateOpaqueToken, finishRefreshGrant.
    rewrite run_updateByRsRefresh. cbn [store drawn withStore].
    unfold ret.
    destruct (Memory.updateByRsRefresh _ _ _ _ _ _) as [[o|] s']; reflexivity. }
  destruct (Flow.isExpiringSoon (now e) (rsRecord entry)); [|apply Hfinish].
  destruct cfg as [c|]; [|apply Hfinish].
  destruct (truthy (refresh_token (provider (rsRecord entry)))); cbn [negb];
    [|reflexivity].
  unfold tryCatch, Flow.refreshProviderToken, bind, attempt, fetchToken.
  destruct (Flow.tokenRequest c) as [url|message]; [|reflexivity].
  fold (withFetch (nullish (refresh_token (provider (rsRecord entry))) "") w).
  destruct (tokenEndpoint e _) as [msg|status text|data]; cbn [replyUsable replyTokens];
    try reflexivity.
  destruct (String.eqb (orEmpty (data_access_token data)) ""); cbn [negb];
    [reflexivity|].
  unfold dateNow. apply Hfinish.
Qed.

End RefreshGrant.

Section RefreshGrantProperties.
Context {platform : Platform}.
Implicit Types (e : Env) (w : World MemoryTokenStore).

(** Rotating the access token of a record found under its refresh token. *)
Lemma updateByRsRefresh_rotates nowMs ttlMs later s l rec rsRefresh newRsAccess prov :
  Memory.lookupObj (rsRefreshMap s) rsRefresh s = Some (l, rec) ->
  newRsAccess <> "" ->
  later < nowMs + ttlMs ->
  let rec' :=
    {| rsRecord :=
         {| rs_access_token := newRsAccess;
            rs_refresh_token := rs_refresh_token (rsRecord rec);
            provider := prov;
            created_at := nowMs |};
       expiresAt := nowMs + ttlMs |} in
  let s' := snd (Memory.updateByRsRefresh nowMs rsRefresh prov (Some newRsAccess) ttlMs s) in
  fst (Memory.updateByRsRefresh nowMs rsRefresh prov (Some newRsAccess) ttlMs s)
  = Some (l, rec')
  /\ Memory.getByRsAccess later newRsAccess s' = (Some (l, rec'), s')
  /\ Memory.getByRsRefresh later rsRefresh s' = (Some (l, rec'), s')
  /\ (newRsAccess <> rs_access_token (rsRecord rec) ->
      Memory.getByRsAccess later (rs_access_token (rsRecord rec)) s' = (None, s')).
Proof.
  intros Hlook Hne Hlive rec' s'.
  pose proof Hlook as Hl. apply lookupObj_Some in Hl. destruct Hl as [Hget Hheap].
  assert (Hlt : (l < length (heap s))%nat) by (eapply lookup_lt_Some; eauto).
  assert (Htruthy : truthy (Some newRsAccess) = true).
  { simpl. apply String.eqb_neq in Hne. now rewrite Hne. }
  subst s' rec'. unfold Memory.updateByRsRefresh. rewrite Hlook, Htruthy.
  cbn [fst snd nullish]. split; [reflexivity|]. split; [|split].
  - apply getByRsAccess_live; simpl;
      [apply get_set_eq|now apply list_lookup_insert_eq|assumption].
  - apply getByRsRefresh_live; simpl;
      [apply get_set_eq|now apply list_lookup_insert_eq|assumption].
  - intros Hnew. apply getByRsAccess_absent. simpl.
    rewrite get_set_ne by assumption. apply get_delete_eq.
Qed.

Lemma getByRsRefresh_lookupObj nowMs k s l entry s' :
  Memory.getByRsRefresh nowMs k s = (Some (l, entry), s') ->
  Memory.lookupObj (rsRefreshMap s) k s = Some (l, entry).
Proof.
  intros H. apply getByRsRefresh_Some_inv in H. destruct H as (Hk & Hh & _).
  apply lookupObj_Some. now split.
Qed.

(** X1.  An RS refresh token that the store does not hold, or whose record has
    outlived its TTL, is refused with [invalid_grant]: the provider is not
    called and no token is minted.  In the second case the lookup also drops
    the record from both indices, so its RS access token is dead as well. *)
Theorem refresh_grant_refuses_unknown_or_expired_token
    e w (refreshToken : string) (cfg : option Flow.ProviderConfig) :
  (JsMap.get refreshToken (rsRefreshMap (store w)) = None ->
   Flow.handleToken (RefreshToken refreshToken) cfg e w = Throw "invalid_grant" w)
  /\ (forall l entry,
        JsMap.get refreshToken (rsRefreshMap (store w)) = Some l ->
        heap (store w) !! l = Some entry ->
        expiresAt entry <= now e ->
        exists w',
          Flow.handleToken (RefreshToken refreshToken) cfg e w
          = Throw "invalid_grant" w'
          /\ fetches w' = fetches w
          /\ drawn w' = drawn w
          /\ JsMap.get refreshToken (rsRefreshMap (store w')) = None
          /\ JsMap.get (rs_access_token (rsRecord entry)) (rsAccessMap (store w'))
             = None).
Proof.
  split.
  - intros Habs. unfold Flow.handleToken, bind.
    rewrite run_getByRsRefresh, (getByRsRefresh_absent _ _ _ Habs).
    cbn [fst snd option_map]. unfold throw. now rewrite withStore_id.
  - intros l entry Hget Hheap Hexp.
    unfold Flow.handleToken, bind. rewrite run_getByRsRefresh.
    unfold Memory.getByRsRefresh.
    rewrite (proj2 (lookupObj_Some _ _ _ _ _) (conj Hget Hheap)).
    destruct (Z.geb_spec (now e) (expiresAt entry)); [|lia].
    cbn [fst snd option_map]. unfold throw.
    eexists. split; [reflexivity|]. simpl.
    repeat split; apply get_delete_eq.
Qed.

(** X2.  A refresh-token grant that succeeds returns the refresh token it was
    given and a newly minted access token, with a positive [expires_in].
    Until the record's renewed TTL runs out the new access token and the
    refresh token resolve to the same record, the access token the record had
    before resolves to nothing, and unless the provider was called the record
    is bound to the provider tokens it had. *)
Theorem refresh_grant_rotates_access_token_only
    e w (refreshToken : string) (cfg : option Flow.ProviderConfig)
    (l : nat) (entry : RsEntry) (r : TokenResult.t)
    (w' : World MemoryTokenStore) (later : Z) :
  Memory.getByRsRefresh (now e) refreshToken (store w) = (Some (l, entry), store w) ->
  Flow.handleToken (RefreshToken refreshToken) cfg e w = Ok r w' ->
  TokenResult.access_token r <> "" ->
  TokenResult.access_token r <> rs_access_token (rsRecord entry) ->
  later < now e + DEFAULT_RS_TOKEN_TTL_MS ->
  TokenResult.refresh_token r = refreshToken
  /\ TokenResult.access_token r = base64UrlEncode (randomBytes e (drawn w) 24)
  /\ 1 <= TokenResult.expires_in r
  /\ exists entry',
       Memory.getByRsAccess later (TokenResult.access_token r) (store w')
       = (Some (l, entry'), store w')
       /\ Memory.getByRsRefresh later refreshToken (store w')
          = (Some (l, entry'), store w')
       /\ Memory.getByRsAccess later (rs_access_token (rsRecord entry)) (store w')
          = (None, store w')
       /\ rs_refresh_token (rsRecord entry') = rs_refresh_token (rsRecord entry)
       /\ (fetches w' = fetches w ->
           provider (rsRecord entry') = provider (rsRecord entry))
       /\ TokenResult.scope r
          = joinSpace (nullish (scopes (provider (rsRecord entry'))) []).
Proof.
  intros Hlook Hrun Hne Hnew Hlive.
  rewrite (handleToken_refresh_run _ _ _ _ _ _ Hlook) in Hrun.
  pose proof (getByRsRefresh_lookupObj _ _ _ _ _ _ Hlook) as Hobj.
  assert (Hfin : forall w0 prov,
    store w0 = store w -> drawn w0 = drawn w ->
    (fetches w0 = fetches w -> prov = provider (rsRecord entry)) ->
    finishRefreshGrant e w0 refreshToken prov = Ok r w' ->
    TokenResult.refresh_token r = refreshToken
    /\ TokenResult.access_token r = base64UrlEncode (randomBytes e (drawn w) 24)
    /\ 1 <= TokenResult.expires_in r
    /\ exists entry',
         Memory.getByRsAccess later (TokenResult.access_token r) (store w')
         = (Some (l, entry'), store w')
         /\ Memory.getByRsRefresh later refreshToken (store w')
            = (Some (l, entry'), store w')
         /\ Memory.getByRsAccess later (rs_access_token (rsRecord entry)) (store w')
            = (None, store w')
         /\ rs_refresh_token (rsRecord entry') = rs_refresh_token (rsRecord entry)
         /\ (fetches w' = fetches w ->
             provider (rsRecord entry') = provider (rsRecord entry))
         /\ TokenResult.scope r
            = joinSpace (nullish (scopes (provider (rsRecord entry'))) [])).
  { intros w0 prov Hs Hd Hf Hfinish. unfold finishRefreshGrant in Hfinish.
    rewrite Hs, Hd in Hfinish. inversion Hfinish as [[Hr Hw]]. clear Hfinish.
    assert (Hacc : TokenResult.access_token r
                   = base64UrlEncode (randomBytes e (drawn w) 24))
      by (rewrite <- Hr; reflexivity).
    rewrite Hacc in Hne, Hnew.
    destruct (updateByRsRefresh_rotates (now e) DEFAULT_RS_TOKEN_TTL_MS later
                (store w) l entry refreshToken
                (base64UrlEncode (randomBytes e (drawn w) 24)) prov Hobj Hne Hlive)
      as (Hfst & HgetA & HgetR & Hold).
    split; [reflexivity|]. split; [reflexivity|]. split.
    - cbn [TokenResult.expires_in]. destruct (truthyZ (expires_at prov)); lia.
    - eexists. cbn [store TokenResult.access_token].
      split; [exact HgetA|]. split; [exact HgetR|]. split; [now apply Hold|].
      split; [reflexivity|]. split.
      + cbn [fetches rsRecord provider]. exact Hf.
      + cbn [TokenResult.scope]. rewrite Hfst. reflexivity. }
  destruct (Flow.isExpiringSoon (now e) (rsRecord entry));
    [|now apply (Hfin w (provider (rsRecord entry)))].
  destruct cfg as [c|]; [|now apply (Hfin w (provider (rsRecord entry)))].
  destruct (negb (truthy (refresh_token (provider (rsRecord entry)))));
    [discriminate Hrun|].
  destruct (Flow.tokenRequest c) as [url|message]; [|discriminate Hrun].
  cbv zeta in Hrun.
  destruct (replyUsable _); [|discriminate Hrun].
  eapply Hfin; [| |  |exact Hrun]; try reflexivity.
  cbn [fetches withFetch]. intros Habs. exfalso.
  apply (f_equal (@length string)) in Habs. simpl in Habs. lia.
Qed.

(** X3.  No silent fallback on the grant: when the bound provider token is
    expired or expiring and a provider is configured, a record without a
    provider refresh token makes the grant fail with [provider_token_expired]
    and nothing changes.  With a provider refresh token the grant fails with
    [provider_refresh_failed] in two ways, the record keeping its tokens in
    both: the request cannot be built (the token URL does not parse, or the
    credentials cannot be encoded), and then no provider call is made and
    nothing changes; or the request is built and sent, and the reply does not
    yield an access token. *)
Theorem refresh_grant_fails_when_provider_token_is_not_renewed
    e w (refreshToken : string) (c : Flow.ProviderConfig)
    (l : nat) (entry : RsEntry) :
  Memory.getByRsRefresh (now e) refreshToken (store w) = (Some (l, entry), store w) ->
  Flow.isExpiringSoon (now e) (rsRecord entry) = true ->
  (truthy (refresh_token (provider (rsRecord entry))) = false ->
   Flow.handleToken (RefreshToken refreshToken) (Some c) e w
   = Throw "provider_token_expired" w)
  /\ (forall sent,
        refresh_token (provider (rsRecord entry)) = Some sent ->
        sent <> "" ->
        (forall message,
           Flow.tokenRequest c = Raised message ->
           Flow.handleToken (RefreshToken refreshToken) (Some c) e w
           = Throw "provider_refresh_failed" w)
        /\ (forall url,
              Flow.tokenRequest c = Done url ->
              replyUsable (tokenEndpoint e sent) = false ->
              Flow.handleToken (RefreshToken refreshToken) (Some c) e w
              = Throw "provider_refresh_failed" (withFetch sent w))).
Proof.
  intros Hlook Hsoon.
  rewrite (handleToken_refresh_run _ _ _ _ _ _ Hlook), Hsoon.
  split.
  - intros ->. reflexivity.
  - intros sent Hrt Hset. rewrite Hrt.
    assert (Htr : truthy (Some sent) = true).
    { simpl. apply String.eqb_neq in Hset. now rewrite Hset. }
    rewrite Htr. cbn [negb nullish]. split.
    + intros message ->. reflexivity.
    + intros url -> Hbad. cbv zeta. now rewrite Hbad.
Qed.

(** X4.  Without a configured provider, or while the bound provider token is more
    than a minute from its expiry, the grant never calls the provider and
    cannot fail: it re-binds the record's own provider tokens to a new access
    token.  In particular an expired provider token is handed on when no
    provider is configured, with [expires_in] at its floor of one second. *)
Theorem refresh_grant_without_provider_call
    e w (refreshToken : string) (cfg : option Flow.ProviderConfig)
    (l : nat) (entry : RsEntry) :
  Memory.getByRsRefresh (now e) refreshToken (store w) = (Some (l, entry), store w) ->
  cfg = None \/ Flow.isExpiringSoon (now e) (rsRecord entry) = false ->
  exists r w' entry',
    Flow.handleToken (RefreshToken refreshToken) cfg e w = Ok r w'
    /\ fetches w' = fetches w
    /\ heap (store w') !! l = Some entry'
    /\ provider (rsRecord entry') = provider (rsRecord entry)
    /\ TokenResult.expires_in r
       = match expires_at (provider (rsRecord entry)) with
         | Some at_ =>
             if at_ =? 0 then 3600 else Z.max 1 ((at_ - now e) / 1000)
         | None => 3600
         end.
Proof.
  intros Hlook Hcase.
  rewrite (handleToken_refresh_run _ _ _ _ _ _ Hlook).
  pose proof (getByRsRefresh_lookupObj _ _ _ _ _ _ Hlook) as Hobj.
  pose proof Hobj as Hl. apply lookupObj_Some in Hl. destruct Hl as [_ Hheap].
  assert (Hlt : (l < length (heap (store w)))%nat) by (eapply lookup_lt_Some; eauto).
  assert (Hgoal : exists r w' entry',
    finishRefreshGrant e w refreshToken (provider (rsRecord entry)) = Ok r w'
    /\ fetches w' = fetches w
    /\ heap (store w') !! l = Some entry'
    /\ provider (rsRecord entry') = provider (rsRecord entry)
    /\ TokenResult.expires_in r
       = match expires_at (provider (rsRecord entry)) with
         | Some at_ =>
             if at_ =? 0 then 3600 else Z.max 1 ((at_ - now e) / 1000)
         | None => 3600
         end).
  { unfold finishRefreshGrant, Memory.updateByRsRefresh. rewrite Hobj.
    eexists. eexists. eexists. split; [reflexivity|].
    cbn [fetches store heap snd TokenResult.expires_in].
    split; [reflexivity|]. split; [now apply list_lookup_insert_eq|].
    split; [reflexivity|].
    destruct (expires_at (provider (rsRecord entry))) as [at_|]; [|reflexivity].
    cbn [truthyZ nullish]. now destruct (at_ =? 0). }
  destruct Hcase as [->|Hfresh].
  - destruct (Flow.isExpiringSoon (now e) (rsRecord entry)); exact Hgoal.
  - rewrite Hfresh. exact Hgoal.
Qed.

End RefreshGrantProperties.

Section RefreshFallback.
Context {platform : Platform}.
Implicit Types (e : Env) (w : World MemoryTokenStore).

(** X5.  When a refresh is due, the request to the provider can be built, and
    the provider call does not yield an access token (the request fails, the
    status is not 2xx, or the body names no token), [ensureFreshToken] does
    not fail: it hands back the stored provider token with
    [wasRefreshed = false], and the store and the throttle map stay as they
    were.  When the request cannot be built (no token URL is set and the
    accounts URL does not parse, or the credentials cannot be encoded), the
    failure is raised before the helper's [try]: [ensureFreshToken] throws
    it, no provider call is made and nothing changes. *)
Theorem ensureFreshToken_returns_stored_token_when_provider_fails
    e w (rsToken : string) (l : nat) (entry : RsEntry) (rt : string)
    (config : Refresh.ProviderRefreshConfig) :
  refreshDue e w rsToken l entry rt ->
  (forall url,
     Refresh.tokenRequest config = Done url ->
     replyUsable (tokenEndpoint e rt) = false ->
     Refresh.ensureFreshToken rsToken (Some config) e w
     = Ok (staleResult entry) (withFetch rt w))
  /\ (forall message,
        Refresh.tokenRequest config = Raised message ->
        Refresh.ensureFreshToken rsToken (Some config) e w = Throw message w).
Proof.
  intros Hdue. rewrite (ensureFreshToken_due _ _ _ _ _ _ config Hdue). split.
  - intros url -> Hbad.
    destruct (tokenEndpoint e rt) as [msg|status text|data]; try reflexivity.
    cbn [replyUsable] in Hbad. apply negb_false_iff in Hbad. now rewrite Hbad.
  - intros message ->. reflexivity.
Qed.

End RefreshFallback.

(** ** The representation of a [Map] *)

Section MapRepresentation.
Context {V : Type}.
Implicit Types (m : JsMap.t V) (k : string) (v : V).

Lemma In_set k v k0 v0 m :
  In (k, v) (JsMap.set k0 v0 m) -> (k, v) = (k0, v0) \/ In (k, v) m.
Proof.
  induction m as [|[k1 v1] m IH]; simpl.
  - intros [H|[]]. left. now symmetry.
  - destruct (String.eqb k1 k0); simpl.
    + intros [H|H]; [left; now symmetry|right; now right].
    + intros [H|H]; [right; now left|].
      destruct (IH H) as [?|?]; [now left|right; now right].
Qed.

Lemma In_delete k v k0 m :
  In (k, v) (JsMap.delete k0 m) <-> k <> k0 /\ In (k, v) m.
Proof.
  induction m as [|[k1 v1] m IH]; simpl; [tauto|].
  destruct (String.eqb_spec k1 k0) as [->|Hne]; simpl.
  - rewrite IH. split; [tauto|]. intros [Hk [H|H]]; [|tauto].
    inversion H; subst. contradiction.
  - rewrite IH. split.
    + intros [H|[? ?]]; [|tauto]. inversion H; subst. tauto.
    + tauto.
Qed.

Lemma In_deleteAll ks : forall k v m,
  In (k, v) (JsMap.deleteAll ks m) <-> ~ In k ks /\ In (k, v) m.
Proof.
  unfold JsMap.deleteAll.
  induction ks as [|k0 ks IH]; intros k v m; simpl; [tauto|].
  rewrite IH, In_delete. split.
  - intros (Hn & Hne & Hin). split; [|assumption].
    intros [->|?]; [now apply Hne|contradiction].
  - intros (Hn & Hin). repeat split; auto.
Qed.

Lemma In_retain (keep : V -> bool) k v m :
  In (k, v) (JsMap.retain keep m) <-> In (k, v) m /\ keep v = true.
Proof. unfold JsMap.retain. now rewrite List.filter_In. Qed.

Lemma In_evictOldest (createdOf : V -> Z) k v m maxSize n :
  In (k, v) (evictOldest createdOf m maxSize n) -> In (k, v) m.
Proof.
  unfold evictOldest. destruct (JsMap.size m <? maxSize); [tauto|].
  rewrite In_deleteAll. tauto.
Qed.

Lemma keys_set k v m x :
  In x (List.map fst (JsMap.set k v m)) -> x = k \/ In x (List.map fst m).
Proof.
  induction m as [|[k1 v1] m IH]; simpl.
  - intros [H|[]]. now left.
  - destruct (String.eqb_spec k1 k) as [->|Hne]; simpl.
    + tauto.
    + intros [H|H]; [tauto|]. destruct (IH H); tauto.
Qed.

Lemma keys_delete k m x :
  In x (List.map fst (JsMap.delete k m)) -> In x (List.map fst m).
Proof.
  induction m as [|[k1 v1] m IH]; simpl; [tauto|].
  destruct (String.eqb k1 k); simpl; tauto.
Qed.

Lemma uniqueKeys_nil : uniqueKeys (@nil (string * V)).
Proof. constructor. Qed.

Lemma uniqueKeys_set k v m : uniqueKeys m -> uniqueKeys (JsMap.set k v m).
Proof.
  unfold uniqueKeys. induction m as [|[k1 v1] m IH]; simpl; intros Hm.
  - constructor; [intros []|constructor].
  - inversion Hm as [|? ? Hnin Hrest]; subst.
    destruct (String.eqb_spec k1 k) as [->|Hne]; simpl.
    + now constructor.
    + constructor; [|now apply IH].
      intros Hin. apply keys_set in Hin. destruct Hin as [->|Hin]; tauto.
Qed.

Lemma uniqueKeys_delete k m : uniqueKeys m -> uniqueKeys (JsMap.delete k m).
Proof.
  unfold uniqueKeys. induction m as [|[k1 v1] m IH]; simpl; intros Hm; [assumption|].
  inversion Hm as [|? ? Hnin Hrest]; subst.
  destruct (String.eqb k1 k); simpl; [now apply IH|].
  constructor; [|now apply IH].
  intros Hin. apply Hnin. eapply keys_delete; eauto.
Qed.

Lemma uniqueKeys_deleteAll ks : forall m,
  uniqueKeys m -> uniqueKeys (JsMap.deleteAll ks m).
Proof.
  unfold JsMap.deleteAll.
  induction ks as [|k ks IH]; intros m Hm; simpl; [assumption|].
  apply IH. now apply uniqueKeys_delete.
Qed.

Lemma uniqueKeys_retain (keep : V -> bool) m :
  uniqueKeys m -> uniqueKeys (JsMap.retain keep m).
Proof.
  unfold uniqueKeys, JsMap.retain.
  induction m as [|[k1 v1] m IH]; simpl; intros Hm; [assumption|].
  inversion Hm as [|? ? Hnin Hrest]; subst.
  destruct (keep v1); simpl; [|now apply IH].
  constructor; [|now apply IH].
  intros Hin. apply Hnin. apply in_map_iff in Hin.
  destruct Hin as ([k2 v2] & Hk & Hin). apply List.filter_In in Hin.
  apply in_map_iff. exists (k2, v2). tauto.
Qed.

Lemma uniqueKeys_evictOldest (createdOf : V -> Z) m maxSize n :
  uniqueKeys m -> uniqueKeys (evictOldest createdOf m maxSize n).
Proof.
  intros Hm. unfold evictOldest. destruct (JsMap.size m <? maxSize); [assumption|].
  now apply uniqueKeys_deleteAll.
Qed.

Lemma In_get k v m : uniqueKeys m -> In (k, v) m -> JsMap.get k m = Some v.
Proof.
  unfold uniqueKeys. induction m as [|[k1 v1] m IH]; simpl; intros Hm Hin; [destruct Hin|].
  inversion Hm as [|? ? Hnin Hrest]; subst.
  destruct (String.eqb_spec k1 k) as [->|Hne].
  - destruct Hin as [H|H]; [now inversion H|].
    exfalso. apply Hnin. apply in_map_iff. now exists (k, v).
  - destruct Hin as [H|H]; [inversion H; contradiction|]. now apply IH.
Qed.

End MapRepresentation.

(** ** An invariant of [MemoryTokenStore] *)

Section Invariant.

Lemma agrees_insert field h m l entry' :
  agrees field h m ->
  (forall k, In (k, l) m -> field (rsRecord entry') = k) ->
  agrees field (<[l := entry']> h) m.
Proof.
  intros Hm Hl k l0 Hin. destruct (Hm _ _ Hin) as (entry & Hh & Hk).
  destruct (Nat.eq_dec l0 l) as [->|Hne].
  - exists entry'. split; [|now apply Hl].
    apply list_lookup_insert_eq. eapply lookup_lt_Some; eauto.
  - exists entry. split; [|assumption].
    rewrite list_lookup_insert_ne by congruence. assumption.
Qed.

Lemma agrees_app field h m record :
  agrees field h m -> agrees field (h ++ [record]) m.
Proof.
  intros Hm k l Hin. destruct (Hm _ _ Hin) as (entry & Hh & Hk).
  exists entry. split; [|assumption]. now apply lookup_app_l_Some.
Qed.

Lemma agrees_sub field h m m' :
  (forall k l, In (k, l) m' -> In (k, l) m) -> agrees field h m -> agrees field h m'.
Proof. intros Hsub Hm k l Hin. apply Hm. now apply Hsub. Qed.

Lemma agrees_set field h m k l entry :
  agrees field h m -> h !! l = Some entry -> field (rsRecord entry) = k ->
  agrees field h (JsMap.set k l m).
Proof.
  intros Hm Hh Hk k0 l0 Hin. apply In_set in Hin. destruct Hin as [Heq|Hin].
  - inversion Heq; subst. eauto.
  - now apply Hm.
Qed.

Lemma consistent_empty : consistent Memory.empty.
Proof. split; try apply uniqueKeys_nil; intros k l []. Qed.

Lemma consistent_storeRsMapping nowMs uuid rsAccess prov rsRefresh ttlMs s :
  consistent s ->
  consistent (snd (Memory.storeRsMapping nowMs uuid rsAccess prov rsRefresh ttlMs s)).
Proof.
  intros [Ha Hr Ht Hc Haa Hra]. unfold Memory.storeRsMapping.
  set (access1 := evictOldest _ _ _ _).
  assert (Ha1 : uniqueKeys access1) by now apply uniqueKeys_evictOldest.
  assert (Haa1 : agrees rs_access_token (heap s) access1).
  { eapply agrees_sub; [|exact Haa]. intros k l. apply In_evictOldest. }
  cbv zeta.
  destruct (if truthy rsRefresh then _ else None) as [[l e]|] eqn:Hex; cbn [snd].
  - destruct (truthy rsRefresh); [|discriminate].
    apply lookupObj_Some in Hex. cbn in Hex. destruct Hex as [Hget Hheap].
    assert (Hlt : (l < length (heap s))%nat) by (eapply lookup_lt_Some; eauto).
    destruct (Hra _ _ (get_In _ _ _ Hget)) as (e0 & He0 & Hrt).
    assert (e0 = e) by congruence. subst e0.
    split; cbn; auto.
    + apply uniqueKeys_set. now apply uniqueKeys_delete.
    + eapply agrees_set.
      * apply agrees_insert.
        -- eapply agrees_sub; [|exact Haa1]. intros k l0 Hin.
           apply In_delete in Hin. tauto.
        -- intros k Hin. apply In_delete in Hin. destruct Hin as [Hne Hin].
           destruct (Haa1 _ _ Hin) as (e1 & He1 & Hk). congruence.
      * now apply list_lookup_insert_eq.
      * reflexivity.
    + apply agrees_insert; [assumption|].
      intros k Hin. destruct (Hra _ _ Hin) as (e1 & He1 & Hk). cbn. congruence.
  - split; cbn; auto.
    + now apply uniqueKeys_set.
    + now apply uniqueKeys_set.
    + eapply agrees_set;
        [now apply agrees_app|now apply list_lookup_middle|reflexivity].
    + eapply agrees_set;
        [now apply agrees_app|now apply list_lookup_middle|reflexivity].
Qed.

Lemma consistent_getByRsAccess nowMs k s :
  consistent s -> consistent (snd (Memory.getByRsAccess nowMs k s)).
Proof.
  intros Hs. pose proof Hs as [Ha Hr Ht Hc Haa Hra]. unfold Memory.getByRsAccess.
  destruct (Memory.lookupObj _ _ _) as [[l entry]|]; [|assumption].
  destruct (nowMs >=? expiresAt entry); [|assumption].
  split; cbn; auto using uniqueKeys_delete.
  - eapply agrees_sub; [|exact Haa]. intros k0 l0 Hin. apply In_delete in Hin. tauto.
  - eapply agrees_sub; [|exact Hra]. intros k0 l0 Hin. apply In_delete in Hin. tauto.
Qed.

Lemma consistent_getByRsRefresh nowMs k s :
  consistent s -> consistent (snd (Memory.getByRsRefresh nowMs k s)).
Proof.
  intros Hs. pose proof Hs as [Ha Hr Ht Hc Haa Hra]. unfold Memory.getByRsRefresh.
  destruct (Memory.lookupObj _ _ _) as [[l entry]|]; [|assumption].
  destruct (nowMs >=? expiresAt entry); [|assumption].
  split; cbn; auto using uniqueKeys_delete.
  - eapply agrees_sub; [|exact Haa]. intros k0 l0 Hin. apply In_delete in Hin. tauto.
  - eapply agrees_sub; [|exact Hra]. intros k0 l0 Hin. apply In_delete in Hin. tauto.
Qed.

Lemma consistent_updateByRsRefresh nowMs rsRefresh prov maybeNewRsAccess ttlMs s :
  consistent s ->
  consistent (snd (Memory.updateByRsRefresh nowMs rsRefresh prov maybeNewRsAccess ttlMs s)).
Proof.
  intros Hs. pose proof Hs as [Ha Hr Ht Hc Haa Hra]. unfold Memory.updateByRsRefresh.
  destruct (Memory.lookupObj _ _ _) as [[l rec]|] eqn:Hlook; [|assumption].
  apply lookupObj_Some in Hlook. destruct Hlook as [Hget Hheap].
  assert (Hlt : (l < length (heap s))%nat) by (eapply lookup_lt_Some; eauto).
  destruct (Hra _ _ (get_In _ _ _ Hget)) as (e0 & He0 & Hrt).
  assert (e0 = rec) by congruence. subst e0.
  cbv zeta. cbn [snd].
  split; cbn [heap rsAccessMap rsRefreshMap transactions codes rsRecord
              rs_access_token rs_refresh_token]; auto.
  - apply uniqueKeys_set. destruct (truthy maybeNewRsAccess); [|assumption].
    now apply uniqueKeys_delete.
  - now apply uniqueKeys_set.
  - eapply agrees_set; [|now apply list_lookup_insert_eq|reflexivity].
    destruct (truthy maybeNewRsAccess).
    + apply agrees_insert.
      * eapply agrees_sub; [|exact Haa]. intros k l0 Hin.
        apply In_delete in Hin. tauto.
      * intros k Hin. apply In_delete in Hin. destruct Hin as [Hne Hin].
        destruct (Haa _ _ Hin) as (e1 & He1 & Hk). congruence.
    + apply agrees_insert; [assumption|].
      intros k Hin. destruct (Haa _ _ Hin) as (e1 & He1 & Hk). cbn. congruence.
  - eapply agrees_set; [|now apply list_lookup_insert_eq|exact Hrt].
    apply agrees_insert; [assumption|].
    intros k Hin. destruct (Hra _ _ Hin) as (e1 & He1 & Hk). cbn. congruence.
Qed.

Lemma consistent_cleanup nowMs s :
  consistent s -> consistent (snd (Memory.cleanup nowMs s)).
Proof.
  intros [Ha Hr Ht Hc Haa Hra]. unfold Memory.cleanup. cbn.
  split; cbn; auto using uniqueKeys_retain.
  - eapply agrees_sub; [|exact Haa]. intros k l Hin. apply In_retain in Hin. tauto.
  - eapply agrees_sub; [|exact Hra]. intros k l Hin. apply In_retain in Hin. tauto.
Qed.

Lemma consistent_afterCall s c : consistent s -> consistent (afterCall s c).
Proof.
  intros Hs. destruct c; cbn [afterCall].
  - now apply consistent_storeRsMapping.
  - now apply consistent_getByRsAccess.
  - now apply consistent_getByRsRefresh.
  - now apply consistent_updateByRsRefresh.
  - destruct Hs. unfold Memory.saveTransaction. split; cbn; auto.
    apply uniqueKeys_set. now apply uniqueKeys_evictOldest.
  - pose proof Hs as [Ha Hr Ht Hc Haa Hra]. unfold Memory.getTransaction.
    destruct (JsMap.get _ _) as [entry|]; [|assumption].
    destruct (_ >=? _); [|assumption].
    split; cbn; auto using uniqueKeys_delete.
  - destruct Hs. unfold Memory.deleteTransaction.
    split; cbn; auto using uniqueKeys_delete.
  - destruct Hs. unfold Memory.saveCode. split; cbn; auto using uniqueKeys_set.
  - pose proof Hs as [Ha Hr Ht Hc Haa Hra]. unfold Memory.getTxnIdByCode.
    destruct (JsMap.get _ _) as [entry|]; [|assumption].
    destruct (_ >=? _); [|assumption].
    split; cbn; auto using uniqueKeys_delete.
  - destruct Hs. unfold Memory.deleteCode.
    split; cbn; auto using uniqueKeys_delete.
  - now apply consistent_cleanup.
Qed.

Lemma consistent_fold history : forall s,
  consistent s -> consistent (fold_left afterCall history s).
Proof.
  induction history as [|c history IH]; intros s Hs; simpl; [assumption|].
  apply IH. now apply consistent_afterCall.
Qed.

(** X6.  Whatever calls were made on a new store, in whatever order and at
    whatever instants, no index holds a key twice and every key of the
    access-token index (of the refresh-token index) is the RS access token
    (the RS refresh token) of the record it refers to. *)
Theorem store_stays_consistent (history : list MemoryCall) :
  consistent (afterCalls history).
Proof. apply consistent_fold, consistent_empty. Qed.

(** X7.  On such a store a lookup that resolves returns a record that carries
    the token it was looked up by, and no two access tokens resolve to the
    same record. *)
Theorem lookup_returns_record_of_the_token (history : list MemoryCall)
    (nowMs : Z) (k : string) (l : nat) (entry : RsEntry) :
  (fst (Memory.getByRsAccess nowMs k (afterCalls history)) = Some (l, entry) ->
   rs_access_token (rsRecord entry) = k
   /\ forall k' entry',
        fst (Memory.getByRsAccess nowMs k' (afterCalls history)) = Some (l, entry') ->
        k' = k)
  /\ (fst (Memory.getByRsRefresh nowMs k (afterCalls history)) = Some (l, entry) ->
      rs_refresh_token (rsRecord entry) = k
      /\ forall k' entry',
           fst (Memory.getByRsRefresh nowMs k' (afterCalls history)) = Some (l, entry') ->
           k' = k).
Proof.
  pose proof (consistent_fold history _ consistent_empty) as Hs.
  fold (afterCalls history) in Hs.
  destruct Hs as [Ha Hr Ht Hc Haa Hra]. split.
  - intros Hlook. apply getByRsAccess_found, getByRsAccess_Some_inv in Hlook.
    destruct Hlook as (Hget & Hheap & _).
    destruct (Haa _ _ (get_In _ _ _ Hget)) as (e0 & He0 & Hk).
    assert (e0 = entry) by congruence. subst e0. split; [assumption|].
    intros k' entry' Hlook'.
    apply getByRsAccess_found, getByRsAccess_Some_inv in Hlook'.
    destruct Hlook' as (Hget' & Hheap' & _).
    destruct (Haa _ _ (get_In _ _ _ Hget')) as (e1 & He1 & Hk'). congruence.
  - intros Hlook. apply getByRsRefresh_found, getByRsRefresh_Some_inv in Hlook.
    destruct Hlook as (Hget & Hheap & _).
    destruct (Hra _ _ (get_In _ _ _ Hget)) as (e0 & He0 & Hk).
    assert (e0 = entry) by congruence. subst e0. split; [assumption|].
    intros k' entry' Hlook'.
    apply getByRsRefresh_found, getByRsRefresh_Some_inv in Hlook'.
    destruct Hlook' as (Hget' & Hheap' & _).
    destruct (Hra _ _ (get_In _ _ _ Hget')) as (e1 & He1 & Hk'). congruence.
Qed.

End Invariant.

(** ** The sweep *)

Section Sweep.

Lemma get_retain_absent {V} (keep : V -> bool) k (m : JsMap.t V) :
  ~ In k (List.map fst m) -> JsMap.get k (JsMap.retain keep m) = None.
Proof.
  intros Hnin. destruct (JsMap.get k (JsMap.retain keep m)) as [v|] eqn:Hget;
    [|reflexivity].
  exfalso. apply Hnin. apply get_In, In_retain in Hget.
  apply in_map_iff. exists (k, v). tauto.
Qed.

Lemma get_retain {V} (keep : V -> bool) k (m : JsMap.t V) :
  uniqueKeys m ->
  JsMap.get k (JsMap.retain keep m)
  = match JsMap.get k m with
    | Some v => if keep v then Some v else None
    | None => None
    end.
Proof.
  unfold uniqueKeys. induction m as [|[k1 v1] m IH]; intros Hm; [reflexivity|].
  inversion Hm as [|? ? Hnin Hrest]; subst. cbn [JsMap.get].
  destruct (String.eqb_spec k1 k) as [->|Hne].
  - unfold JsMap.retain. cbn [List.filter snd]. destruct (keep v1).
    + cbn [JsMap.get]. now rewrite String.eqb_refl.
    + now apply get_retain_absent.
  - rewrite <- (IH Hrest). unfold JsMap.retain. cbn [List.filter snd].
    destruct (keep v1); [|reflexivity]. cbn [JsMap.get].
    apply String.eqb_neq in Hne. now rewrite Hne.
Qed.

(** X8.  [cleanup] removes exactly what the lookups would refuse.  At the instant
    of the sweep every lookup gives on the swept store what it gave before,
    and no longer has anything to delete; every record the two token indices
    still refer to is live. *)
Theorem cleanup_is_invisible_to_lookups (nowMs : Z) (s : MemoryTokenStore) :
  consistent s ->
  let s' := snd (Memory.cleanup nowMs s) in
  (forall k, Memory.getByRsAccess nowMs k s'
             = (fst (Memory.getByRsAccess nowMs k s), s'))
  /\ (forall k, Memory.getByRsRefresh nowMs k s'
                = (fst (Memory.getByRsRefresh nowMs k s), s'))
  /\ (forall txnId, Memory.getTransaction nowMs txnId s'
                    = (fst (Memory.getTransaction nowMs txnId s), s'))
  /\ (forall code, Memory.getTxnIdByCode nowMs code s'
                   = (fst (Memory.getTxnIdByCode nowMs code s), s'))
  /\ (forall k l entry,
        In (k, l) (rsAccessMap s') \/ In (k, l) (rsRefreshMap s') ->
        heap s' !! l = Some entry -> nowMs < expiresAt entry).
Proof.
  intros [Ha Hr Ht Hc Haa Hra] s'.
  assert (Hidx : forall (idx : JsMap.t nat) k, uniqueKeys idx ->
            match JsMap.get k
                    (JsMap.retain
                       (fun l => negb (Memory.expiredObj nowMs (heap s) l)) idx) with
            | Some l =>
                match heap s !! l with
                | Some entry => JsMap.get k idx = Some l /\ (nowMs >=? expiresAt entry) = false
                | None => JsMap.get k idx = Some l
                end
            | None =>
                match JsMap.get k idx with
                | Some l =>
                    exists entry, heap s !! l = Some entry
                                  /\ (nowMs >=? expiresAt entry) = true
                | None => True
                end
            end).
  { intros idx k Hu. rewrite get_retain by assumption.
    destruct (JsMap.get k idx) as [l|]; [|exact I].
    unfold Memory.expiredObj.
    destruct (heap s !! l) as [entry|] eqn:Hh; cbn [negb].
    - destruct (nowMs >=? expiresAt entry) eqn:Hexp; cbn [negb].
      + eauto.
      + rewrite Hh. auto.
    - now rewrite Hh. }
  assert (Htimed : forall T (m : JsMap.t (TimedEntry.t T)) k, uniqueKeys m ->
            JsMap.get k
              (JsMap.retain (fun e => negb (nowMs >=? TimedEntry.expiresAt e)) m)
            = match JsMap.get k m with
              | Some e => if nowMs >=? TimedEntry.expiresAt e then None else Some e
              | None => None
              end).
  { intros T m k Hu. rewrite get_retain by assumption.
    destruct (JsMap.get k m) as [e|]; [|reflexivity].
    now destruct (nowMs >=? TimedEntry.expiresAt e). }
  split; [|split; [|split; [|split]]].
  - intros k. specialize (Hidx (rsAccessMap s) k Ha).
    unfold Memory.getByRsAccess, Memory.lookupObj. subst s'. cbn.
    destruct (JsMap.get k (JsMap.retain _ (rsAccessMap s))) as [l|].
    + destruct (heap s !! l) as [entry|] eqn:Hh.
      * destruct Hidx as [-> Hexp]. rewrite Hh, Hexp. reflexivity.
      * rewrite Hidx, Hh. reflexivity.
    + destruct (JsMap.get k (rsAccessMap s)) as [l|]; [|reflexivity].
      destruct Hidx as (entry & -> & ->). reflexivity.
  - intros k. specialize (Hidx (rsRefreshMap s) k Hr).
    unfold Memory.getByRsRefresh, Memory.lookupObj. subst s'. cbn.
    destruct (JsMap.get k (JsMap.retain _ (rsRefreshMap s))) as [l|].
    + destruct (heap s !! l) as [entry|] eqn:Hh.
      * destruct Hidx as [-> Hexp]. rewrite Hh, Hexp. reflexivity.
      * rewrite Hidx, Hh. reflexivity.
    + destruct (JsMap.get k (rsRefreshMap s)) as [l|]; [|reflexivity].
      destruct Hidx as (entry & -> & ->). reflexivity.
  - intros txnId. unfold Memory.getTransaction. subst s'. cbn.
    rewrite Htimed by assumption.
    destruct (JsMap.get txnId (transactions s)) as [e|]; [|reflexivity].
    destruct (nowMs >=? TimedEntry.expiresAt e) eqn:Hexp; [reflexivity|].
    now rewrite Hexp.
  - intros code. unfold Memory.getTxnIdByCode. subst s'. cbn.
    rewrite Htimed by assumption.
    destruct (JsMap.get code (codes s)) as [e|]; [|reflexivity].
    destruct (nowMs >=? TimedEntry.expiresAt e) eqn:Hexp; [reflexivity|].
    now rewrite Hexp.
  - intros k l entry Hin Hh. subst s'. cbn in Hin, Hh.
    assert (Hlive : negb (Memory.expiredObj nowMs (heap s) l) = true).
    { destruct Hin as [Hin|Hin]; apply In_retain in Hin; tauto. }
    unfold Memory.expiredObj in Hlive. rewrite Hh in Hlive.
    apply negb_true_iff in Hlive.
    destruct (Z.geb_spec nowMs (expiresAt entry)); [discriminate|lia].
Qed.

End Sweep.

(** ** Storing a mapping *)

Section StoreRsMapping.

Lemma lookupObj_withAccess m access k s :
  Memory.lookupObj m k (Memory.withAccess access s) = Memory.lookupObj m k s.
Proof. reflexivity. Qed.

(** X9.  Storing a mapping under an RS refresh token the store already holds
    creates no record: the record found under that token is re-bound in
    place.  It keeps its refresh token and its creation time, takes the new
    access token, provider tokens and TTL, and the access token it had before
    resolves to nothing.  The record found is not checked for expiry, so a
    record past its TTL that no lookup or sweep has removed yet is made live
    again. *)
Theorem storeRsMapping_rebinds_known_refresh_token
    (nowMs : Z) (uuid rsAccess : string) (prov : ProviderTokens) (rsRefresh : string)
    (ttlMs later : Z) (s : MemoryTokenStore) (l : nat) (e : RsEntry) :
  rsRefresh <> "" ->
  Memory.lookupObj (rsRefreshMap s) rsRefresh s = Some (l, e) ->
  later < nowMs + ttlMs ->
  let e' :=
    {| rsRecord :=
         {| rs_access_token := rsAccess;
            rs_refresh_token := rs_refresh_token (rsRecord e);
            provider := prov;
            created_at := created_at (rsRecord e) |};
       expiresAt := nowMs + ttlMs |} in
  let s' := snd (Memory.storeRsMapping nowMs uuid rsAccess prov (Some rsRefresh) ttlMs s) in
  fst (Memory.storeRsMapping nowMs uuid rsAccess prov (Some rsRefresh) ttlMs s) = (l, e')
  /\ length (heap s') = length (heap s)
  /\ Memory.getByRsAccess later rsAccess s' = (Some (l, e'), s')
  /\ Memory.getByRsRefresh later rsRefresh s' = (Some (l, e'), s')
  /\ (rsAccess <> rs_access_token (rsRecord e) ->
      Memory.getByRsAccess later (rs_access_token (rsRecord e)) s' = (None, s')).
Proof.
  intros Hne Hlook Hlive e' s'.
  assert (Htr : truthy (Some rsRefresh) = true).
  { simpl. apply String.eqb_neq in Hne. now rewrite Hne. }
  pose proof Hlook as Hl. apply lookupObj_Some in Hl. destruct Hl as [Hget Hheap].
  assert (Hlt : (l < length (heap s))%nat) by (eapply lookup_lt_Some; eauto).
  subst s' e'. unfold Memory.storeRsMapping. cbv zeta. rewrite Htr.
  cbn [nullish]. rewrite lookupObj_withAccess.
  change (rsRefreshMap (Memory.withAccess _ s)) with (rsRefreshMap s).
  rewrite Hlook. cbn [fst snd].
  split; [reflexivity|]. split; [|split; [|split]].
  - cbn. apply length_insert.
  - apply getByRsAccess_live; cbn;
      [apply get_set_eq|now apply list_lookup_insert_eq|assumption].
  - apply getByRsRefresh_live; cbn;
      [assumption|now apply list_lookup_insert_eq|assumption].
  - intros Hnew. apply getByRsAccess_absent. cbn.
    rewrite get_set_ne by assumption. apply get_delete_eq.
Qed.

(** X10.  Storing a mapping under a refresh token the store does not hold (or
    under none, the store then drawing a UUID) creates the record described
    by the arguments.  Until its TTL runs out both tokens resolve to that
    record; from then on neither does. *)
Theorem storeRsMapping_round_trip
    (nowMs : Z) (uuid rsAccess : string) (prov : ProviderTokens)
    (rsRefresh : option string) (ttlMs later : Z) (s : MemoryTokenStore) :
  (truthy rsRefresh = true ->
   JsMap.get (nullish rsRefresh "") (rsRefreshMap s) = None) ->
  let record :=
    {| rsRecord :=
         {| rs_access_token := rsAccess;
            rs_refresh_token := nullish rsRefresh uuid;
            provider := prov;
            created_at := nowMs |};
       expiresAt := nowMs + ttlMs |} in
  let l := length (heap s) in
  let s' := snd (Memory.storeRsMapping nowMs uuid rsAccess prov rsRefresh ttlMs s) in
  fst (Memory.storeRsMapping nowMs uuid rsAccess prov rsRefresh ttlMs s) = (l, record)
  /\ (later < nowMs + ttlMs ->
      Memory.getByRsAccess later rsAccess s' = (Some (l, record), s')
      /\ Memory.getByRsRefresh later (nullish rsRefresh uuid) s'
         = (Some (l, record), s'))
  /\ (nowMs + ttlMs <= later ->
      fst (Memory.getByRsAccess later rsAccess s') = None
      /\ fst (Memory.getByRsRefresh later (nullish rsRefresh uuid) s') = None).
Proof.
  intros Hfresh record l s'.
  assert (Hrun : Memory.storeRsMapping nowMs uuid rsAccess prov rsRefresh ttlMs s
                 = ((l, record),
                    Memory.withRefresh
                      (JsMap.set (nullish rsRefresh uuid) l (rsRefreshMap s))
                      (Memory.withAccess
                         (JsMap.set rsAccess l
                            (evictOldest (Memory.createdOfObj (heap s))
                               (rsAccessMap s) MAX_RS_RECORDS 10))
                         (Memory.withHeap (heap s ++ [record]) s)))).
  { unfold Memory.storeRsMapping. cbv zeta.
    destruct (truthy rsRefresh) eqn:Htr; [|reflexivity].
    rewrite lookupObj_withAccess.
    change (rsRefreshMap (Memory.withAccess _ s)) with (rsRefreshMap s).
    rewrite lookupObj_None by now apply Hfresh. reflexivity. }
  subst s'. rewrite Hrun. cbn [fst snd].
  assert (Hh : (heap s ++ [record])%list !! l = Some record)
    by now apply list_lookup_middle.
  assert (HgA : Memory.lookupObj
                  (JsMap.set rsAccess l
                     (evictOldest (Memory.createdOfObj (heap s)) (rsAccessMap s)
                        MAX_RS_RECORDS 10)) rsAccess
                  (Memory.withRefresh
                      (JsMap.set (nullish rsRefresh uuid) l (rsRefreshMap s))
                      (Memory.withAccess
                         (JsMap.set rsAccess l
                            (evictOldest (Memory.createdOfObj (heap s))
                               (rsAccessMap s) MAX_RS_RECORDS 10))
                         (Memory.withHeap (heap s ++ [record]) s)))
                = Some (l, record)).
  { apply lookupObj_Some. split; [apply get_set_eq|exact Hh]. }
  assert (HgR : Memory.lookupObj
                  (JsMap.set (nullish rsRefresh uuid) l (rsRefreshMap s))
                  (nullish rsRefresh uuid)
                  (Memory.withRefresh
                      (JsMap.set (nullish rsRefresh uuid) l (rsRefreshMap s))
                      (Memory.withAccess
                         (JsMap.set rsAccess l
                            (evictOldest (Memory.createdOfObj (heap s))
                               (rsAccessMap s) MAX_RS_RECORDS 10))
                         (Memory.withHeap (heap s ++ [record]) s)))
                = Some (l, record)).
  { apply lookupObj_Some. split; [apply get_set_eq|exact Hh]. }
  split; [reflexivity|]. split.
  - intros Hlive. split.
    + apply getByRsAccess_live; cbn; [apply get_set_eq|exact Hh|assumption].
    + apply getByRsRefresh_live; cbn; [apply get_set_eq|exact Hh|assumption].
  - intros Hdead.
    assert (Hexp : (later >=? expiresAt record) = true).
    { apply Z.geb_le. subst record. cbn. lia. }
    split.
    + unfold Memory.getByRsAccess. cbn [rsAccessMap Memory.withRefresh Memory.withAccess].
      rewrite HgA, Hexp. reflexivity.
    + unfold Memory.getByRsRefresh. cbn [rsRefreshMap Memory.withRefresh Memory.withAccess].
      rewrite HgR, Hexp. reflexivity.
Qed.

End StoreRsMapping.

(** ** Codes and transactions *)

Section TimedMaps.

(** X11.  A saved code resolves to its transaction id until its TTL runs out and
    to nothing from then on, the lookup then deleting it; other codes are
    not affected.  A TTL of [0] seconds, like none, means the default of ten
    minutes. *)
Theorem saveCode_round_trip
    (nowMs : Z) (code txnId : string) (ttlSeconds : option Z) (later : Z)
    (s : MemoryTokenStore) :
  let ttlMs :=
    match ttlSeconds with
    | Some seconds => if seconds =? 0 then DEFAULT_CODE_TTL_MS else seconds * 1000
    | None => DEFAULT_CODE_TTL_MS
    end in
  let s' := Memory.saveCode nowMs code txnId ttlSeconds s in
  (later < nowMs + ttlMs -> Memory.getTxnIdByCode later code s' = (Some txnId, s'))
  /\ (nowMs + ttlMs <= later ->
      fst (Memory.getTxnIdByCode later code s') = None
      /\ JsMap.get code (codes (snd (Memory.getTxnIdByCode later code s'))) = None)
  /\ (forall code', code' <> code ->
        fst (Memory.getTxnIdByCode later code' s')
        = fst (Memory.getTxnIdByCode later code' s)).
Proof.
  intros ttlMs s'.
  assert (Hget : JsMap.get code (codes s')
                 = Some {| TimedEntry.value := txnId;
                           TimedEntry.expiresAt := nowMs + ttlMs;
                           TimedEntry.createdAt := nowMs |}).
  { subst s' ttlMs. unfold Memory.saveCode. cbn [codes Memory.withCodes].
    rewrite get_set_eq. do 3 f_equal.
    destruct ttlSeconds as [seconds|]; [|reflexivity].
    cbn [truthyZ nullish]. now destruct (seconds =? 0). }
  split; [|split].
  - intros Hlive. unfold Memory.getTxnIdByCode. rewrite Hget.
    cbn [TimedEntry.expiresAt TimedEntry.value].
    destruct (Z.geb_spec later (nowMs + ttlMs)); [lia|reflexivity].
  - intros Hdead. unfold Memory.getTxnIdByCode. rewrite Hget.
    cbn [TimedEntry.expiresAt TimedEntry.value].
    destruct (Z.geb_spec later (nowMs + ttlMs)); [|lia].
    cbn [fst snd codes Memory.withCodes]. split; [reflexivity|apply get_delete_eq].
  - intros code' Hne. unfold Memory.getTxnIdByCode. subst s'.
    unfold Memory.saveCode. cbn [codes Memory.withCodes].
    rewrite get_set_ne by congruence.
    destruct (JsMap.get code' (codes s)) as [entry|]; [|reflexivity].
    now destruct (later >=? TimedEntry.expiresAt entry).
Qed.

(** X12.  A saved transaction is read back until its TTL runs out, also when the
    store was at its capacity of transactions and made room first; from then
    on it reads as absent.  Saving never makes another transaction appear or
    change, and below capacity it leaves the others as they were. *)
Theorem saveTransaction_round_trip
    (nowMs : Z) (txnId : string) (txn : Transaction.t) (ttlSeconds : option Z)
    (later : Z) (s : MemoryTokenStore) :
  let ttlMs :=
    match ttlSeconds with
    | Some seconds => if seconds =? 0 then DEFAULT_TXN_TTL_MS else seconds * 1000
    | None => DEFAULT_TXN_TTL_MS
    end in
  let s' := Memory.saveTransaction nowMs txnId txn ttlSeconds s in
  (later < nowMs + ttlMs -> Memory.getTransaction later txnId s' = (Some txn, s'))
  /\ (nowMs + ttlMs <= later -> fst (Memory.getTransaction later txnId s') = None)
  /\ (forall txnId' txn', txnId' <> txnId ->
        fst (Memory.getTransaction later txnId' s') = Some txn' ->
        fst (Memory.getTransaction later txnId' s) = Some txn')
  /\ (JsMap.size (transactions s) < MAX_TRANSACTIONS ->
      forall txnId', txnId' <> txnId ->
        fst (Memory.getTransaction later txnId' s')
        = fst (Memory.getTransaction later txnId' s)).
Proof.
  intros ttlMs s'.
  assert (Hget : JsMap.get txnId (transactions s')
                 = Some {| TimedEntry.value := txn;
                           TimedEntry.expiresAt := nowMs + ttlMs;
                           TimedEntry.createdAt := nowMs |}).
  { subst s' ttlMs. unfold Memory.saveTransaction.
    cbn [transactions Memory.withTransactions].
    rewrite get_set_eq. do 3 f_equal.
    destruct ttlSeconds as [seconds|]; [|reflexivity].
    cbn [truthyZ nullish]. now destruct (seconds =? 0). }
  split; [|split; [|split]].
  - intros Hlive. unfold Memory.getTransaction. rewrite Hget.
    cbn [TimedEntry.expiresAt TimedEntry.value].
    destruct (Z.geb_spec later (nowMs + ttlMs)); [lia|reflexivity].
  - intros Hdead. unfold Memory.getTransaction. rewrite Hget.
    cbn [TimedEntry.expiresAt TimedEntry.value].
    destruct (Z.geb_spec later (nowMs + ttlMs)); [reflexivity|lia].
  - intros txnId' txn' Hne. unfold Memory.getTransaction. subst s'.
    unfold Memory.saveTransaction. cbn [transactions Memory.withTransactions].
    rewrite get_set_ne by congruence. unfold evictOldest.
    destruct (JsMap.size (transactions s) <? MAX_TRANSACTIONS).
    { destruct (JsMap.get txnId' (transactions s)) as [entry|];
        [destruct (later >=? TimedEntry.expiresAt entry)|]; intros H; exact H. }
    destruct (in_dec string_dec txnId'
                (victims TimedEntry.createdAt (transactions s) 10)) as [Hin|Hnin].
    + rewrite get_deleteAll_in by assumption. discriminate.
    + rewrite get_deleteAll_notin by assumption.
      destruct (JsMap.get txnId' (transactions s)) as [entry|]; [|discriminate].
      now destruct (later >=? TimedEntry.expiresAt entry).
  - intros Hroom txnId' Hne. unfold Memory.getTransaction. subst s'.
    unfold Memory.saveTransaction. cbn [transactions Memory.withTransactions].
    rewrite get_set_ne by congruence. unfold evictOldest.
    apply Z.ltb_lt in Hroom. rewrite Hroom.
    destruct (JsMap.get txnId' (transactions s)) as [entry|]; [|reflexivity].
    now destruct (later >=? TimedEntry.expiresAt entry).
Qed.

End TimedMaps.

(** ** The throttle map *)

Section Throttle.

(** X13.  Marking one token leaves the cooldown of every other token as it was,
    now and later: the pruning that sets in above 1000 marks only drops marks
    that are older than the cooldown, and when it runs no older mark is
    left. *)
Theorem markRefreshed_touches_only_its_token
    (nowMs later : Z) (rsToken k : string) (marks : JsMap.t Z) :
  uniqueKeys marks ->
  nowMs <= later ->
  (k <> rsToken ->
   Refresh.inCooldown later (Refresh.markedAt nowMs rsToken marks) k
   = Refresh.inCooldown later marks k)
  /\ (1000 < JsMap.size (JsMap.set rsToken nowMs marks) ->
      forall k' timestamp,
        In (k', timestamp) (Refresh.markedAt nowMs rsToken marks) ->
        nowMs - timestamp <= Refresh.REFRESH_COOLDOWN_MS).
Proof.
  intros Hu Hle. split.
  - intros Hne. unfold Refresh.inCooldown, Refresh.markedAt.
    destruct (JsMap.size _ >? 1000); [|now rewrite get_set_ne by congruence].
    rewrite get_retain by now apply uniqueKeys_set.
    rewrite get_set_ne by congruence.
    destruct (JsMap.get k marks) as [v|]; [|reflexivity].
    destruct (Z.gtb_spec (nowMs - v) Refresh.REFRESH_COOLDOWN_MS) as [Hold|Hnew];
      cbn [negb]; [|reflexivity].
    cbn [truthyZ nullish]. rewrite andb_false_l.
    symmetry. apply andb_false_iff. right. apply Z.ltb_ge. lia.
  - intros Hbig k' timestamp Hin. unfold Refresh.markedAt in Hin.
    destruct (Z.gtb_spec (JsMap.size (JsMap.set rsToken nowMs marks)) 1000); [|lia].
    apply In_retain in Hin. destruct Hin as [_ Hkeep].
    apply negb_true_iff in Hkeep.
    destruct (Z.gtb_spec (nowMs - timestamp) Refresh.REFRESH_COOLDOWN_MS);
      [discriminate|lia].
Qed.

End Throttle.

(** ** The two refresh helpers *)

Section RefreshHelpers.
Context {S : Type} `{TokenStore S} {platform : Platform}.

(** X14.  The two [refreshProviderToken] helpers side by side.  Each builds
    its request before it calls [fetch], and outside any [try]: when that
    fails (the token URL does not parse, or the credentials cannot be
    encoded) the helper throws that error, and no provider call is made.
    Once its request is built, the helper of the refresh controller does not
    throw: it posts the refresh token once and returns a result, an error
    response being reported with its status and the first 100 UTF-16 code
    units of its text.  When both helpers build their request, the
    controller's reports success exactly when the flow's returns, and what
    one returns as [tokens] is what the other returns. *)
Theorem the_two_refresh_helpers_agree
    (refreshToken : string) (cfg : Flow.ProviderConfig)
    (config : Refresh.ProviderRefreshConfig) (e : Env) (w : World S) :
  (forall message,
     Refresh.tokenRequest config = Raised message ->
     Refresh.refreshProviderToken refreshToken config e w = Throw message w)
  /\ (forall message,
        Flow.tokenRequest cfg = Raised message ->
        Flow.refreshProviderToken refreshToken cfg e w = Throw message w)
  /\ (forall url,
        Refresh.tokenRequest config = Done url ->
        exists result,
          Refresh.refreshProviderToken refreshToken config e w
          = Ok result (withFetch refreshToken w)
          /\ Refresh.success result = replyUsable (tokenEndpoint e refreshToken)
          /\ (forall status text,
                tokenEndpoint e refreshToken = HttpError status text ->
                Refresh.error result
                = Some (Refresh.ProviderReturned status (firstn 100 text)))
          /\ (forall url',
                Flow.tokenRequest cfg = Done url' ->
                match Flow.refreshProviderToken refreshToken cfg e w with
                | Ok newTokens w' =>
                    Refresh.success result = true
                    /\ Refresh.tokens result = Some newTokens
                    /\ w' = withFetch refreshToken w
                | Throw _ w' =>
                    Refresh.success result = false
                    /\ Refresh.tokens result = None
                    /\ w' = withFetch refreshToken w
                end)).
Proof.
  unfold Refresh.refreshProviderToken, Flow.refreshProviderToken, bind, attempt,
    fetchToken.
  split; [intros message ->; reflexivity|].
  split; [intros message ->; reflexivity|].
  intros url ->. fold (withFetch refreshToken w).
  destruct (tokenEndpoint e refreshToken) as [msg|status text|data];
    cbn [replyUsable].
  - eexists. split; [reflexivity|]. split; [reflexivity|].
    split; [discriminate|]. intros url' ->. now repeat split.
  - eexists. split; [reflexivity|]. split; [reflexivity|].
    split; [intros ? ? [= <- <-]; reflexivity|].
    intros url' ->. now repeat split.
  - destruct (String.eqb (orEmpty (data_access_token data)) "");
      eexists; (split; [reflexivity|]); (split; [reflexivity|]);
      (split; [discriminate|]); intros url' ->; now repeat split.
Qed.

(** X15.  The freshness test of the refresh controller and the one of the
    refresh-token grant give the same answer for provider tokens that carry
    an expiry other than [0].  For an expiry of [0], as for a missing one,
    they differ at every instant from the epoch on: the grant takes the token
    for expiring, the controller for fresh. *)
Theorem freshness_tests_agree_unless_expiry_is_falsy (nowMs : Z) (rec : RsRecord) :
  (truthyZ (expires_at (provider rec)) = true ->
   Flow.isExpiringSoon nowMs rec
   = Refresh.isTokenExpiredOrExpiring nowMs (expires_at (provider rec))
       Refresh.EXPIRY_BUFFER_MS)
  /\ (truthyZ (expires_at (provider rec)) = false ->
      0 <= nowMs ->
      Flow.isExpiringSoon nowMs rec = true
      /\ Refresh.isTokenExpiredOrExpiring nowMs (expires_at (provider rec))
           Refresh.EXPIRY_BUFFER_MS = false).
Proof.
  unfold Flow.isExpiringSoon, Refresh.isTokenExpiredOrExpiring.
  split; intros Htr.
  - now rewrite Htr.
  - intros Hnow. rewrite Htr. cbn [negb]. split; [|reflexivity].
    destruct (expires_at (provider rec)) as [at_|]; cbn [nullish truthyZ] in *.
    + apply negb_false_iff, Z.eqb_eq in Htr. subst at_. apply Z.geb_le. lia.
    + apply Z.geb_le. lia.
Qed.

End RefreshHelpers.

(** ** The bound on pending transactions *)

Section Capacity.
Context {V : Type}.
Implicit Types (m : JsMap.t V) (k : string).

Lemma length_set k (v : V) m :
  (length (JsMap.set k v m) <= Datatypes.S (length m))%nat.
Proof.
  induction m as [|[k1 v1] m IH]; simpl; [lia|].
  destruct (String.eqb k1 k); simpl; lia.
Qed.

Lemma length_delete k m : (length (JsMap.delete k m) <= length m)%nat.
Proof.
  induction m as [|[k1 v1] m IH]; simpl; [lia|].
  destruct (String.eqb k1 k); simpl; lia.
Qed.

Lemma length_delete_key k m :
  In k (List.map fst m) -> (length (JsMap.delete k m) < length m)%nat.
Proof.
  induction m as [|[k1 v1] m IH]; simpl; [tauto|].
  destruct (String.eqb_spec k1 k) as [->|Hne]; simpl.
  - intros _. pose proof (length_delete k m). lia.
  - intros [?|Hin]; [contradiction|]. specialize (IH Hin). lia.
Qed.

Lemma keys_delete_ne k k' m :
  k' <> k -> In k' (List.map fst m) -> In k' (List.map fst (JsMap.delete k m)).
Proof.
  intros Hne. induction m as [|[k1 v1] m IH]; simpl; [tauto|].
  destruct (String.eqb_spec k1 k) as [->|Hk]; simpl.
  - intros [?|?]; [congruence|auto].
  - tauto.
Qed.

Lemma length_deleteAll ks : forall m,
  List.NoDup ks -> (forall k, In k ks -> In k (List.map fst m)) ->
  (length (JsMap.deleteAll ks m) + length ks <= length m)%nat.
Proof.
  unfold JsMap.deleteAll.
  induction ks as [|k ks IH]; intros m Hnd Hsub; simpl; [lia|].
  inversion Hnd as [|? ? Hnin Hrest]; subst.
  assert (Hk : In k (List.map fst m)) by (apply Hsub; now left).
  pose proof (length_delete_key k m Hk).
  assert (Hsub' : forall k', In k' ks -> In k' (List.map fst (JsMap.delete k m))).
  { intros k' Hin. apply keys_delete_ne; [congruence|]. apply Hsub. now right. }
  specialize (IH _ Hrest Hsub'). lia.
Qed.

Lemma length_retain (keep : V -> bool) m :
  (length (JsMap.retain keep m) <= length m)%nat.
Proof. apply List.filter_length_le. Qed.

Context (createdOf : V -> Z).

(** At capacity [evictOldest] frees as many places as it was asked to. *)
Lemma size_evictOldest m maxSize n :
  uniqueKeys m -> maxSize <= JsMap.size m -> (n <= length m)%nat ->
  JsMap.size (evictOldest createdOf m maxSize n) + Z.of_nat n <= JsMap.size m.
Proof.
  intros Hm Hfull Hn. unfold evictOldest.
  destruct (Z.ltb_spec (JsMap.size m) maxSize); [lia|].
  pose proof (length_deleteAll (victims createdOf m n) m
                (victims_NoDup createdOf m n Hm) (victims_keys createdOf m n)) as Hlen.
  rewrite (victims_length createdOf) in Hlen by assumption.
  unfold JsMap.size. lia.
Qed.

End Capacity.

Section TransactionsBound.

Lemma withinCapacity_afterCall s c : withinCapacity s -> withinCapacity (afterCall s c).
Proof.
  intros [Hu Hb]. unfold withinCapacity.
  destruct c; cbn [afterCall].
  - unfold Memory.storeRsMapping. cbv zeta.
    destruct (if truthy rsRefresh then _ else None) as [[l e]|]; cbn; auto.
  - unfold Memory.getByRsAccess.
    destruct (Memory.lookupObj _ _ _) as [[l e]|]; [|auto].
    destruct (_ >=? _); cbn; auto.
  - unfold Memory.getByRsRefresh.
    destruct (Memory.lookupObj _ _ _) as [[l e]|]; [|auto].
    destruct (_ >=? _); cbn; auto.
  - unfold Memory.updateByRsRefresh.
    destruct (Memory.lookupObj _ _ _) as [[l e]|]; cbn; auto.
  - unfold Memory.saveTransaction. cbn [transactions Memory.withTransactions].
    split; [apply uniqueKeys_set; now apply uniqueKeys_evictOldest|].
    pose proof (fun v => length_set txnId v
                  (evictOldest TimedEntry.createdAt (transactions s) MAX_TRANSACTIONS 10))
      as Hset.
    match goal with |- JsMap.size (JsMap.set _ ?v _) <= _ => specialize (Hset v) end.
    destruct (Z.ltb_spec (JsMap.size (transactions s)) MAX_TRANSACTIONS) as [Hroom|Hfull].
    + unfold evictOldest in *. apply Z.ltb_lt in Hroom. rewrite Hroom in *.
      apply Z.ltb_lt in Hroom. unfold JsMap.size in *. lia.
    + pose proof (size_evictOldest TimedEntry.createdAt (transactions s)
                    MAX_TRANSACTIONS 10 Hu Hfull) as Hev.
      unfold JsMap.size, MAX_TRANSACTIONS in *.
      assert (Hten : (10 <= length (transactions s))%nat) by lia.
      specialize (Hev Hten). lia.
  - unfold Memory.getTransaction.
    destruct (JsMap.get _ _) as [entry|]; [|auto].
    destruct (_ >=? _); cbn; [|auto].
    split; [now apply uniqueKeys_delete|].
    pose proof (length_delete txnId (transactions s)). unfold JsMap.size in *. lia.
  - unfold Memory.deleteTransaction. cbn.
    split; [now apply uniqueKeys_delete|].
    pose proof (length_delete txnId (transactions s)). unfold JsMap.size in *. lia.
  - unfold Memory.saveCode. cbn. auto.
  - unfold Memory.getTxnIdByCode.
    destruct (JsMap.get _ _) as [entry|]; [|auto].
    destruct (_ >=? _); cbn; auto.
  - unfold Memory.deleteCode. cbn. auto.
  - unfold Memory.cleanup. cbn.
    split; [now apply uniqueKeys_retain|].
    match goal with |- JsMap.size (JsMap.retain ?f _) <= _ =>
      pose proof (length_retain f (transactions s)) end.
    unfold JsMap.size in *. lia.
Qed.

(** X16.  However many authorizations are started and never finished, the store
    holds at most [MAX_TRANSACTIONS] of them: [saveTransaction] makes room
    for ten before it would exceed the bound. *)
Theorem transactions_stay_bounded (history : list MemoryCall) :
  JsMap.size (transactions (afterCalls history)) <= MAX_TRANSACTIONS.
Proof.
  assert (H : forall s, withinCapacity s ->
            withinCapacity (fold_left afterCall history s)).
  { induction history as [|c history IH]; intros s Hs; simpl; [assumption|].
    apply IH. now apply withinCapacity_afterCall. }
  apply (H Memory.empty). split; [apply uniqueKeys_nil|].
  unfold JsMap.size, MAX_TRANSACTIONS. simpl. lia.
Qed.

End TransactionsBound.

(** ** The flows and the store's invariant *)

Section FlowsAndStore.
Context {platform : Platform}.
Implicit Types (e : Env) (w : World MemoryTokenStore).

Lemma viaCalls_same {A} (m : M (World MemoryTokenStore) A) :
  (forall e w, store (outcomeWorld (m e w)) = store w) -> viaCalls m.
Proof. intros Hm e w. exists []. apply Hm. Qed.

Lemma viaCalls_one {A} (m : M (World MemoryTokenStore) A) (c : Env -> MemoryCall) :
  (forall e w, store (outcomeWorld (m e w)) = afterCall (store w) (c e)) -> viaCalls m.
Proof. intros Hm e w. exists [c e]. apply Hm. Qed.

Lemma viaCalls_bind {A B} (m : M (World MemoryTokenStore) A)
    (k : A -> M (World MemoryTokenStore) B) :
  viaCalls m -> (forall a, viaCalls (k a)) -> viaCalls (bind m k).
Proof.
  intros Hm Hk e w. unfold bind. destruct (Hm e w) as [h1 H1].
  destruct (m e w) as [a w1|err w1]; cbn [outcomeWorld] in *.
  - destruct (Hk a e w1) as [h2 H2]. exists (h1 ++ h2)%list.
    now rewrite fold_left_app, <- H1.
  - now exists h1.
Qed.

Lemma viaCalls_tryCatch {A} (m : M (World MemoryTokenStore) A)
    (h : string -> M (World MemoryTokenStore) A) :
  viaCalls m -> (forall err, viaCalls (h err)) -> viaCalls (tryCatch m h).
Proof.
  intros Hm Hh e w. unfold tryCatch. destruct (Hm e w) as [h1 H1].
  destruct (m e w) as [a w1|err w1]; cbn [outcomeWorld] in *.
  - now exists h1.
  - destruct (Hh err e w1) as [h2 H2]. exists (h1 ++ h2)%list.
    now rewrite fold_left_app, <- H1.
Qed.

Lemma viaCalls_ret {A} (a : A) : viaCalls (ret a).
Proof. now apply viaCalls_same. Qed.

Lemma viaCalls_throw {A} err : viaCalls (@throw _ A err).
Proof. now apply viaCalls_same. Qed.

Lemma viaCalls_getByRsAccess k : viaCalls (getByRsAccess k).
Proof.
  apply (viaCalls_one _ (fun e => CallGetByRsAccess (now e) k)).
  intros e w. now rewrite run_getByRsAccess.
Qed.

Lemma viaCalls_getByRsRefresh k : viaCalls (getByRsRefresh k).
Proof.
  apply (viaCalls_one _ (fun e => CallGetByRsRefresh (now e) k)).
  intros e w. now rewrite run_getByRsRefresh.
Qed.

Lemma viaCalls_updateByRsRefresh k prov newAccess :
  viaCalls (updateByRsRefresh k prov newAccess).
Proof.
  apply (viaCalls_one _
           (fun e => CallUpdateByRsRefresh (now e) k prov newAccess
                       DEFAULT_RS_TOKEN_TTL_MS)).
  intros e w. now rewrite run_updateByRsRefresh.
Qed.

Lemma viaCalls_storeRsMapping rsAccess prov r :
  viaCalls (storeRsMapping rsAccess prov (Some r)).
Proof.
  apply (viaCalls_one _
           (fun e => CallStoreRsMapping (now e) "" rsAccess prov (Some r)
                       DEFAULT_RS_TOKEN_TTL_MS)).
  intros e w. now rewrite run_storeRsMapping.
Qed.

Lemma viaCalls_getTxnIdByCode code : viaCalls (getTxnIdByCode code).
Proof.
  apply (viaCalls_one _ (fun e => CallGetTxnIdByCode (now e) code)).
  intros e w. now rewrite run_getTxnIdByCode.
Qed.

Lemma viaCalls_getTransaction txnId : viaCalls (getTransaction txnId).
Proof.
  apply (viaCalls_one _ (fun e => CallGetTransaction (now e) txnId)).
  intros e w. now rewrite run_getTransaction.
Qed.

Lemma viaCalls_deleteTransaction txnId : viaCalls (deleteTransaction txnId).
Proof. now apply (viaCalls_one _ (fun _ => CallDeleteTransaction txnId)). Qed.

Lemma viaCalls_deleteCode code : viaCalls (deleteCode code).
Proof. now apply (viaCalls_one _ (fun _ => CallDeleteCode code)). Qed.

Lemma viaCalls_refreshProviderToken_flow rt cfg :
  viaCalls (Flow.refreshProviderToken rt cfg).
Proof.
  apply viaCalls_same. intros e w.
  unfold Flow.refreshProviderToken, bind, attempt, fetchToken.
  destruct (Flow.tokenRequest cfg) as [url|message]; [|reflexivity].
  destruct (tokenEndpoint e rt) as [msg|status text|data]; try reflexivity.
  now destruct (String.eqb _ "").
Qed.

Lemma viaCalls_refreshProviderToken rt config :
  viaCalls (Refresh.refreshProviderToken rt config).
Proof.
  apply viaCalls_same. intros e w.
  unfold Refresh.refreshProviderToken, bind, attempt, fetchToken.
  destruct (Refresh.tokenRequest config) as [url|message]; [|reflexivity].
  destruct (tokenEndpoint e rt) as [msg|status text|data]; try reflexivity.
  now destruct (String.eqb _ "").
Qed.

Lemma viaCalls_handleToken input cfg : viaCalls (Flow.handleToken input cfg).
Proof.
  unfold Flow.handleToken. destruct input as [code codeVerifier|refreshToken].
  - apply viaCalls_bind; [apply viaCalls_getTxnIdByCode|]. intros txnId.
    destruct (negb (truthy txnId)); [apply viaCalls_throw|].
    apply viaCalls_bind; [apply viaCalls_getTransaction|]. intros [txn|];
      [|apply viaCalls_throw].
    destruct (negb (String.eqb _ _)); [apply viaCalls_throw|].
    apply viaCalls_bind; [now apply viaCalls_same|]. intros rsAccess.
    apply viaCalls_bind; [now apply viaCalls_same|]. intros rsRefresh.
    apply viaCalls_bind.
    { destruct (Transaction.provider txn) as [p|]; [|apply viaCalls_ret].
      destruct (hasProviderToken txn); [|apply viaCalls_ret].
      apply viaCalls_bind; [apply viaCalls_storeRsMapping|].
      intros _. apply viaCalls_ret. }
    intros _. apply viaCalls_bind; [apply viaCalls_deleteTransaction|].
    intros _. apply viaCalls_bind; [apply viaCalls_deleteCode|].
    intros _. apply viaCalls_ret.
  - apply viaCalls_bind; [apply viaCalls_getByRsRefresh|]. intros [rec|];
      [|apply viaCalls_throw].
    apply viaCalls_bind; [now apply viaCalls_same|]. intros n.
    apply viaCalls_bind.
    { destruct (Flow.isExpiringSoon n rec); [|apply viaCalls_ret].
      destruct cfg as [c|]; [|apply viaCalls_ret].
      destruct (negb (truthy _)); [apply viaCalls_throw|].
      apply viaCalls_tryCatch; [apply viaCalls_refreshProviderToken_flow|].
      intros err. apply viaCalls_throw. }
    intros prov. apply viaCalls_bind; [now apply viaCalls_same|]. intros newAccess.
    apply viaCalls_bind; [apply viaCalls_updateByRsRefresh|]. intros updated.
    apply viaCalls_bind; [now apply viaCalls_same|]. intros n'.
    apply viaCalls_ret.
Qed.

Lemma viaCalls_ensureFreshToken rsToken config :
  viaCalls (Refresh.ensureFreshToken rsToken config).
Proof.
  unfold Refresh.ensureFreshToken.
  apply viaCalls_bind; [apply viaCalls_getByRsAccess|]. intros [rec|];
    [|apply viaCalls_ret].
  destruct (String.eqb _ ""); [apply viaCalls_ret|].
  apply viaCalls_bind; [now apply viaCalls_same|]. intros n.
  destruct (negb (Refresh.isTokenExpiredOrExpiring _ _ _)); [apply viaCalls_ret|].
  apply viaCalls_bind; [now apply viaCalls_same|]. intros skip.
  destruct skip; [apply viaCalls_ret|].
  destruct (negb (truthy _)); [apply viaCalls_ret|].
  destruct config as [c|]; [|apply viaCalls_ret].
  apply viaCalls_bind; [apply viaCalls_refreshProviderToken|]. intros result.
  destruct (Refresh.success result); [|apply viaCalls_ret].
  destruct (Refresh.tokens result) as [newTokens|]; [|apply viaCalls_ret].
  apply viaCalls_tryCatch; [|intros err; apply viaCalls_ret].
  apply viaCalls_bind; [apply viaCalls_updateByRsRefresh|]. intros _.
  apply viaCalls_bind; [now apply viaCalls_same|]. intros _.
  apply viaCalls_ret.
Qed.

Lemma withinCapacity_fold history : forall s,
  withinCapacity s -> withinCapacity (fold_left afterCall history s).
Proof.
  induction history as [|c history IH]; intros s Hs; simpl; [assumption|].
  apply IH. now apply withinCapacity_afterCall.
Qed.

(** X17.  Whether they return or throw, the token endpoint and the refresh
    controller leave a consistent store consistent and the transactions
    within their bound: what they do to the store they do through its
    methods. *)
Theorem flows_keep_the_store_consistent
    (input : TokenInput) (cfg : option Flow.ProviderConfig)
    (rsToken : string) (config : option Refresh.ProviderRefreshConfig) e w :
  consistent (store w) ->
  withinCapacity (store w) ->
  (consistent (store (outcomeWorld (Flow.handleToken input cfg e w)))
   /\ withinCapacity (store (outcomeWorld (Flow.handleToken input cfg e w))))
  /\ (consistent (store (outcomeWorld (Refresh.ensureFreshToken rsToken config e w)))
      /\ withinCapacity
           (store (outcomeWorld (Refresh.ensureFreshToken rsToken config e w)))).
Proof.
  intros Hc Hb. split.
  - destruct (viaCalls_handleToken input cfg e w) as [history ->].
    split; [now apply consistent_fold|now apply withinCapacity_fold].
  - destruct (viaCalls_ensureFreshToken rsToken config e w) as [history ->].
    split; [now apply consistent_fold|now apply withinCapacity_fold].
Qed.

End FlowsAndStore.

(** ** [KvTokenStore] with a working namespace *)

Section KvHealthy.
Implicit Types (e : Env) (w : World KvTokenStore).

Lemma run_putJson e w key value expiration :
  kvFault e KvPut key = None ->
  Kv.putJson key value expiration e w
  = Ok tt (withStore
             (Kv.withKv (<[key := {| kvValue := value; kvExpiration := expiration |}]>
                           (kv (store w))) (store w)) w).
Proof. intros Hok. unfold Kv.putJson, tryCatch, Kv.kvPut. now rewrite Hok. Qed.

Lemma run_getJson e w key :
  kvFault e KvGet key = None ->
  Kv.getJson key e w
  = Ok (match kv (store w) !! key with
        | Some entry => if Kv.liveAt (now e) entry then Some (kvValue entry) else None
        | None => None
        end) w.
Proof. intros Hok. unfold Kv.getJson, Kv.kvGet. now rewrite Hok. Qed.

Lemma rs_keys_differ (a r : string) : "rs:access:" ++ a <> "rs:refresh:" ++ r.
Proof. simpl. discriminate. Qed.

(** X18.  With a namespace whose writes and reads work, a stored mapping is read
    back from the namespace under both of its tokens, and it is read back
    whatever the clock says: the namespace entries are written without an
    expiration and the record read from them is not checked for age, so the
    seven days of the in-memory store do not apply. *)
Theorem kv_stored_mapping_resolves_at_any_later_time
    e e' w (rsAccess : string) (prov : ProviderTokens) (rsRefresh : option string) :
  (forall key, kvFault e KvPut key = None) ->
  (forall key, kvFault e' KvGet key = None) ->
  exists rec w1,
    storeRsMapping rsAccess prov rsRefresh e w = Ok rec w1
    /\ rec = {| rs_access_token := rsAccess;
                rs_refresh_token := nullish rsRefresh (randomUUID e (drawn w));
                provider := prov;
                created_at := now e |}
    /\ getByRsAccess rsAccess e' w1 = Ok (Some rec) w1
    /\ getByRsRefresh (rs_refresh_token rec) e' w1 = Ok (Some rec) w1.
Proof.
  intros Hput Hget.
  set (rec := {| rs_access_token := rsAccess;
                 rs_refresh_token := nullish rsRefresh (randomUUID e (drawn w));
                 provider := prov; created_at := now e |}).
  assert (Hdraw :
    (match rsRefresh with Some _ => ret "" | None => drawUUID end) e w
    = Ok (uuidFor e rsRefresh (drawn w))
         {| store := store w; recentlyRefreshed := recentlyRefreshed w;
            drawn := drawnAfter rsRefresh (drawn w); fetches := fetches w |}).
  { destruct rsRefresh; [destruct w|]; reflexivity. }
  assert (Hrec : nullish rsRefresh (uuidFor e rsRefresh (drawn w))
                 = nullish rsRefresh (randomUUID e (drawn w))).
  { now destruct rsRefresh. }
  set (entry := {| kvValue := KvRs rec; kvExpiration := None |}).
  set (w1 := {| store :=
                  {| kv := <["rs:refresh:" ++ rs_refresh_token rec := entry]>
                             (<["rs:access:" ++ rsAccess := entry]> (kv (store w)));
                     fallback :=
                       snd (Memory.storeRsMapping (now e)
                              (uuidFor e rsRefresh (drawnAfter rsRefresh (drawn w)))
                              rsAccess prov rsRefresh DEFAULT_RS_TOKEN_TTL_MS
                              (fallback (store w))) |};
                recentlyRefreshed := recentlyRefreshed w;
                drawn := drawnAfter rsRefresh (drawnAfter rsRefresh (drawn w));
                fetches := fetches w |}).
  exists rec, w1. split; [|split; [reflexivity|split]].
  - change (Kv.storeRsMapping rsAccess prov rsRefresh e w = Ok rec w1).
    unfold Kv.storeRsMapping, bind. rewrite Hdraw.
    unfold dateNow, Kv.onFallback, zoom. rewrite run_storeRsMapping_any.
    cbn [store drawn withStore recentlyRefreshed fetches].
    unfold tryCatch, promiseAll2.
    rewrite run_putJson by apply Hput. rewrite run_putJson by apply Hput.
    unfold ret. cbn [rs_access_token rs_refresh_token now]. rewrite Hrec.
    reflexivity.
  - change (Kv.getByRsAccess rsAccess e' w1 = Ok (Some rec) w1).
    unfold Kv.getByRsAccess, bind. rewrite run_getJson by apply Hget.
    cbn [store kv w1].
    rewrite lookup_insert_ne by (apply not_eq_sym, rs_keys_differ).
    rewrite lookup_insert_eq. reflexivity.
  - change (Kv.getByRsRefresh (rs_refresh_token rec) e' w1 = Ok (Some rec) w1).
    unfold Kv.getByRsRefresh, bind. rewrite run_getJson by apply Hget.
    cbn [store kv w1]. rewrite lookup_insert_eq. reflexivity.
Qed.

End KvHealthy.

(** ** [KvTokenStore]: the state of a pending authorization *)

Section KvPending.
Context {platform : Platform}.
Implicit Types (e : Env) (w : World KvTokenStore).

Lemma getTxnIdByCode_saved nowMs later code txnId s :
  later < nowMs + DEFAULT_CODE_TTL_MS ->
  Memory.getTxnIdByCode later code (Memory.saveCode nowMs code txnId None s)
  = (Some txnId, Memory.saveCode nowMs code txnId None s).
Proof.
  intros Hlive. unfold Memory.getTxnIdByCode, Memory.saveCode.
  cbn [codes Memory.withCodes]. rewrite get_set_eq.
  cbn [TimedEntry.expiresAt TimedEntry.value truthyZ].
  destruct (Z.geb_spec later (nowMs + DEFAULT_CODE_TTL_MS)); [lia|reflexivity].
Qed.

Lemma getTransaction_saved nowMs later txnId txn s :
  later < nowMs + DEFAULT_TXN_TTL_MS ->
  Memory.getTransaction later txnId (Memory.saveTransaction nowMs txnId txn None s)
  = (Some txn, Memory.saveTransaction nowMs txnId txn None s).
Proof.
  intros Hlive. unfold Memory.getTransaction, Memory.saveTransaction.
  cbn [transactions Memory.withTransactions]. rewrite get_set_eq.
  cbn [TimedEntry.expiresAt TimedEntry.value truthyZ].
  destruct (Z.geb_spec later (nowMs + DEFAULT_TXN_TTL_MS)); [lia|reflexivity].
Qed.

Lemma run_saveTransaction_mem txnId txn ttlSeconds e (w : World MemoryTokenStore) :
  saveTransaction txnId txn ttlSeconds e w
  = Ok tt (withStore (Memory.saveTransaction (now e) txnId txn ttlSeconds (store w)) w).
Proof. reflexivity. Qed.

Lemma run_saveCode_mem code txnId ttlSeconds e (w : World MemoryTokenStore) :
  saveCode code txnId ttlSeconds e w
  = Ok tt (withStore (Memory.saveCode (now e) code txnId ttlSeconds (store w)) w).
Proof. reflexivity. Qed.

Lemma txn_code_keys_differ (a b : string) : "txn:" ++ a <> "code:" ++ b.
Proof. simpl. discriminate. Qed.

(** The namespace after a write whose failure the caller absorbs, by the
    outcome of the write. *)
Lemma run_put_absorbed_by_fault e w key value expiration :
  tryCatch (Kv.putJson key value expiration) (fun _ => ret tt) e w
  = Ok tt
      (withStore
         (Kv.withKv
            (match kvFault e KvPut key with
             | Some _ => kv (store w)
             | None =>
                 <[key := {| kvValue := value; kvExpiration := expiration |}]>
                   (kv (store w))
             end) (store w)) w).
Proof.
  unfold tryCatch, Kv.putJson, Kv.kvPut, tryCatch, throw, ret.
  destruct (kvFault e KvPut key) as [msg|]; [|reflexivity].
  destruct w as [[d f] ? ? ?]. reflexivity.
Qed.

(** X19.  What [handleAuthorize] and the provider callback save, a transaction and
    then a code for it, during the next ten minutes: both saves return
    whether or not the writes to the namespace succeed, and a read finds a
    transaction and a transaction id.  It finds the ones saved, from the
    namespace or from the in-process fallback (which always holds both, with
    its default TTL), with one exception: when the write to the namespace
    failed and the namespace still holds an unexpired older entry under the
    same key, the older entry is read.  That is the case of the provider
    callback saving the transaction again under its id, now with the
    provider tokens: if that write fails, [getTransaction] returns the
    transaction [handleAuthorize] wrote, without provider tokens.  The
    [ttlSeconds] passed to the KV store only set the expiration of the
    namespace entries; a shorter TTL does not make the code or the
    transaction unreadable sooner. *)
Theorem kv_pending_authorization_resolves_for_ten_minutes
    e e' w (code txnId : string) (txn : Transaction.t) (ttlTxn ttlCode : option Z) :
  (forall key, kvFault e' KvGet key = None) ->
  now e' < now e + DEFAULT_CODE_TTL_MS ->
  exists w1 w2,
    saveTransaction txnId txn ttlTxn e w = Ok tt w1
    /\ saveCode code txnId ttlCode e w1 = Ok tt w2
    /\ getTxnIdByCode code e' w2
       = Ok (Some (readBack (kvFault e KvPut ("code:" ++ code))
                     (Kv.asCode
                        (namespaceRead (now e') ("code:" ++ code) (kv (store w))))
                     txnId)) w2
    /\ getTransaction txnId e' w2
       = Ok (Some (readBack (kvFault e KvPut ("txn:" ++ txnId))
                     (Kv.asTxn
                        (namespaceRead (now e') ("txn:" ++ txnId) (kv (store w))))
                     txn)) w2.
Proof.
  intros Hget Hlive.
  set (f1 := Memory.saveTransaction (now e) txnId txn None (fallback (store w))).
  set (f2 := Memory.saveCode (now e) code txnId None f1).
  set (w0 := withStore (Kv.withFallback f1 (store w)) w).
  set (d1 := match kvFault e KvPut ("txn:" ++ txnId) with
             | Some _ => kv (store w0)
             | None =>
                 <["txn:" ++ txnId :=
                     {| kvValue := KvTxn txn;
                        kvExpiration := Some (Kv.ttl (now e) (nullish ttlTxn 600)) |}]>
                   (kv (store w0))
             end).
  set (w1 := withStore (Kv.withKv d1 (store w0)) w0).
  set (w1' := withStore (Kv.withFallback f2 (store w1)) w1).
  set (d2 := match kvFault e KvPut ("code:" ++ code) with
             | Some _ => kv (store w1')
             | None =>
                 <["code:" ++ code :=
                     {| kvValue := KvCode txnId;
                        kvExpiration := Some (Kv.ttl (now e) (nullish ttlCode 600)) |}]>
                   (kv (store w1'))
             end).
  set (w2 := withStore (Kv.withKv d2 (store w1')) w1').
  exists w1, w2. split; [|split; [|split]].
  - change (Kv.saveTransaction txnId txn ttlTxn e w = Ok tt w1).
    unfold Kv.saveTransaction, bind, Kv.onFallback, zoom.
    rewrite (run_saveTransaction_mem txnId txn None e).
    unfold dateNow. apply run_put_absorbed_by_fault.
  - change (Kv.saveCode code txnId ttlCode e w1 = Ok tt w2).
    unfold Kv.saveCode, bind, Kv.onFallback, zoom.
    rewrite (run_saveCode_mem code txnId None e).
    unfold dateNow. apply run_put_absorbed_by_fault.
  - change (getTxnIdByCode code e' w2) with (Kv.getTxnIdByCode code e' w2).
    unfold Kv.getTxnIdByCode, bind. rewrite run_getJson by apply Hget.
    assert (Hfb : Kv.onFallback (getTxnIdByCode code) e' w2 = Ok (Some txnId) w2).
    { unfold Kv.onFallback, zoom. rewrite run_getTxnIdByCode.
      cbn [store withStore fallback w2 w1' Kv.withKv Kv.withFallback].
      fold f2. unfold f2 at 1 2. rewrite getTxnIdByCode_saved by exact Hlive.
      reflexivity. }
    assert (Hd2 : kv (store w2) = d2) by reflexivity. rewrite Hd2. unfold d2.
    destruct (kvFault e KvPut ("code:" ++ code)) as [msg|]; cbn [readBack].
    + assert (Hsame : kv (store w1') !! ("code:" ++ code)
                      = kv (store w) !! ("code:" ++ code)).
      { cbn [w1' w1 w0 store withStore Kv.withKv Kv.withFallback kv]. unfold d1.
        destruct (kvFault e KvPut ("txn:" ++ txnId)); [reflexivity|].
        now rewrite lookup_insert_ne by apply txn_code_keys_differ. }
      rewrite Hsame. unfold namespaceRead.
      destruct (kv (store w) !! ("code:" ++ code)) as [entry|]; [|exact Hfb].
      destruct (Kv.liveAt (now e') entry); [|exact Hfb].
      destruct (kvValue entry); cbn [Kv.asCode]; first [reflexivity|exact Hfb].
    + rewrite lookup_insert_eq. cbn [kvValue].
      destruct (Kv.liveAt (now e') _); [|exact Hfb].
      reflexivity.
  - change (getTransaction txnId e' w2) with (Kv.getTransaction txnId e' w2).
    unfold Kv.getTransaction, bind. rewrite run_getJson by apply Hget.
    assert (Hfb : Kv.onFallback (getTransaction txnId) e' w2 = Ok (Some txn) w2).
    { unfold Kv.onFallback, zoom. rewrite run_getTransaction.
      cbn [store withStore fallback w2 w1' Kv.withKv Kv.withFallback].
      assert (Hf2 : Memory.getTransaction (now e') txnId f2 = (Some txn, f2)).
      { pose proof (getTransaction_saved (now e) (now e') txnId txn
                      (fallback (store w)) Hlive) as Hsaved.
        fold f1 in Hsaved. unfold Memory.getTransaction in Hsaved |- *.
        unfold f2, Memory.saveCode. cbn [transactions Memory.withCodes].
        destruct (JsMap.get txnId (transactions f1)) as [entry|]; [|discriminate].
        destruct (now e' >=? TimedEntry.expiresAt entry); [discriminate|].
        inversion Hsaved. reflexivity. }
      rewrite Hf2. reflexivity. }
    assert (Hd2 : kv (store w2) !! ("txn:" ++ txnId) = d1 !! ("txn:" ++ txnId)).
    { cbn [w2 store withStore Kv.withKv kv]. unfold d2.
      destruct (kvFault e KvPut ("code:" ++ code)); [reflexivity|].
      now rewrite lookup_insert_ne by (apply not_eq_sym, txn_code_keys_differ). }
    rewrite Hd2. unfold d1.
    destruct (kvFault e KvPut ("txn:" ++ txnId)) as [msg|]; cbn [readBack].
    + cbn [w0 store withStore Kv.withFallback kv]. unfold namespaceRead.
      destruct (kv (store w) !! ("txn:" ++ txnId)) as [entry|]; [|exact Hfb].
      destruct (Kv.liveAt (now e') entry); [|exact Hfb].
      destruct (kvValue entry); cbn [Kv.asTxn]; first [reflexivity|exact Hfb].
    + rewrite lookup_insert_eq. cbn [kvValue].
      destruct (Kv.liveAt (now e') _); [|exact Hfb].
      reflexivity.
Qed.

(** The namespace after the two writes of a mapping, failures absorbed. *)
Lemma run_put_pair_absorbed e w key1 key2 value1 value2 :
  exists d,
    tryCatch
      (promiseAll2 (Kv.putJson key1 value1 None) (Kv.putJson key2 value2 None))
      (fun _ => ret tt) e w
    = Ok tt (withStore (Kv.withKv d (store w)) w)
    /\ (forall key', key' <> key1 -> key' <> key2 -> d !! key' = kv (store w) !! key').
Proof.
  unfold tryCatch, promiseAll2, Kv.putJson, Kv.kvPut, tryCatch, throw, ret.
  assert (Hid : withStore (Kv.withKv (kv (store w)) (store w)) w = w).
  { destruct w as [[d f] ? ? ?]. reflexivity. }
  destruct (kvFault e KvPut key1) as [msg1|];
    destruct (kvFault e KvPut key2) as [msg2|]; cbn [store withStore Kv.withKv kv].
  - exists (kv (store w)). split; [now rewrite Hid|reflexivity].
  - eexists. split; [reflexivity|]. intros key' _ H2. now rewrite lookup_insert_ne.
  - eexists. split; [reflexivity|]. intros key' H1 _. now rewrite lookup_insert_ne.
  - eexists. split; [reflexivity|]. intros key' H1 H2.
    rewrite lookup_insert_ne by congruence. now rewrite lookup_insert_ne.
Qed.

Lemma rs_keys_are_not_flow_keys (a b : string) :
  "code:" ++ a <> "rs:access:" ++ b /\ "code:" ++ a <> "rs:refresh:" ++ b
  /\ "txn:" ++ a <> "rs:access:" ++ b /\ "txn:" ++ a <> "rs:refresh:" ++ b.
Proof. simpl. repeat split; discriminate. Qed.

(** X20.  Deletions are not absorbed the way writes are.  When the namespace
    refuses to delete the transaction, a code exchange that has passed every
    check throws that error after it has minted the token pair (and stored
    the mapping, if the transaction carries provider tokens): the caller gets
    no tokens, and the code and its transaction stay where they were, in the
    namespace and in the fallback, so the code has not been used up. *)
Theorem kv_exchange_throws_when_the_transaction_cannot_be_deleted
    e w (code verifier txnId : string) (txn : Transaction.t)
    (cfg : option Flow.ProviderConfig) (msg : string) :
  getTxnIdByCode code e w = Ok (Some txnId) w ->
  txnId <> "" ->
  getTransaction txnId e w = Ok (Some txn) w ->
  sha256B64UrlAsync verifier = Transaction.codeChallenge txn ->
  kvFault e KvDelete ("txn:" ++ txnId) = Some msg ->
  exists w1,
    Flow.handleToken (AuthorizationCode code verifier) cfg e w = Throw msg w1
    /\ drawn w1 = Datatypes.S (Datatypes.S (drawn w))
    /\ kv (store w1) !! ("code:" ++ code) = kv (store w) !! ("code:" ++ code)
    /\ kv (store w1) !! ("txn:" ++ txnId) = kv (store w) !! ("txn:" ++ txnId)
    /\ codes (fallback (store w1)) = codes (fallback (store w))
    /\ transactions (fallback (store w1)) = transactions (fallback (store w))
    /\ (hasProviderToken txn = true ->
        forall p, Transaction.provider txn = Some p ->
          fallback (store w1)
          = snd (Memory.storeRsMapping (now e) ""
                   (base64UrlEncode (randomBytes e (drawn w) 24)) p
                   (Some (base64UrlEncode
                            (randomBytes e (Datatypes.S (drawn w)) 24)))
                   DEFAULT_RS_TOKEN_TTL_MS (fallback (store w)))).
Proof.
  intros Hcode Hset Htxn Hpkce Hfail.
  unfold Flow.handleToken, bind. rewrite Hcode.
  assert (Htr : truthy (Some txnId) = true).
  { simpl. apply String.eqb_neq in Hset. now rewrite Hset. }
  rewrite Htr. cbn [negb nullish]. rewrite Htxn, Hpkce, String.eqb_refl.
  cbn [negb]. unfold generateOpaqueToken.
  set (a := base64UrlEncode (randomBytes e (drawn w) 24)).
  set (w' := {| store := store w; recentlyRefreshed := recentlyRefreshed w;
                drawn := Nat.succ (drawn w); fetches := fetches w |}).
  cbn [drawn]. fold w'.
  set (r := base64UrlEncode (randomBytes e (drawn w') 24)).
  set (w'' := {| store := store w'; recentlyRefreshed := recentlyRefreshed w';
                 drawn := Nat.succ (drawn w'); fetches := fetches w' |}).
  assert (Hdel : forall w0 : World KvTokenStore,
            deleteTransaction txnId e w0 = Throw msg w0).
  { intros w0. change (Kv.deleteTransaction txnId e w0 = Throw msg w0).
    unfold Kv.deleteTransaction, bind, Kv.kvDelete. now rewrite Hfail. }
  destruct (Transaction.provider txn) as [p|] eqn:Hprov.
  2:{ unfold ret. rewrite Hdel. exists w''. repeat split; try reflexivity.
      unfold hasProviderToken. rewrite Hprov. discriminate. }
  destruct (hasProviderToken txn) eqn:Hhas.
  2:{ unfold ret. rewrite Hdel. exists w''. repeat split; try reflexivity.
      discriminate. }
  change (storeRsMapping a p (Some r)) with (Kv.storeRsMapping a p (Some r)).
  unfold Kv.storeRsMapping, bind, dateNow, Kv.onFallback, zoom.
  unfold ret at 1. rewrite run_storeRsMapping.
  cbn [store withStore fallback rs_access_token rs_refresh_token nullish].
  match goal with
  | |- context [tryCatch (promiseAll2 (Kv.putJson ?k1 ?v1 None)
                            (Kv.putJson ?k2 ?v2 None)) _ e ?w0] =>
      destruct (run_put_pair_absorbed e w0 k1 k2 v1 v2) as (d & Hrun & Hother);
      rewrite Hrun
  end.
  unfold ret. rewrite Hdel. eexists. split; [reflexivity|].
  destruct (rs_keys_are_not_flow_keys code a) as (Hc1 & _ & _ & _).
  destruct (rs_keys_are_not_flow_keys code r) as (_ & Hc2 & _ & _).
  destruct (rs_keys_are_not_flow_keys txnId a) as (_ & _ & Ht1 & _).
  destruct (rs_keys_are_not_flow_keys txnId r) as (_ & _ & _ & Ht2).
  cbn [store withStore Kv.withKv Kv.withFallback kv fallback drawn w'' w'].
  split; [reflexivity|]. split; [now apply Hother|]. split; [now apply Hother|].
  split; [apply storeRsMapping_codes|]. split; [apply storeRsMapping_codes|].
  intros _ p0 Hp0. inversion Hp0; subst p0. reflexivity.
Qed.

End KvPending.

(** ** Updating without rotation *)

Section UpdateInPlace.

(** X21.  An update that names no new access token (or an empty one) rewrites the
    record found under the refresh token in place: the record keeps both of
    its tokens and its creation time and takes the provider tokens and a new
    TTL.  Its access token is entered in the access-token index again, so it
    resolves afterwards even if the index had lost it to eviction.  Under an
    unknown refresh token nothing happens. *)
Theorem updateByRsRefresh_without_rotation_rebinds_the_access_token
    (nowMs ttlMs later : Z) (s : MemoryTokenStore) (rsRefresh : string)
    (prov : ProviderTokens) (maybeNewRsAccess : option string) :
  truthy maybeNewRsAccess = false ->
  (forall l rec,
     Memory.lookupObj (rsRefreshMap s) rsRefresh s = Some (l, rec) ->
     later < nowMs + ttlMs ->
     let rec' :=
       {| rsRecord :=
            {| rs_access_token := rs_access_token (rsRecord rec);
               rs_refresh_token := rs_refresh_token (rsRecord rec);
               provider := prov;
               created_at := created_at (rsRecord rec) |};
          expiresAt := nowMs + ttlMs |} in
     let s' := snd (Memory.updateByRsRefresh nowMs rsRefresh prov maybeNewRsAccess
                      ttlMs s) in
     fst (Memory.updateByRsRefresh nowMs rsRefresh prov maybeNewRsAccess ttlMs s)
     = Some (l, rec')
     /\ Memory.getByRsAccess later (rs_access_token (rsRecord rec)) s'
        = (Some (l, rec'), s')
     /\ Memory.getByRsRefresh later rsRefresh s' = (Some (l, rec'), s'))
  /\ (Memory.lookupObj (rsRefreshMap s) rsRefresh s = None ->
      Memory.updateByRsRefresh nowMs rsRefresh prov maybeNewRsAccess ttlMs s
      = (None, s)).
Proof.
  intros Hkeep. split.
  - intros l rec Hlook Hlive rec' s'.
    pose proof Hlook as Hl. apply lookupObj_Some in Hl. destruct Hl as [Hget Hheap].
    assert (Hlt : (l < length (heap s))%nat) by (eapply lookup_lt_Some; eauto).
    subst s' rec'. unfold Memory.updateByRsRefresh. rewrite Hlook, Hkeep.
    cbn [fst snd]. split; [reflexivity|]. split.
    + apply getByRsAccess_live; cbn;
        [apply get_set_eq|now apply list_lookup_insert_eq|assumption].
    + apply getByRsRefresh_live; cbn;
        [apply get_set_eq|now apply list_lookup_insert_eq|assumption].
  - intros Hnone. unfold Memory.updateByRsRefresh. now rewrite Hnone.
Qed.

End UpdateInPlace.

(** ** [KvTokenStore]: rotation *)

Section KvRotation.
Implicit Types (e : Env) (w : World KvTokenStore).

Lemma run_kvDelete e w key :
  kvFault e KvDelete key = None ->
  Kv.kvDelete key e w
  = Ok tt (withStore (Kv.withKv (delete key (kv (store w))) (store w)) w).
Proof. intros Hok. unfold Kv.kvDelete. now rewrite Hok. Qed.

(** X22.  With a working namespace, rotating the access token of a record the
    namespace holds under its refresh token writes the new record under the
    new access token and under the refresh token and removes the entry of the
    old access token: the new token and the refresh token are read back from
    the namespace, and the old token is left to the fallback alone.  The
    record written always carries the instant of the update as its creation
    time. *)
Theorem kv_rotation_moves_the_namespace_entry
    e e' w (rsRefresh newAccess : string) (prov : ProviderTokens) (existing : RsRecord) :
  (forall op key, kvFault e op key = None) ->
  (forall key, kvFault e' KvGet key = None) ->
  Kv.getJson ("rs:refresh:" ++ rsRefresh) e w = Ok (Some (KvRs existing)) w ->
  newAccess <> "" ->
  newAccess <> rs_access_token existing ->
  let next := {| rs_access_token := newAccess;
                 rs_refresh_token := rsRefresh;
                 provider := prov;
                 created_at := now e |} in
  exists w1,
    updateByRsRefresh rsRefresh prov (Some newAccess) e w = Ok (Some next) w1
    /\ getByRsAccess newAccess e' w1 = Ok (Some next) w1
    /\ getByRsRefresh rsRefresh e' w1 = Ok (Some next) w1
    /\ kv (store w1) !! ("rs:access:" ++ rs_access_token existing) = None
    /\ fallback (store w1)
       = snd (Memory.updateByRsRefresh (now e) rsRefresh prov (Some newAccess)
                DEFAULT_RS_TOKEN_TTL_MS (fallback (store w))).
Proof.
  intros Hok Hget Hexisting Hne Hnew next.
  assert (Htr : truthy (Some newAccess) = true).
  { simpl. apply String.eqb_neq in Hne. now rewrite Hne. }
  set (entry := {| kvValue := KvRs next; kvExpiration := None |}).
  set (f1 := snd (Memory.updateByRsRefresh (now e) rsRefresh prov (Some newAccess)
                    DEFAULT_RS_TOKEN_TTL_MS (fallback (store w)))).
  set (w1 := withStore
               {| kv := <["rs:refresh:" ++ rsRefresh := entry]>
                          (<["rs:access:" ++ newAccess := entry]>
                             (delete ("rs:access:" ++ rs_access_token existing)
                                (kv (store w))));
                  fallback := f1 |} w).
  assert (Hkeys : "rs:access:" ++ rs_access_token existing <> "rs:access:" ++ newAccess).
  { intros Heq. apply Hnew. simpl in Heq. now inversion Heq. }
  exists w1. split; [|split; [|split; [|split]]].
  - change (Kv.updateByRsRefresh rsRefresh prov (Some newAccess) e w
            = Ok (Some next) w1).
    unfold Kv.updateByRsRefresh, bind. rewrite Hexisting. cbn [Kv.asRs].
    unfold dateNow, Kv.onFallback, zoom. rewrite run_updateByRsRefresh.
    rewrite Htr. cbn [nullish store withStore fallback].
    unfold tryCatch, promiseAll2.
    rewrite run_kvDelete by apply Hok.
    rewrite run_putJson by apply Hok. rewrite run_putJson by apply Hok.
    unfold ret. reflexivity.
  - change (Kv.getByRsAccess newAccess e' w1 = Ok (Some next) w1).
    unfold Kv.getByRsAccess, bind. rewrite run_getJson by apply Hget.
    cbn [store kv w1 withStore].
    rewrite lookup_insert_ne by (apply not_eq_sym, rs_keys_differ).
    rewrite lookup_insert_eq. reflexivity.
  - change (Kv.getByRsRefresh rsRefresh e' w1 = Ok (Some next) w1).
    unfold Kv.getByRsRefresh, bind. rewrite run_getJson by apply Hget.
    cbn [store kv w1 withStore]. rewrite lookup_insert_eq. reflexivity.
  - cbn [store kv w1 withStore].
    rewrite lookup_insert_ne by (apply not_eq_sym, rs_keys_differ).
    rewrite lookup_insert_ne by (apply not_eq_sym, Hkeys).
    apply lookup_delete_eq.
  - reflexivity.
Qed.

End KvRotation.

(** ** base64url *)

Section Base64Url.

Lemma forallb_below (P : Z -> bool) (n : nat) :
  forallb P (List.map Z.of_nat (seq 0 n)) = true ->
  forall z, 0 <= z < Z.of_nat n -> P z = true.
Proof.
  intros Hall z Hz. rewrite forallb_forall in Hall. apply Hall.
  apply in_map_iff. exists (Z.to_nat z). split; [lia|].
  apply in_seq. lia.
Qed.

Lemma forallb_below2 (P : Z -> Z -> bool) (n m : nat) :
  forallb (fun a => forallb (P a) (List.map Z.of_nat (seq 0 m)))
    (List.map Z.of_nat (seq 0 n)) = true ->
  forall a b, 0 <= a < Z.of_nat n -> 0 <= b < Z.of_nat m -> P a b = true.
Proof.
  intros Hall a b Ha Hb.
  apply (forallb_below (P a) m); [|assumption].
  now apply (forallb_below (fun a => forallb (P a) (List.map Z.of_nat (seq 0 m))) n).
Qed.

(** The sextets of two neighbouring bytes, and how the first byte and the
    high half of the second are read back from them. *)
Lemma sextets_left a b :
  0 <= a < 256 -> 0 <= b < 256 ->
  0 <= Z.shiftr a 2 < 64
  /\ 0 <= Z.lor (Z.shiftl (Z.land a 3) 4) (Z.shiftr b 4) < 64
  /\ 0 <= Z.shiftl (Z.land a 3) 4 < 64
  /\ Z.lor (Z.shiftl (Z.shiftr a 2) 2)
       (Z.shiftr (Z.lor (Z.shiftl (Z.land a 3) 4) (Z.shiftr b 4)) 4) = a
  /\ Z.lor (Z.shiftl (Z.shiftr a 2) 2) (Z.shiftr (Z.shiftl (Z.land a 3) 4) 4) = a
  /\ Z.land (Z.lor (Z.shiftl (Z.land a 3) 4) (Z.shiftr b 4)) 15 = Z.shiftr b 4.
Proof.
  intros Ha Hb.
  pose proof (forallb_below2
    (fun a b =>
       let s1 := Z.shiftr a 2 in
       let s2 := Z.lor (Z.shiftl (Z.land a 3) 4) (Z.shiftr b 4) in
       let s2' := Z.shiftl (Z.land a 3) 4 in
       (0 <=? s1) && (s1 <? 64) && (0 <=? s2) && (s2 <? 64)
       && (0 <=? s2') && (s2' <? 64)
       && (Z.lor (Z.shiftl s1 2) (Z.shiftr s2 4) =? a)
       && (Z.lor (Z.shiftl s1 2) (Z.shiftr s2' 4) =? a)
       && (Z.land s2 15 =? Z.shiftr b 4))
    256 256 ltac:(vm_compute; reflexivity) a b Ha Hb) as H.
  cbv zeta in H. rewrite !andb_true_iff in H.
  rewrite !Z.leb_le, !Z.ltb_lt, !Z.eqb_eq in H. tauto.
Qed.

Lemma sextets_right b c :
  0 <= b < 256 -> 0 <= c < 256 ->
  0 <= Z.lor (Z.shiftl (Z.land b 15) 2) (Z.shiftr c 6) < 64
  /\ 0 <= Z.shiftl (Z.land b 15) 2 < 64
  /\ 0 <= Z.land c 63 < 64
  /\ Z.lor (Z.shiftl (Z.shiftr b 4) 4)
       (Z.shiftr (Z.lor (Z.shiftl (Z.land b 15) 2) (Z.shiftr c 6)) 2) = b
  /\ Z.lor (Z.shiftl (Z.shiftr b 4) 4) (Z.shiftr (Z.shiftl (Z.land b 15) 2) 2) = b
  /\ Z.lor (Z.shiftl (Z.land (Z.lor (Z.shiftl (Z.land b 15) 2) (Z.shiftr c 6)) 3) 6)
       (Z.land c 63) = c.
Proof.
  intros Hb Hc.
  pose proof (forallb_below2
    (fun b c =>
       let s3 := Z.lor (Z.shiftl (Z.land b 15) 2) (Z.shiftr c 6) in
       let s3' := Z.shiftl (Z.land b 15) 2 in
       let s4 := Z.land c 63 in
       (0 <=? s3) && (s3 <? 64) && (0 <=? s3') && (s3' <? 64)
       && (0 <=? s4) && (s4 <? 64)
       && (Z.lor (Z.shiftl (Z.shiftr b 4) 4) (Z.shiftr s3 2) =? b)
       && (Z.lor (Z.shiftl (Z.shiftr b 4) 4) (Z.shiftr s3' 2) =? b)
       && (Z.lor (Z.shiftl (Z.land s3 3) 6) s4 =? c))
    256 256 ltac:(vm_compute; reflexivity) b c Hb Hc) as H.
  cbv zeta in H. rewrite !andb_true_iff in H.
  rewrite !Z.leb_le, !Z.ltb_lt, !Z.eqb_eq in H. tauto.
Qed.

(** Each of the 64 sextets is written as one character of the alphabet,
    from which it is read back. *)
Lemma b64urlChar_index i :
  0 <= i < 64 ->
  exists c, b64urlChar i = String c EmptyString
            /\ b64urlIndex c = Some i /\ isUrlSafe c = true.
Proof.
  intros Hi.
  assert (Hin : In i (List.map Z.of_nat (seq 0 64))).
  { apply in_map_iff. exists (Z.to_nat i). split; [lia|]. apply in_seq. lia. }
  simpl in Hin.
  repeat (destruct Hin as [<-|Hin];
          [eexists; split; [reflexivity|split; reflexivity]|]).
  destruct Hin.
Qed.

Lemma sextets_char i (str : string) :
  0 <= i < 64 ->
  sextets (b64urlChar i ++ str)
  = match sextets str with Some l => Some (i :: l) | None => None end.
Proof.
  intros Hi. destruct (b64urlChar_index i Hi) as (c & -> & Hidx & _).
  change (String c EmptyString ++ str) with (String c str).
  cbn [sextets]. now rewrite Hidx.
Qed.

Lemma base64UrlEncode_ind (P : list Z -> Prop) :
  P [] -> (forall a, P [a]) -> (forall a b, P [a; b]) ->
  (forall a b c rest, P rest -> P (a :: b :: c :: rest)) ->
  forall bytes, P bytes.
Proof.
  intros H0 H1 H2 H3.
  assert (H : forall n bytes, (length bytes <= n)%nat -> P bytes).
  { induction n as [|n IH]; intros bytes Hlen.
    - destruct bytes; [exact H0|simpl in Hlen; lia].
    - destruct bytes as [|a [|b [|c rest]]]; auto.
      apply H3. apply IH. simpl in Hlen. lia. }
  intros bytes. now apply (H (length bytes)).
Qed.

(** X23.  Decoding reads back the bytes that were encoded. *)
Theorem base64UrlDecode_reads_back_what_was_encoded (bytes : list Z) :
  isBytes bytes -> base64UrlDecode (base64UrlEncode bytes) = Some bytes.
Proof.
  unfold base64UrlDecode, isBytes.
  induction bytes as [|a|a b|a b c rest IH] using base64UrlEncode_ind; intros Hb.
  - reflexivity.
  - inversion Hb as [|? ? Ha _]; subst.
    destruct (sextets_left a 0 Ha ltac:(lia)) as (H1 & _ & H2 & _ & Hdec & _).
    cbn [base64UrlEncode]. rewrite sextets_char by assumption.
    destruct (b64urlChar_index _ H2) as (c2 & -> & Hidx & _).
    cbn [sextets]. rewrite Hidx. cbn [bytesOfSextets]. now rewrite Hdec.
  - inversion Hb as [|? ? Ha Hb']; subst. inversion Hb' as [|? ? Hb0 _]; subst.
    destruct (sextets_left a b Ha Hb0) as (H1 & H2 & _ & Hdec1 & _ & Hlow).
    destruct (sextets_right b 0 Hb0 ltac:(lia)) as (_ & H3 & _ & _ & Hdec2 & _).
    cbn [base64UrlEncode]. rewrite !sextets_char by assumption.
    destruct (b64urlChar_index _ H3) as (c3 & -> & Hidx & _).
    cbn [sextets]. rewrite Hidx. cbn [bytesOfSextets].
    now rewrite Hdec1, Hlow, Hdec2.
  - inversion Hb as [|? ? Ha Hb']; subst. inversion Hb' as [|? ? Hb0 Hb'']; subst.
    inversion Hb'' as [|? ? Hc Hrest]; subst.
    destruct (sextets_left a b Ha Hb0) as (H1 & H2 & _ & Hdec1 & _ & Hlow).
    destruct (sextets_right b c Hb0 Hc) as (H3 & _ & H4 & Hdec2 & _ & Hdec3).
    cbn [base64UrlEncode]. rewrite !sextets_char by assumption.
    specialize (IH Hrest).
    destruct (sextets (base64UrlEncode rest)) as [l|]; [|discriminate].
    cbn [bytesOfSextets]. rewrite IH. now rewrite Hdec1, Hlow, Hdec2, Hdec3.
Qed.

Lemma base64UrlEncode_shape (bytes : list Z) :
  isBytes bytes ->
  Z.of_nat (String.length (base64UrlEncode bytes))
  = (4 * Z.of_nat (length bytes) + 2) / 3
  /\ forallb isUrlSafe (list_ascii_of_string (base64UrlEncode bytes)) = true.
Proof.
  unfold isBytes.
  induction bytes as [|a|a b|a b c rest IH] using base64UrlEncode_ind; intros Hb.
  - split; reflexivity.
  - inversion Hb as [|? ? Ha _]; subst.
    destruct (sextets_left a 0 Ha ltac:(lia)) as (H1 & _ & H2 & _).
    cbn [base64UrlEncode].
    destruct (b64urlChar_index _ H1) as (c1 & -> & _ & Hs1).
    destruct (b64urlChar_index _ H2) as (c2 & -> & _ & Hs2).
    cbv [String.append String.length list_ascii_of_string forallb].
    rewrite Hs1, Hs2. split; reflexivity.
  - inversion Hb as [|? ? Ha Hb']; subst. inversion Hb' as [|? ? Hb0 _]; subst.
    destruct (sextets_left a b Ha Hb0) as (H1 & H2 & _).
    destruct (sextets_right b 0 Hb0 ltac:(lia)) as (_ & H3 & _).
    cbn [base64UrlEncode].
    destruct (b64urlChar_index _ H1) as (c1 & -> & _ & Hs1).
    destruct (b64urlChar_index _ H2) as (c2 & -> & _ & Hs2).
    destruct (b64urlChar_index _ H3) as (c3 & -> & _ & Hs3).
    cbv [String.append String.length list_ascii_of_string forallb].
    rewrite Hs1, Hs2, Hs3. split; reflexivity.
  - inversion Hb as [|? ? Ha Hb']; subst. inversion Hb' as [|? ? Hb0 Hb'']; subst.
    inversion Hb'' as [|? ? Hc Hrest]; subst.
    destruct (sextets_left a b Ha Hb0) as (H1 & H2 & _).
    destruct (sextets_right b c Hb0 Hc) as (H3 & _ & H4 & _).
    destruct (IH Hrest) as [IHlen IHsafe].
    cbn [base64UrlEncode].
    destruct (b64urlChar_index _ H1) as (c1 & -> & _ & Hs1).
    destruct (b64urlChar_index _ H2) as (c2 & -> & _ & Hs2).
    destruct (b64urlChar_index _ H3) as (c3 & -> & _ & Hs3).
    destruct (b64urlChar_index _ H4) as (c4 & -> & _ & Hs4).
    change (String c1 "" ++ String c2 "" ++ String c3 "" ++ String c4 ""
            ++ base64UrlEncode rest)
      with (String c1 (String c2 (String c3 (String c4 (base64UrlEncode rest))))).
    cbn [String.length list_ascii_of_string forallb length].
    rewrite Hs1, Hs2, Hs3, Hs4, IHsafe. split; [|reflexivity].
    rewrite !Nat2Z.inj_succ, IHlen.
    replace (4 * Z.succ (Z.succ (Z.succ (Z.of_nat (length rest)))) + 2)
      with ((4 * Z.of_nat (length rest) + 2) + 4 * 3) by lia.
    rewrite Z.div_add by lia. lia.
Qed.

(** X24.  The text produced for [n] bytes has [ceil (4 n / 3)] characters, all of
    them letters, digits, [-] or [_]: no padding and nothing that a URL or a
    form body would have to escape. *)
Theorem base64UrlEncode_is_unpadded_url_safe_text (bytes : list Z) :
  isBytes bytes ->
  Z.of_nat (String.length (base64UrlEncode bytes))
  = (4 * Z.of_nat (length bytes) + 2) / 3
  /\ forallb isUrlSafe (list_ascii_of_string (base64UrlEncode bytes)) = true.
Proof. apply base64UrlEncode_shape. Qed.

End Base64Url.

(** ** The shape of a PKCE challenge *)

Section ChallengeShape.
Context {platform : Platform}.

Lemma round_length s kw : length (Sha256.round s kw) = length s.
Proof.
  unfold Sha256.round.
  destruct s as [|a [|b [|c [|d [|e [|f [|g [|h [|i s]]]]]]]]]; reflexivity.
Qed.

Lemma fold_round_length l : forall h,
  length (fold_left Sha256.round l h) = length h.
Proof.
  induction l as [|kw l IH]; intros h; simpl; [reflexivity|].
  now rewrite IH, round_length.
Qed.

Lemma compress_length h block : length (Sha256.compress h block) = length h.
Proof.
  unfold Sha256.compress.
  rewrite length_map, length_combine, fold_round_length. lia.
Qed.

Lemma fold_compress_length blocks : forall h,
  length (fold_left Sha256.compress blocks h) = length h.
Proof.
  induction blocks as [|b blocks IH]; intros h; simpl; [reflexivity|].
  now rewrite IH, compress_length.
Qed.

Lemma beBytes_isBytes n x : isBytes (Sha256.beBytes n x) /\ length (Sha256.beBytes n x) = n.
Proof.
  unfold isBytes. induction n as [|n [IH1 IH2]]; simpl; [now split|].
  split; [|now rewrite IH2]. constructor; [|assumption].
  apply Z.mod_pos_bound. lia.
Qed.

Lemma flat_map_beBytes ws :
  isBytes (flat_map (Sha256.beBytes 4) ws)
  /\ length (flat_map (Sha256.beBytes 4) ws) = (4 * length ws)%nat.
Proof.
  unfold isBytes. induction ws as [|x ws [IH1 IH2]]; [now split|].
  cbn [flat_map]. destruct (beBytes_isBytes 4 x) as [Hb Hl]. split.
  - apply Forall_app. now split.
  - rewrite length_app, Hl, IH2. simpl. lia.
Qed.

Lemma digest_isBytes msg :
  isBytes (Sha256.digest msg) /\ length (Sha256.digest msg) = 32%nat.
Proof.
  unfold Sha256.digest. cbv zeta.
  match goal with |- context [flat_map _ ?ws] =>
    destruct (flat_map_beBytes ws) as [Hb Hl];
    assert (Hws : length ws = 8%nat) by (rewrite fold_compress_length; reflexivity)
  end.
  split; [assumption|]. rewrite Hl, Hws. reflexivity.
Qed.

(** X25.  Whatever the verifier, the challenge computed from it is a text of 43
    letters, digits, [-] and [_].  A transaction whose stored challenge is
    not 43 characters long can therefore not be redeemed by any verifier. *)
Theorem pkce_challenge_has_43_url_safe_characters (verifier : string) :
  String.length (sha256B64UrlAsync verifier) = 43%nat
  /\ forallb isUrlSafe (list_ascii_of_string (sha256B64UrlAsync verifier)) = true
  /\ forall e (w : World MemoryTokenStore) code txnId txn cfg,
       resolves e w code txnId txn ->
       String.length (Transaction.codeChallenge txn) <> 43%nat ->
       Flow.handleToken (AuthorizationCode code verifier) cfg e w
       = Throw "invalid_grant" w.
Proof.
  unfold sha256B64UrlAsync.
  destruct (digest_isBytes (utf8Bytes verifier)) as [Hb Hl].
  destruct (base64UrlEncode_shape _ Hb) as [Hlen Hsafe].
  rewrite Hl in Hlen.
  assert (H43 : String.length (base64UrlEncode (Sha256.digest (utf8Bytes verifier)))
                = 43%nat).
  { apply Nat2Z.inj. rewrite Hlen. reflexivity. }
  split; [exact H43|]. split; [exact Hsafe|].
  intros e w code txnId txn cfg Hres Hshape.
  rewrite (handleToken_code_prefix _ _ _ _ _ _ _ Hres).
  unfold sha256B64UrlAsync.
  destruct (String.eqb_spec (Transaction.codeChallenge txn)
              (base64UrlEncode (Sha256.digest (utf8Bytes verifier)))) as [Heq|Hne];
    [|reflexivity].
  exfalso. apply Hshape. now rewrite Heq.
Qed.

End ChallengeShape.

(** ** Sessions *)

Section Sessions.
Context {Meta : Type} (noMeta : Meta).
Implicit Types (sessions : JsMap.t (Session.Entry Meta)) (entry : Session.Entry Meta).

(** X26.  The expiry of a session slides on [ensure] and on nothing else.  [ensure]
    on a known session keeps its record and moves its expiry one TTL past the
    call, also for a session already past its expiry that no sweep or lookup
    has removed; [get] hands a live session back and leaves the store, and so
    the expiry, as it was. *)
Theorem session_expiry_slides_on_ensure_only
    (nowMs ttlMs later : Z) (sessionId : string) sessions entry :
  JsMap.get sessionId sessions = Some entry ->
  let renewed := {| Session.record := Session.record entry;
                    Session.expiresAt := nowMs + ttlMs |} in
  let sessions' := Session.ensure noMeta nowMs sessionId ttlMs sessions in
  (later < nowMs + ttlMs ->
   Session.get later sessionId sessions' = (Some renewed, sessions'))
  /\ (nowMs + ttlMs <= later -> fst (Session.get later sessionId sessions') = None)
  /\ (later < Session.expiresAt entry ->
      Session.get later sessionId sessions = (Some entry, sessions))
  /\ length sessions' = length sessions.
Proof.
  intros Hget renewed sessions'.
  assert (Hs : sessions' = JsMap.set sessionId renewed sessions).
  { subst sessions'. unfold Session.ensure. now rewrite Hget. }
  assert (Hget' : JsMap.get sessionId sessions' = Some renewed).
  { rewrite Hs. apply get_set_eq. }
  split; [|split; [|split]].
  - intros Hlive. unfold Session.get. rewrite Hget'. cbn [Session.expiresAt renewed].
    destruct (Z.geb_spec later (nowMs + ttlMs)); [lia|reflexivity].
  - intros Hdead. unfold Session.get. rewrite Hget'. cbn [Session.expiresAt renewed].
    destruct (Z.geb_spec later (nowMs + ttlMs)); [reflexivity|lia].
  - intros Hlive. unfold Session.get. rewrite Hget.
    destruct (Z.geb_spec later (Session.expiresAt entry)); [lia|reflexivity].
  - rewrite Hs. clear -Hget. induction sessions as [|[k v] m IH]; [discriminate|].
    cbn [JsMap.get JsMap.set] in *. destruct (String.eqb k sessionId); [reflexivity|].
    cbn [length]. now rewrite IH.
Qed.

(** X27.  [ensure] on an unknown session id starts a session that is read back
    until its TTL runs out.  Below capacity every other session stays; at
    capacity exactly one other session goes, and none that stays was created
    before it. *)
Theorem ensure_starts_a_session_and_evicts_the_oldest
    (nowMs ttlMs later : Z) (sessionId : string) sessions :
  JsMap.get sessionId sessions = None ->
  let started := {| Session.record := {| Session.created_at := nowMs;
                                         Session.meta := noMeta |};
                    Session.expiresAt := nowMs + ttlMs |} in
  let sessions' := Session.ensure noMeta nowMs sessionId ttlMs sessions in
  (later < nowMs + ttlMs ->
   Session.get later sessionId sessions' = (Some started, sessions'))
  /\ (JsMap.size sessions < MAX_SESSIONS ->
      forall k, k <> sessionId -> JsMap.get k sessions' = JsMap.get k sessions)
  /\ (MAX_SESSIONS <= JsMap.size sessions ->
      exists oldestId oldest,
        In (oldestId, oldest) sessions
        /\ JsMap.get oldestId sessions' = None
        /\ (forall k, k <> sessionId -> k <> oldestId ->
              JsMap.get k sessions' = JsMap.get k sessions)
        /\ (forall k entry, In (k, entry) sessions ->
              Session.createdOf oldest <= Session.createdOf entry)).
Proof.
  intros Hget started sessions'.
  subst sessions'. unfold Session.ensure. rewrite Hget. fold started.
  split; [|split].
  - intros Hlive. unfold Session.get. rewrite get_set_eq.
    cbn [Session.expiresAt started].
    destruct (Z.geb_spec later (nowMs + ttlMs)); [lia|reflexivity].
  - intros Hroom k Hne.
    destruct (Z.geb_spec (JsMap.size sessions) MAX_SESSIONS); [lia|].
    now rewrite get_set_ne by congruence.
  - intros Hfull.
    destruct (Z.geb_spec (JsMap.size sessions) MAX_SESSIONS); [|lia].
    destruct (sortByCreated Session.createdOf sessions) as [|[oldestId oldest] rest]
      eqn:Hsort.
    { exfalso. pose proof (sortC_length Session.createdOf sessions) as Hlen.
      rewrite Hsort in Hlen. unfold JsMap.size, MAX_SESSIONS in *.
      simpl in Hlen. lia. }
    assert (Hin : In (oldestId, oldest) sessions).
    { apply (sortC_In Session.createdOf). rewrite Hsort. now left. }
    assert (Hne : oldestId <> sessionId).
    { intros ->. assert (Hk : In sessionId (List.map fst sessions)).
      { apply in_map_iff. now exists (sessionId, oldest). }
      clear -Hget Hk. induction sessions as [|[k v] m IH]; [destruct Hk|].
      cbn [JsMap.get] in Hget. destruct (String.eqb_spec k sessionId) as [->|Hkne];
        [discriminate|].
      destruct Hk as [Hk|Hk]; [contradiction|]. now apply IH. }
    exists oldestId, oldest. cbn [fst]. split; [exact Hin|]. split; [|split].
    + rewrite get_set_ne by congruence. apply get_delete_eq.
    + intros k Hk1 Hk2. rewrite get_set_ne by congruence.
      now rewrite get_delete_ne by congruence.
    + intros k entry Hentry.
      pose proof (sortC_ascending Session.createdOf sessions) as Hasc.
      rewrite Hsort in Hasc. inversion Hasc as [|? ? Hall _]; subst.
      apply (sortC_In Session.createdOf) in Hentry. rewrite Hsort in Hentry.
      destruct Hentry as [Heq|Hrest]; [inversion Heq; subst; lia|].
      rewrite List.Forall_forall in Hall. exact (Hall _ Hrest).
Qed.

End Sessions.

(** ** Restarting on the file store *)

Section Restart.

Lemma find_app {A} (p : A -> bool) (l1 l2 : list A) :
  List.find p (l1 ++ l2)
  = match List.find p l1 with Some x => Some x | None => List.find p l2 end.
Proof.
  induction l1 as [|x l1 IH]; simpl; [reflexivity|].
  destruct (p x); [reflexivity|exact IH].
Qed.

(** After the loop the access-token index resolves a token to the last
    record of the list that carries it. *)
Lemma populate_lookup nowMs (recs : list RsRecord) :
  let s := fold_left (File.populate nowMs) recs Memory.empty in
  (forall k l, JsMap.get k (rsAccessMap s) = Some l -> (l < length (heap s))%nat)
  /\ forall k,
       option_map snd (Memory.lookupObj (rsAccessMap s) k s)
       = option_map (File.withExpiry nowMs) (List.find (File.byAccess k) (rev recs)).
Proof.
  induction recs as [|rec recs IH] using rev_ind.
  - cbn. split; [discriminate|reflexivity].
  - rewrite fold_left_app, rev_app_distr. cbn [fold_left rev List.app List.find].
    cbv zeta in IH. destruct IH as [Hrefs Hlook].
    set (s := fold_left (File.populate nowMs) recs Memory.empty) in *.
    cbv zeta. split.
    + intros k l. unfold File.populate. cbn [rsAccessMap heap Memory.withRefresh
        Memory.withAccess Memory.withHeap].
      rewrite length_app. cbn [length].
      destruct (String.eqb_spec (rs_access_token rec) k) as [->|Hne].
      * rewrite get_set_eq. intros Heq. inversion Heq. lia.
      * rewrite get_set_ne by assumption. intros Hget.
        specialize (Hrefs _ _ Hget). lia.
    + intros k. unfold File.byAccess at 1.
      unfold Memory.lookupObj, File.populate.
      cbn [rsAccessMap heap Memory.withRefresh Memory.withAccess Memory.withHeap].
      destruct (String.eqb_spec (rs_access_token rec) k) as [->|Hne].
      * rewrite get_set_eq. rewrite list_lookup_middle by reflexivity. reflexivity.
      * rewrite get_set_ne by assumption. rewrite <- Hlook.
        unfold Memory.lookupObj.
        destruct (JsMap.get k (rsAccessMap s)) as [l|] eqn:Hget; [|reflexivity].
        rewrite lookup_app_l by exact (Hrefs _ _ Hget). reflexivity.
Qed.

Lemma find_unique (k : string) (recs : list RsRecord) rec :
  List.NoDup (List.map rs_access_token recs) ->
  In rec recs -> rs_access_token rec = k ->
  List.find (File.byAccess k) recs = Some rec.
Proof.
  intros Hnd Hin Hk. induction recs as [|r recs IH]; [destruct Hin|].
  inversion Hnd as [|? ? Hnin Hrest]; subst. cbn [List.find]. unfold File.byAccess at 1.
  destruct Hin as [->|Hin].
  - now rewrite String.eqb_refl.
  - destruct (String.eqb_spec (rs_access_token r) (rs_access_token rec)) as [Heq|Hne].
    + exfalso. apply Hnin. rewrite Heq. now apply in_map.
    + now apply IH.
Qed.

Lemma find_none (k : string) (recs : list RsRecord) :
  (forall rec, In rec recs -> rs_access_token rec <> k) ->
  List.find (File.byAccess k) recs = None.
Proof.
  intros Hall. induction recs as [|r recs IH]; [reflexivity|].
  cbn [List.find]. unfold File.byAccess at 1.
  destruct (String.eqb_spec (rs_access_token r) k) as [Heq|Hne].
  - exfalso. apply (Hall r); [now left|assumption].
  - apply IH. intros rec Hin. apply Hall. now right.
Qed.

(** What [saveImmediate] writes for a consistent store: one record for each
    key of the access-token index, carrying that key. *)
Lemma records_spec s :
  consistent s ->
  List.map rs_access_token (File.records s) = List.map fst (rsAccessMap s)
  /\ forall k l entry,
       In (k, l) (rsAccessMap s) -> heap s !! l = Some entry ->
       In (rsRecord entry) (File.records s).
Proof.
  intros [_ _ _ _ Haa _]. unfold File.records.
  unfold agrees in Haa. revert Haa.
  generalize (rsAccessMap s) as m. intros m Haa. split.
  - induction m as [|[k l] m IH]; [reflexivity|].
    destruct (Haa k l (or_introl eq_refl)) as (entry & Hh & Hk).
    cbn [omap list_omap snd]. unfold omap in *. cbn [list_omap snd].
    rewrite Hh. cbn [option_map List.map fst]. rewrite Hk. f_equal.
    apply IH. intros k' l' Hin. apply Haa. now right.
  - intros k l entry Hin Hh. induction m as [|[k0 l0] m IH]; [destruct Hin|].
    unfold omap in *. cbn [list_omap snd].
    destruct Hin as [Heq|Hin].
    + inversion Heq; subst. rewrite Hh. cbn [option_map]. now left.
    + destruct (option_map rsRecord (heap s !! l0)); [right|];
        apply IH; auto; intros k' l' Hin'; apply Haa; now right.
Qed.

Lemma NoDup_map_filter {A B} (f : A -> B) (p : A -> bool) (l : list A) :
  List.NoDup (List.map f l) -> List.NoDup (List.map f (List.filter p l)).
Proof.
  induction l as [|x l IH]; intros Hnd; [assumption|].
  inversion Hnd as [|? ? Hnin Hrest]; subst. cbn [List.filter].
  destruct (p x); [|now apply IH]. cbn [List.map]. constructor; [|now apply IH].
  intros Hin. apply Hnin. apply in_map_iff in Hin. destruct Hin as (y & Hy & Hin).
  apply List.filter_In in Hin. apply in_map_iff. exists y. tauto.
Qed.

Lemma NoDup_map_eq {A B} (f : A -> B) (l : list A) a b :
  List.NoDup (List.map f l) -> In a l -> In b l -> f a = f b -> a = b.
Proof.
  induction l as [|x l IH]; intros Hnd Ha Hb Hf; [destruct Ha|].
  inversion Hnd as [|? ? Hnin Hrest]; subst.
  destruct Ha as [->|Ha]; destruct Hb as [->|Hb]; auto.
  - exfalso. apply Hnin. rewrite Hf. now apply in_map.
  - exfalso. apply Hnin. rewrite <- Hf. now apply in_map.
Qed.

(** X28.  A restart keeps a mapping only while its provider token lasts.  When a
    consistent store is written out and loaded again at [nowMs], an RS
    access token that resolved before resolves afterwards exactly if the
    provider token of its record had not expired at [nowMs], and then only
    until that provider token expires (or, for a record without expiry, for
    seven more days): the record comes back unchanged, but its lifetime is
    now the provider token's. *)
Theorem restart_keeps_a_mapping_only_while_its_provider_token_lasts
    (nowMs later : Z) (s : MemoryTokenStore) (k : string) (l : nat) (entry : RsEntry) :
  consistent s ->
  Memory.lookupObj (rsAccessMap s) k s = Some (l, entry) ->
  let s' := File.load nowMs (File.records s) in
  option_map snd (fst (Memory.getByRsAccess later k s'))
  = if File.unexpired nowMs (rsRecord entry)
       && (later <? expiresAt (File.withExpiry nowMs (rsRecord entry)))
    then Some (File.withExpiry nowMs (rsRecord entry))
    else None.
Proof.
  intros Hc Hlook s'.
  pose proof Hlook as Hl. apply lookupObj_Some in Hl. destruct Hl as [Hget Hheap].
  pose proof (get_In _ _ _ Hget) as Hin.
  destruct (records_spec s Hc) as [Hkeys Hrecs].
  pose proof (Hrecs _ _ _ Hin Hheap) as Hrec.
  assert (Hk : rs_access_token (rsRecord entry) = k).
  { destruct (access_agrees s Hc _ _ Hin) as (e0 & He0 & Hk0). congruence. }
  assert (Hnd : List.NoDup (List.map rs_access_token (File.records s))).
  { rewrite Hkeys. exact (access_unique s Hc). }
  set (recs := List.filter (File.unexpired nowMs) (File.records s)).
  assert (Hnd' : List.NoDup (List.map rs_access_token (rev recs))).
  { rewrite List.map_rev. apply List.NoDup_rev. now apply NoDup_map_filter. }
  assert (Hfound : option_map snd (Memory.lookupObj (rsAccessMap s') k s')
                   = option_map (File.withExpiry nowMs)
                       (List.find (File.byAccess k) (rev recs)))
    by exact (proj2 (populate_lookup nowMs recs) k).
  unfold Memory.getByRsAccess.
  destruct (File.unexpired nowMs (rsRecord entry)) eqn:Hun; cbn [andb].
  - rewrite (find_unique k (rev recs) (rsRecord entry)) in Hfound;
      [|assumption|apply -> in_rev; apply List.filter_In; now split|assumption].
    destruct (Memory.lookupObj (rsAccessMap s') k s') as [[l' e']|]; [|discriminate].
    cbn [option_map snd] in Hfound. injection Hfound as ->.
    destruct (Z.geb_spec later (expiresAt (File.withExpiry nowMs (rsRecord entry))));
      destruct (Z.ltb_spec later (expiresAt (File.withExpiry nowMs (rsRecord entry))));
      try lia; reflexivity.
  - rewrite find_none in Hfound.
    + destruct (Memory.lookupObj (rsAccessMap s') k s') as [[l' e']|];
        [discriminate|reflexivity].
    + intros rec Hinrec Hrk. apply in_rev, List.filter_In in Hinrec.
      destruct Hinrec as [Hinrec Hok].
      assert (rec = rsRecord entry).
      { apply (NoDup_map_eq rs_access_token (File.records s)); auto. congruence. }
      subst rec. congruence.
Qed.

End Restart.

(** ** The further properties on the scenarios *)

Section OnMoreScenarios.
Import Scenario MoreScenarios.

Lemma refresh_grant_refuses_unknown_or_expired_token_witness :
  Flow.handleToken (RefreshToken "R-unknown") (Some flowConfig)
    (refreshEnv rotatedReply) (worldOf oneMapping)
  = Throw "invalid_grant" (worldOf oneMapping)
  /\ exists w',
       Flow.handleToken (RefreshToken "R1") (Some flowConfig)
         (envAt (t0 + DEFAULT_RS_TOKEN_TTL_MS) (okEndpoint rotatedReply))
         (worldOf oneMapping)
       = Throw "invalid_grant" w'
       /\ fetches w' = []
       /\ drawn w' = 0%nat
       /\ JsMap.get "R1" (rsRefreshMap (store w')) = None
       /\ JsMap.get "A1" (rsAccessMap (store w')) = None.
Proof.
  split.
  - apply (proj1 (refresh_grant_refuses_unknown_or_expired_token
                    (refreshEnv rotatedReply) (worldOf oneMapping) "R-unknown"
                    (Some flowConfig))).
    reflexivity.
  - apply (proj2 (refresh_grant_refuses_unknown_or_expired_token
                    (envAt (t0 + DEFAULT_RS_TOKEN_TTL_MS) (okEndpoint rotatedReply))
                    (worldOf oneMapping) "R1" (Some flowConfig))
             0%nat expiringEntry).
    + reflexivity.
    + reflexivity.
    + vm_compute. discriminate.
Defined.

Lemma refresh_grant_rotates_access_token_only_witness :
  exists r w',
    Flow.handleToken (RefreshToken "R1") (Some flowConfig)
      (refreshEnv rotatedReply) (worldOf oneMapping) = Ok r w'
    /\ TokenResult.refresh_token r = "R1"
    /\ TokenResult.access_token r = mintedFirst
    /\ 1 <= TokenResult.expires_in r
    /\ exists entry',
         Memory.getByRsAccess (t0 + 1) (TokenResult.access_token r) (store w')
         = (Some (0%nat, entry'), store w')
         /\ Memory.getByRsRefresh (t0 + 1) "R1" (store w')
            = (Some (0%nat, entry'), store w')
         /\ Memory.getByRsAccess (t0 + 1) "A1" (store w') = (None, store w')
         /\ rs_refresh_token (rsRecord entry') = "R1"
         /\ (fetches w' = [] -> provider (rsRecord entry') = expiringTokens)
         /\ TokenResult.scope r
            = joinSpace (nullish (scopes (provider (rsRecord entry'))) []).
Proof.
  eexists. eexists. split; [vm_compute; reflexivity|].
  apply (refresh_grant_rotates_access_token_only (refreshEnv rotatedReply)
           (worldOf oneMapping) "R1" (Some flowConfig) 0%nat expiringEntry _ _
           (t0 + 1)).
  - vm_compute. reflexivity.
  - vm_compute. reflexivity.
  - vm_compute. discriminate.
  - vm_compute. discriminate.
  - vm_compute. reflexivity.
Defined.

Lemma refresh_grant_fails_when_provider_token_is_not_renewed_witness :
  Flow.handleToken (RefreshToken "R1") (Some flowConfig)
    (refreshEnv rotatedReply) (worldOf unrenewableMapping)
  = Throw "provider_token_expired" (worldOf unrenewableMapping)
  /\ Flow.handleToken (RefreshToken "R1") (Some flowConfig)
       (envAt t0 downEndpoint) (worldOf oneMapping)
     = Throw "provider_refresh_failed" (withFetch "RT1" (worldOf oneMapping))
  /\ Flow.handleToken (RefreshToken "R1") (Some unaddressableFlowConfig)
       (refreshEnv rotatedReply) (worldOf oneMapping)
     = Throw "provider_refresh_failed" (worldOf oneMapping).
Proof.
  split; [|split].
  - apply (proj1 (refresh_grant_fails_when_provider_token_is_not_renewed
                    (platform := scenarioPlatform)
                    (refreshEnv rotatedReply) (worldOf unrenewableMapping) "R1"
                    flowConfig 0%nat unrenewableEntry
                    ltac:(vm_compute; reflexivity) ltac:(vm_compute; reflexivity))).
    reflexivity.
  - apply (proj2 (proj2 (refresh_grant_fails_when_provider_token_is_not_renewed
                           (platform := scenarioPlatform)
                           (envAt t0 downEndpoint) (worldOf oneMapping) "R1"
                           flowConfig 0%nat expiringEntry
                           ltac:(vm_compute; reflexivity)
                           ltac:(vm_compute; reflexivity))
                    "RT1" ltac:(reflexivity) ltac:(discriminate))
             "https://accounts.example/token").
    + reflexivity.
    + reflexivity.
  - apply (proj1 (proj2 (refresh_grant_fails_when_provider_token_is_not_renewed
                           (platform := scenarioPlatform)
                           (refreshEnv rotatedReply) (worldOf oneMapping) "R1"
                           unaddressableFlowConfig 0%nat expiringEntry
                           ltac:(vm_compute; reflexivity)
                           ltac:(vm_compute; reflexivity))
                    "RT1" ltac:(reflexivity) ltac:(discriminate))
             "Invalid URL").
    reflexivity.
Defined.

Lemma refresh_grant_without_provider_call_witness :
  exists r w' entry',
    Flow.handleToken (RefreshToken "R1") None
      (envAt (t0 + 40000) downEndpoint) (worldOf oneMapping) = Ok r w'
    /\ fetches w' = []
    /\ heap (store w') !! 0%nat = Some entry'
    /\ provider (rsRecord entry') = expiringTokens
    /\ TokenResult.expires_in r = 1.
Proof.
  apply (refresh_grant_without_provider_call (envAt (t0 + 40000) downEndpoint)
           (worldOf oneMapping) "R1" None 0%nat expiringEntry).
  - vm_compute. reflexivity.
  - left. reflexivity.
Defined.

End OnMoreScenarios.

Section OnFallbackScenarios.
Import Scenario MoreScenarios.

Lemma expiringEntry_refreshDue endpoint :
  refreshDue (envAt t0 endpoint) (worldOf oneMapping) "A1" 0%nat expiringEntry "RT1".
Proof. constructor; try reflexivity; discriminate. Qed.

Lemma ensureFreshToken_returns_stored_token_when_provider_fails_witness :
  Refresh.ensureFreshToken "A1" (Some config) (envAt t0 downEndpoint)
    (worldOf oneMapping)
  = Ok {| Refresh.accessToken := "AT1"; Refresh.wasRefreshed := false |}
       (withFetch "RT1" (worldOf oneMapping))
  /\ Refresh.ensureFreshToken "A1" (Some unaddressableConfig)
       (envAt t0 (okEndpoint rotatedReply)) (worldOf oneMapping)
     = Throw "Invalid URL" (worldOf oneMapping).
Proof.
  split.
  - apply (proj1 (ensureFreshToken_returns_stored_token_when_provider_fails
                    (platform := scenarioPlatform)
                    (envAt t0 downEndpoint) (worldOf oneMapping) "A1" 0%nat
                    expiringEntry "RT1" config (expiringEntry_refreshDue _))
             "https://accounts.example/token").
    + reflexivity.
    + reflexivity.
  - apply (proj2 (ensureFreshToken_returns_stored_token_when_provider_fails
                    (platform := scenarioPlatform)
                    (envAt t0 (okEndpoint rotatedReply)) (worldOf oneMapping) "A1"
                    0%nat expiringEntry "RT1" unaddressableConfig
                    (expiringEntry_refreshDue _))).
    reflexivity.
Defined.

End OnFallbackScenarios.

Section OnStoreScenarios.
Import Scenario MoreScenarios.

Lemma oneMapping_consistent : consistent oneMapping.
Proof. apply consistent_storeRsMapping, consistent_empty. Qed.

Lemma lookup_returns_record_of_the_token_witness :
  rs_access_token (rsRecord expiringEntry) = "A1"
  /\ rs_refresh_token (rsRecord expiringEntry) = "R1".
Proof.
  pose proof (lookup_returns_record_of_the_token
                [CallStoreRsMapping (t0 - 1000) "" "A1" expiringTokens (Some "R1")
                   DEFAULT_RS_TOKEN_TTL_MS]
                t0 "A1" 0%nat expiringEntry) as Ha.
  pose proof (lookup_returns_record_of_the_token
                [CallStoreRsMapping (t0 - 1000) "" "A1" expiringTokens (Some "R1")
                   DEFAULT_RS_TOKEN_TTL_MS]
                t0 "R1" 0%nat expiringEntry) as Hr.
  split.
  - apply (proj1 Ha). reflexivity.
  - apply (proj2 Hr). reflexivity.
Defined.

Lemma cleanup_is_invisible_to_lookups_witness :
  let s' := snd (Memory.cleanup (t0 + DEFAULT_RS_TOKEN_TTL_MS) oneMapping) in
  (forall k, Memory.getByRsAccess (t0 + DEFAULT_RS_TOKEN_TTL_MS) k s'
             = (fst (Memory.getByRsAccess (t0 + DEFAULT_RS_TOKEN_TTL_MS) k oneMapping),
                s'))
  /\ (forall k, Memory.getByRsRefresh (t0 + DEFAULT_RS_TOKEN_TTL_MS) k s'
                = (fst (Memory.getByRsRefresh (t0 + DEFAULT_RS_TOKEN_TTL_MS) k
                          oneMapping), s'))
  /\ (forall txnId, Memory.getTransaction (t0 + DEFAULT_RS_TOKEN_TTL_MS) txnId s'
                    = (fst (Memory.getTransaction (t0 + DEFAULT_RS_TOKEN_TTL_MS) txnId
                              oneMapping), s'))
  /\ (forall code, Memory.getTxnIdByCode (t0 + DEFAULT_RS_TOKEN_TTL_MS) code s'
                   = (fst (Memory.getTxnIdByCode (t0 + DEFAULT_RS_TOKEN_TTL_MS) code
                             oneMapping), s'))
  /\ (forall k l entry,
        In (k, l) (rsAccessMap s') \/ In (k, l) (rsRefreshMap s') ->
        heap s' !! l = Some entry -> t0 + DEFAULT_RS_TOKEN_TTL_MS < expiresAt entry).
Proof.
  exact (cleanup_is_invisible_to_lookups (t0 + DEFAULT_RS_TOKEN_TTL_MS) oneMapping
           oneMapping_consistent).
Defined.

Lemma storeRsMapping_rebinds_known_refresh_token_witness :
  let stored := Memory.storeRsMapping t0 "" "A2" callbackTokens (Some "R1")
                  DEFAULT_RS_TOKEN_TTL_MS oneMapping in
  fst (fst stored) = 0%nat
  /\ created_at (rsRecord (snd (fst stored))) = t0 - 1000
  /\ length (heap (snd stored)) = 1%nat
  /\ Memory.getByRsAccess (t0 + 1) "A2" (snd stored) = (Some (fst stored), snd stored)
  /\ Memory.getByRsRefresh (t0 + 1) "R1" (snd stored) = (Some (fst stored), snd stored)
  /\ Memory.getByRsAccess (t0 + 1) "A1" (snd stored) = (None, snd stored).
Proof.
  destruct (storeRsMapping_rebinds_known_refresh_token t0 "" "A2" callbackTokens
              "R1" DEFAULT_RS_TOKEN_TTL_MS (t0 + 1) oneMapping 0%nat expiringEntry)
    as (Hfst & Hlen & HgetA & HgetR & Hold).
  - discriminate.
  - reflexivity.
  - vm_compute. reflexivity.
  - cbv zeta. rewrite Hfst. cbn [fst snd].
    split; [reflexivity|]. split; [reflexivity|]. split; [exact Hlen|].
    split; [exact HgetA|]. split; [exact HgetR|]. apply Hold. discriminate.
Defined.

Lemma storeRsMapping_round_trip_witness :
  let stored := Memory.storeRsMapping t0 "uuid-0" "A2" callbackTokens None
                  DEFAULT_RS_TOKEN_TTL_MS oneMapping in
  fst (fst stored) = 1%nat
  /\ rs_refresh_token (rsRecord (snd (fst stored))) = "uuid-0"
  /\ Memory.getByRsAccess (t0 + 1) "A2" (snd stored) = (Some (fst stored), snd stored)
  /\ Memory.getByRsRefresh (t0 + 1) "uuid-0" (snd stored)
     = (Some (fst stored), snd stored)
  /\ fst (Memory.getByRsAccess (t0 + DEFAULT_RS_TOKEN_TTL_MS) "A2" (snd stored)) = None
  /\ fst (Memory.getByRsRefresh (t0 + DEFAULT_RS_TOKEN_TTL_MS) "uuid-0" (snd stored))
     = None.
Proof.
  destruct (storeRsMapping_round_trip t0 "uuid-0" "A2" callbackTokens None
              DEFAULT_RS_TOKEN_TTL_MS (t0 + 1) oneMapping)
    as (Hfst & Hlive & _); [discriminate|].
  destruct (storeRsMapping_round_trip t0 "uuid-0" "A2" callbackTokens None
              DEFAULT_RS_TOKEN_TTL_MS (t0 + DEFAULT_RS_TOKEN_TTL_MS) oneMapping)
    as (_ & _ & Hdead); [discriminate|].
  destruct Hlive as [HgetA HgetR]; [vm_compute; reflexivity|].
  destruct Hdead as [HdeadA HdeadR]; [lia|].
  cbv zeta. rewrite Hfst. cbn [fst snd nullish] in *.
  repeat split; assumption.
Defined.

Lemma markRefreshed_touches_only_its_token_witness :
  Refresh.inCooldown (t0 + 5000) (Refresh.markedAt t0 "A2" twoMarks) "A1" = true
  /\ Refresh.inCooldown (t0 + 5000) (Refresh.markedAt t0 "A2" twoMarks) "A0" = false.
Proof.
  assert (Hu : uniqueKeys twoMarks).
  { repeat constructor; simpl; intuition discriminate. }
  split.
  - rewrite (proj1 (markRefreshed_touches_only_its_token t0 (t0 + 5000) "A2" "A1"
                      twoMarks Hu ltac:(lia))) by discriminate.
    reflexivity.
  - rewrite (proj1 (markRefreshed_touches_only_its_token t0 (t0 + 5000) "A2" "A0"
                      twoMarks Hu ltac:(lia))) by discriminate.
    reflexivity.
Defined.

Lemma base64UrlDecode_reads_back_what_was_encoded_witness :
  base64UrlDecode "AQEBAQEBAQEBAQEBAQEBAQEBAQEBAQEB" = Some (repeat 1 24)
  /\ base64UrlDecode (base64UrlEncode [255; 254]) = Some [255; 254].
Proof.
  split.
  - apply (base64UrlDecode_reads_back_what_was_encoded (repeat 1 24)).
    repeat constructor; lia.
  - apply (base64UrlDecode_reads_back_what_was_encoded [255; 254]).
    repeat constructor; lia.
Defined.

Lemma base64UrlEncode_is_unpadded_url_safe_text_witness :
  Z.of_nat (String.length mintedFirst) = 32
  /\ forallb isUrlSafe (list_ascii_of_string mintedFirst) = true.
Proof.
  apply (base64UrlEncode_is_unpadded_url_safe_text (repeat 1 24)).
  repeat constructor; lia.
Defined.

End OnStoreScenarios.

Section OnKvScenarios.
Import Scenario MoreScenarios.

Lemma kv_stored_mapping_resolves_at_any_later_time_witness :
  exists rec w1,
    storeRsMapping "A1" expiringTokens (Some "R1") exchangeEnv (worldOf emptyKv)
    = Ok rec w1
    /\ rec = {| rs_access_token := "A1"; rs_refresh_token := "R1";
                provider := expiringTokens; created_at := t0 |}
    /\ getByRsAccess "A1" (envAt (t0 + 2 * DEFAULT_RS_TOKEN_TTL_MS) downEndpoint) w1
       = Ok (Some rec) w1
    /\ getByRsRefresh (rs_refresh_token rec)
         (envAt (t0 + 2 * DEFAULT_RS_TOKEN_TTL_MS) downEndpoint) w1
       = Ok (Some rec) w1.
Proof.
  apply (kv_stored_mapping_resolves_at_any_later_time exchangeEnv
           (envAt (t0 + 2 * DEFAULT_RS_TOKEN_TTL_MS) downEndpoint)
           (worldOf emptyKv) "A1" expiringTokens (Some "R1")).
  - reflexivity.
  - reflexivity.
Defined.

Lemma kv_pending_authorization_resolves_for_ten_minutes_witness :
  (exists w1 w2,
     saveTransaction "txn-1" (pendingTxn None) (Some 60) (quotaEnv t0)
       (worldOf emptyKv) = Ok tt w1
     /\ saveCode "code-1" "txn-1" (Some 60) (quotaEnv t0) w1 = Ok tt w2
     /\ getTxnIdByCode "code-1" (envAt (t0 + 300000) downEndpoint) w2
        = Ok (Some "txn-1") w2
     /\ getTransaction "txn-1" (envAt (t0 + 300000) downEndpoint) w2
        = Ok (Some (pendingTxn None)) w2)
  /\ (exists w1 w2,
        saveTransaction "txn-1" (pendingTxn (Some callbackTokens)) None (quotaEnv t0)
          kvAuthorized = Ok tt w1
        /\ saveCode "code-1" "txn-1" None (quotaEnv t0) w1 = Ok tt w2
        /\ getTxnIdByCode "code-1" (envAt (t0 + 1000) downEndpoint) w2
           = Ok (Some "txn-1") w2
        /\ getTransaction "txn-1" (envAt (t0 + 1000) downEndpoint) w2
           = Ok (Some (pendingTxn None)) w2).
Proof.
  split.
  - destruct (kv_pending_authorization_resolves_for_ten_minutes (quotaEnv t0)
                (envAt (t0 + 300000) downEndpoint) (worldOf emptyKv)
                "code-1" "txn-1" (pendingTxn None) (Some 60) (Some 60))
      as (w1 & w2 & Htxn & Hcode & HgetCode & HgetTxn).
    + reflexivity.
    + vm_compute. reflexivity.
    + exists w1, w2. split; [exact Htxn|]. split; [exact Hcode|]. split.
      * rewrite HgetCode. reflexivity.
      * rewrite HgetTxn. reflexivity.
  - destruct (kv_pending_authorization_resolves_for_ten_minutes (quotaEnv t0)
                (envAt (t0 + 1000) downEndpoint) kvAuthorized
                "code-1" "txn-1" (pendingTxn (Some callbackTokens)) None None)
      as (w1 & w2 & Htxn & Hcode & HgetCode & HgetTxn).
    + reflexivity.
    + vm_compute. reflexivity.
    + exists w1, w2. split; [exact Htxn|]. split; [exact Hcode|]. split.
      * rewrite HgetCode. vm_compute. reflexivity.
      * rewrite HgetTxn. vm_compute. reflexivity.
Defined.

Lemma kv_exchange_throws_when_the_transaction_cannot_be_deleted_witness :
  exists w1,
    Flow.handleToken (AuthorizationCode "code-1" verifier) (Some flowConfig)
      (deleteFailsEnv t0) kvPending = Throw "KV delete failed" w1
    /\ drawn w1 = 2%nat
    /\ kv (store w1) !! "code:code-1" = kv (store kvPending) !! "code:code-1"
    /\ getTxnIdByCode "code-1" (deleteFailsEnv t0) w1 = Ok (Some "txn-1") w1.
Proof.
  destruct (kv_exchange_throws_when_the_transaction_cannot_be_deleted
              (deleteFailsEnv t0) kvPending "code-1" verifier "txn-1"
              (pendingTxn (Some callbackTokens)) (Some flowConfig)
              "KV delete failed")
    as (w1 & Hrun & Hdrawn & Hcode & Htxn & Hcodes & Htxns & Hmap).
  - vm_compute. reflexivity.
  - discriminate.
  - vm_compute. reflexivity.
  - vm_compute. reflexivity.
  - reflexivity.
  - exists w1. split; [exact Hrun|]. split; [exact Hdrawn|]. split; [exact Hcode|].
    change (Kv.getTxnIdByCode "code-1" (deleteFailsEnv t0) w1 = Ok (Some "txn-1") w1).
    unfold Kv.getTxnIdByCode, bind, Kv.getJson, Kv.kvGet.
    cbn [kvFault deleteFailsEnv]. rewrite Hcode. reflexivity.
Defined.

End OnKvScenarios.

Section OnLaterScenarios.
Import Scenario MoreScenarios.

Lemma session_expiry_slides_on_ensure_only_witness :
  let sessions' := Session.ensure tt t0 "sid-1" DEFAULT_SESSION_TTL_MS oneSession in
  Session.get (t0 + 1) "sid-1" sessions'
  = (Some {| Session.record := Session.record staleSession;
             Session.expiresAt := t0 + DEFAULT_SESSION_TTL_MS |}, sessions')
  /\ fst (Session.get t0 "sid-1" oneSession) = None.
Proof.
  split.
  - apply (session_expiry_slides_on_ensure_only tt t0 DEFAULT_SESSION_TTL_MS (t0 + 1)
             "sid-1" oneSession staleSession eq_refl).
    vm_compute. reflexivity.
  - reflexivity.
Defined.

Lemma ensure_starts_a_session_and_evicts_the_oldest_witness :
  let sessions' := Session.ensure tt t0 "sid-2" DEFAULT_SESSION_TTL_MS oneSession in
  Session.get (t0 + 1) "sid-2" sessions'
  = (Some {| Session.record := {| Session.created_at := t0; Session.meta := tt |};
             Session.expiresAt := t0 + DEFAULT_SESSION_TTL_MS |}, sessions')
  /\ JsMap.get "sid-1" sessions' = Some staleSession.
Proof.
  destruct (ensure_starts_a_session_and_evicts_the_oldest tt t0 DEFAULT_SESSION_TTL_MS
              (t0 + 1) "sid-2" oneSession eq_refl) as (Hstarted & Hroom & _).
  split.
  - apply Hstarted. vm_compute. reflexivity.
  - cbv zeta. rewrite Hroom; [reflexivity|vm_compute; reflexivity|discriminate].
Defined.

Lemma restart_keeps_a_mapping_only_while_its_provider_token_lasts_witness :
  option_map snd
    (fst (Memory.getByRsAccess (t0 + 1000) "A1"
            (File.load t0 (File.records oneMapping))))
  = Some {| rsRecord := rsRecord expiringEntry; expiresAt := t0 + 30000 |}
  /\ option_map snd
       (fst (Memory.getByRsAccess (t0 + 60000) "A1"
               (File.load (t0 + 60000) (File.records oneMapping))))
     = None.
Proof.
  split.
  - exact (restart_keeps_a_mapping_only_while_its_provider_token_lasts t0 (t0 + 1000)
             oneMapping "A1" 0%nat expiringEntry oneMapping_consistent eq_refl).
  - exact (restart_keeps_a_mapping_only_while_its_provider_token_lasts (t0 + 60000)
             (t0 + 60000) oneMapping "A1" 0%nat expiringEntry oneMapping_consistent
             eq_refl).
Defined.

Lemma flows_keep_the_store_consistent_witness :
  (consistent
     (store (outcomeWorld
               (Flow.handleToken (RefreshToken "R1") (Some flowConfig)
                  (refreshEnv rotatedReply) (worldOf oneMapping))))
   /\ withinCapacity
        (store (outcomeWorld
                  (Flow.handleToken (RefreshToken "R1") (Some flowConfig)
                     (refreshEnv rotatedReply) (worldOf oneMapping)))))
  /\ (consistent
        (store (outcomeWorld
                  (Refresh.ensureFreshToken "A1" (Some config)
                     (refreshEnv rotatedReply) (worldOf oneMapping))))
      /\ withinCapacity
           (store (outcomeWorld
                     (Refresh.ensureFreshToken "A1" (Some config)
                        (refreshEnv rotatedReply) (worldOf oneMapping))))).
Proof.
  apply (flows_keep_the_store_consistent (RefreshToken "R1") (Some flowConfig) "A1"
           (Some config) (refreshEnv rotatedReply) (worldOf oneMapping)).
  - exact oneMapping_consistent.
  - split; [apply uniqueKeys_nil|vm_compute; discriminate].
Defined.

Lemma updateByRsRefresh_without_rotation_rebinds_the_access_token_witness :
  let evicted := Memory.withAccess [] oneMapping in
  let updated := Memory.updateByRsRefresh t0 "R1" callbackTokens None
                   DEFAULT_RS_TOKEN_TTL_MS evicted in
  Memory.getByRsAccess (t0 + 1) "A1" evicted = (None, evicted)
  /\ Memory.getByRsAccess (t0 + 1) "A1" (snd updated) = (fst updated, snd updated)
  /\ option_map (fun o => created_at (rsRecord (snd o))) (fst updated)
     = Some (t0 - 1000).
Proof.
  destruct (proj1 (updateByRsRefresh_without_rotation_rebinds_the_access_token
                     t0 DEFAULT_RS_TOKEN_TTL_MS (t0 + 1)
                     (Memory.withAccess [] oneMapping) "R1" callbackTokens None
                     eq_refl)
              0%nat expiringEntry eq_refl ltac:(vm_compute; reflexivity))
    as (Hfst & HgetA & _).
  cbv zeta. rewrite Hfst. split; [reflexivity|]. split; [exact HgetA|reflexivity].
Defined.

Lemma kv_rotation_moves_the_namespace_entry_witness :
  exists w1,
    updateByRsRefresh "R1" callbackTokens (Some "A2") exchangeEnv kvOneMapping
    = Ok (Some {| rs_access_token := "A2"; rs_refresh_token := "R1";
                  provider := callbackTokens; created_at := t0 |}) w1
    /\ getByRsAccess "A2" exchangeEnv w1
       = Ok (Some {| rs_access_token := "A2"; rs_refresh_token := "R1";
                     provider := callbackTokens; created_at := t0 |}) w1
    /\ kv (store w1) !! "rs:access:A1" = None.
Proof.
  destruct (kv_rotation_moves_the_namespace_entry exchangeEnv exchangeEnv kvOneMapping
              "R1" "A2" callbackTokens
              {| rs_access_token := "A1"; rs_refresh_token := "R1";
                 provider := expiringTokens; created_at := t0 - 1000 |})
    as (w1 & Hrun & HgetA & _ & Hold & _).
  - reflexivity.
  - reflexivity.
  - vm_compute. reflexivity.
  - discriminate.
  - discriminate.
  - exists w1. split; [exact Hrun|]. split; [exact HgetA|exact Hold].
Defined.

End OnLaterScenarios.
